(** * EntityTreeRenderer: zone layering and enter/leave tracking

    A shallow embedding of the parts of [EntityTreeRenderer.cpp] that
    resolve which entities contain the avatar, keep the ordered stack of
    active zones ([LayeredZones]) and fire enter/leave events, of its mouse
    and collision handlers, of its bookkeeping of the entities in the scene
    and of [update()], followed by the properties established about them.

    Conventions of the model:
    - a [QUuid] is the natural number its 128 bits denote;
    - the coordinates of a [glm::vec3] are IEEE 754 binary32 numbers, every
      operation on them rounded to nearest, ties to even; the volume of a
      zone, which is only ever compared, is an integer key;
    - a timestamp is a [quint64]: the difference of two timestamps wraps
      modulo [2^64];
    - undefined behaviour of the C++ code (reading through [end()], a null
      pointer) is an explicit [Undefined] outcome;
    - signals, script calls and scene transactions are recorded, in order,
      as a list of [Event]s returned by each operation. *)

From Stdlib Require SpecFloat.
From stdpp Require Import numbers list gmap strings sorting.

Open Scope Z_scope.

(** ** Values *)

Definition QUuid := N.
Definition EntityItemID := QUuid.
Definition ItemID := N.

(** The C++ type [float]: IEEE 754 binary32, that is 24 bits of precision
    and infinities at exponent 128, with zeros, infinities and NaN.  Sums,
    differences, products and square roots are rounded to nearest, ties to
    even; a comparison with NaN is false. *)
Definition float : Type := SpecFloat.spec_float.

#[global] Instance float_eq_dec : EqDecision float.
Proof. unfold float. solve_decision. Defined.

Definition float_add : float → float → float := SpecFloat.SFadd 24 128.
Definition float_sub : float → float → float := SpecFloat.SFsub 24 128.
Definition float_mul : float → float → float := SpecFloat.SFmul 24 128.
Definition float_div : float → float → float := SpecFloat.SFdiv 24 128.
Definition float_sqrt : float → float := SpecFloat.SFsqrt 24 128.

(** [a > b] and [a <= b]. *)
Definition float_gt (a b : float) : bool := SpecFloat.SFltb b a.
Definition float_le (a b : float) : bool := SpecFloat.SFleb a b.

(** The conversion of an integer to [float]. *)
Definition float_of_Z (n : Z) : float :=
  SpecFloat.binary_normalize 24 128 n 0 false.

(** The conversion of a [float] to an integer: towards zero, and [0] where
    C++ leaves it undefined. *)
Definition float_to_Z (f : float) : Z :=
  match f with
  | SpecFloat.S754_finite s m e =>
      let magnitude :=
        match e with
        | Z.neg k => Z.shiftr (Z.pos m) (Z.pos k)
        | _ => Z.shiftl (Z.pos m) e
        end in
      if s then - magnitude else magnitude
  | _ => 0
  end.

Record vec3 := Vec3 { x : float; y : float; z : float }.

#[global] Instance vec3_eq_dec : EqDecision vec3.
Proof. solve_decision. Defined.

(** [glm::vec3(s)]: the same scalar in the three components. *)
Definition vec3_splat (s : float) : vec3 := Vec3 s s s.

Definition vec3_add (a b : vec3) : vec3 :=
  Vec3 (float_add (x a) (x b)) (float_add (y a) (y b))
       (float_add (z a) (z b)).

Definition vec3_sub (a b : vec3) : vec3 :=
  Vec3 (float_sub (x a) (x b)) (float_sub (y a) (y b))
       (float_sub (z a) (z b)).

(** [glm::dot], [glm::length] and [glm::distance] on [vec3], by their
    generic definitions: [tmp = a * b; tmp.x + tmp.y + tmp.z],
    [sqrt(dot(v, v))] and [length(p1 - p0)]. *)
Definition glm_dot (a b : vec3) : float :=
  float_add (float_add (float_mul (x a) (x b)) (float_mul (y a) (y b)))
            (float_mul (z a) (z b)).

Definition glm_length (v : vec3) : float := float_sqrt (glm_dot v v).

Definition glm_distance (p0 p1 : vec3) : float := glm_length (vec3_sub p1 p0).

(** [glm::distance(a, b) > d]. *)
Definition distance_gt (a b : vec3) (d : float) : bool :=
  float_gt (glm_distance a b) d.

(** The difference of two [quint64] timestamps. *)
Definition quint64_sub (a b : Z) : Z := (a - b) mod 2 ^ 64.

(** ** Outcomes: a returned value, or undefined behaviour *)

Inductive UB :=
| ReadPastTheEnd      (* dereferencing a past-the-end iterator *)
| AdvancePastTheEnd   (* incrementing a past-the-end iterator *)
| InvalidIterator     (* using an iterator into no live node *)
| NullDereference.    (* calling through a null pointer *)

Inductive outcome (A : Type) :=
| Returns (a : A)
| Undefined (why : UB).
Arguments Returns {A} a.
Arguments Undefined {A} why.

#[global] Instance outcome_ret : MRet outcome := @Returns.
#[global] Instance outcome_bind : MBind outcome :=
  λ A B f m, match m with Returns a => f a | Undefined w => Undefined w end.
#[global] Instance outcome_fmap : FMap outcome :=
  λ A B f m, match m with Returns a => Returns (f a) | Undefined w => Undefined w end.

(** ** Entities, as far as the renderer reads them *)

Inductive EntityType :=
| Model | Light | Text | Web | ParticleEffect | Zone | Line | PolyVox
| PolyLine | Shape | Box | Sphere.

#[global] Instance EntityType_eq_dec : EqDecision EntityType.
Proof. solve_decision. Defined.

Record Entity := {
  getEntityItemID : EntityItemID;
  getType : EntityType;
  getScript : string;
  contains : vec3 → bool;           (* entity->contains(point) *)
  getVisible : bool;
  getRenderItemID : ItemID;
  computeVolume : Z
}.

(** The spatial tree, seen through the two queries the renderer makes.
    [findEntities center] is [findEntities(center, 0.01f, found)]: the
    radius is fixed by its only caller. *)
Record EntityTree := {
  findEntities : vec3 → list Entity;
  findEntityByEntityItemID : EntityItemID → option Entity
}.

(** [std::dynamic_pointer_cast<ZoneEntityItem>]: null unless a zone. *)
Definition as_zone (e : option Entity) : option Entity :=
  match e with
  | Some ent => if decide (getType ent = Zone) then Some ent else None
  | None => None
  end.

(** ** LayeredZone *)

Record LayeredZone := {
  zone : Entity;     (* std::shared_ptr<ZoneEntityItem> *)
  id : QUuid;
  volume : Z
}.

(** Modelled from the spec: the constructor [LayeredZone(zone)] is declared
    in EntityTreeRenderer.h, which is not among the sources.  "Zone Layer: a
    value derived from a zone entity -- { id, volume, zoneEntityRef }". *)
Definition LayeredZone_of (e : Entity) : LayeredZone :=
  {| zone := e; id := getEntityItemID e; volume := computeVolume e |}.

(** Modelled from the spec: [LayeredZone::operator<] is declared in
    EntityTreeRenderer.h, which is not among the sources.  "Total order:
    primarily by volume ascending, secondarily by id". *)
Definition layer_ltb (a b : LayeredZone) : bool :=
  bool_decide (volume a < volume b)
  || (bool_decide (volume a = volume b) && bool_decide (id a < id b)%N).

(** Modelled from the spec: [LayeredZone::operator==] is declared in
    EntityTreeRenderer.h, which is not among the sources.  "elementwise,
    equal (by id/volume)". *)
Definition layer_eqb (a b : LayeredZone) : bool :=
  bool_decide (id a = id b) && bool_decide (volume a = volume b).

(** ** Iterators of a [std::set<LayeredZone>]

    The set is node based: an iterator to an element stays attached to its
    node whatever else is inserted, erased or swapped, and a node is
    identified by the key it holds.  The past-the-end iterator belongs to
    the container object that handed it out. *)
Inductive iterator :=
| at_node (v : Z) (i : QUuid)
| past_the_end (owner : nat).

#[global] Instance iterator_eq_dec : EqDecision iterator.
Proof. solve_decision. Defined.

Definition iter_to (l : LayeredZone) : iterator := at_node (volume l) (id l).

(** [std::set<LayeredZone>::insert]: the elements are kept in ascending
    order; an element equivalent to the new one (neither less than the
    other) blocks the insertion.  Returns the new sequence, the element the
    returned iterator points to and the success flag. *)
Fixpoint set_insert (layer : LayeredZone) (xs : list LayeredZone)
  : list LayeredZone * (LayeredZone * bool) :=
  match xs with
  | [] => ([layer], (layer, true))
  | x :: xs' =>
      if layer_ltb layer x then (layer :: x :: xs', (layer, true))
      else if layer_ltb x layer then
        let '(r, res) := set_insert layer xs' in (x :: r, res)
      else (x :: xs', (x, false))
  end.

(** [std::map::emplace]: an existing key keeps its value. *)
Definition emplace (k : QUuid) (v : iterator) (m : gmap QUuid iterator)
  : gmap QUuid iterator :=
  match m !! k with
  | Some _ => m
  | None => <[k := v]> m
  end.

(** [std::equal(first1, last1, first2)]: [xs] are the elements from
    [first1] to the end of the container [owner1], [ys] those from [first2]
    to the end of the other container. *)
Fixpoint std_equal (last1 : iterator) (owner1 : nat)
    (xs ys : list LayeredZone) : outcome bool :=
  match xs with
  | [] =>
      if decide (past_the_end owner1 = last1) then Returns true
      else Undefined ReadPastTheEnd
  | x :: xs' =>
      if decide (iter_to x = last1) then Returns true
      else match ys with
           | [] => Undefined ReadPastTheEnd
           | y :: ys' =>
               if layer_eqb x y then std_equal last1 owner1 xs' ys'
               else Returns false
           end
  end.

(** [std::distance(first, last)] over a container's elements. *)
Fixpoint std_distance (last : iterator) (owner : nat)
    (xs : list LayeredZone) : outcome nat :=
  match xs with
  | [] =>
      if decide (past_the_end owner = last) then Returns 0%nat
      else Undefined AdvancePastTheEnd
  | x :: xs' =>
      if decide (iter_to x = last) then Returns 0%nat
      else S <$> std_distance last owner xs'
  end.

(** The iterator [n] steps after [begin()]. *)
Definition std_next (owner : nat) (xs : list LayeredZone) (n : nat)
  : outcome iterator :=
  match xs !! n with
  | Some l => Returns (iter_to l)
  | None =>
      if decide (n = length xs) then Returns (past_the_end owner)
      else Undefined AdvancePastTheEnd
  end.

(** ** LayeredZones *)

Module LayeredZones.

Record t := {
  this : nat;                        (* the identity of the object *)
  layers : list LayeredZone;         (* the std::set base, in order *)
  _map : gmap QUuid iterator;
  _skyboxLayer : iterator
}.

Definition end_ (s : t) : iterator := past_the_end (this s).

Definition empty (s : t) : bool := bool_decide (layers s = []).

(** [LayeredZones(EntityTreeRenderer* parent)]. *)
Definition create (self : nat) : t :=
  {| this := self; layers := []; _map := ∅;
     _skyboxLayer := past_the_end self |}.

(** Where an iterator sits in the iteration order of [s]. *)
Definition offset (s : t) (it : iterator) : option nat :=
  match it with
  | at_node _ _ =>
      fst <$> list_find (λ l, iter_to l = it) (layers s)
  | past_the_end o =>
      if decide (o = this s) then Some (length (layers s)) else None
  end.

(** [*it]. *)
Definition deref (s : t) (it : iterator) : outcome LayeredZone :=
  match it with
  | at_node _ _ =>
      match list_find (λ l, iter_to l = it) (layers s) with
      | Some (_, l) => Returns l
      | None => Undefined InvalidIterator
      end
  | past_the_end _ => Undefined ReadPastTheEnd
  end.

(** [LayeredZones(LayeredZones&& other)], building the object [self];
    returns the new object and what is left of [other]. *)
Definition move (self : nat) (other : t) : t * t :=
  let isSkyboxLayerValid :=
    bool_decide (_skyboxLayer other ≠ end_ other) in
  (* swap(other); _map.swap(other._map): the new object starts empty *)
  let other' :=
    {| this := this other; layers := []; _map := ∅;
       _skyboxLayer := _skyboxLayer other |} in
  let skybox := _skyboxLayer other' in
  let skybox :=
    if negb isSkyboxLayerValid then past_the_end self else skybox in
  ({| this := self; layers := layers other; _map := _map other;
      _skyboxLayer := skybox |}, other').

Definition clear (s : t) : t :=
  {| this := this s; layers := []; _map := ∅; _skyboxLayer := end_ s |}.

Definition insert (layer : LayeredZone) (s : t) : t * (iterator * bool) :=
  let '(set', (elt, success)) := set_insert layer (layers s) in
  let it := iter_to elt in
  let map' := if success then emplace (id elt) it (_map s) else _map s in
  ({| this := this s; layers := set'; _map := map';
      _skyboxLayer := _skyboxLayer s |}, (it, success)).

(** [apply()] only asserts its back pointer. *)
Definition apply (s : t) : t := s.

(** [std::set::erase(iterator)]. *)
Definition erase (it : iterator) (s : t) : t :=
  {| this := this s;
     layers := filter (λ l, iter_to l ≠ it) (layers s);
     _map := _map s; _skyboxLayer := _skyboxLayer s |}.

Definition map_erase (k : QUuid) (s : t) : t :=
  {| this := this s; layers := layers s; _map := delete k (_map s);
     _skyboxLayer := _skyboxLayer s |}.

Definition map_emplace (k : QUuid) (it : iterator) (s : t) : t :=
  {| this := this s; layers := layers s; _map := emplace k it (_map s);
     _skyboxLayer := _skyboxLayer s |}.

Definition update (zone : Entity) (s : t) : outcome t :=
  let isVisible := getVisible zone in
  if empty s && isVisible then
    (* there are no zones: set this one *)
    Returns (apply (insert (LayeredZone_of zone) s).1)
  else
    let zoneLayer := LayeredZone_of zone in
    (* find this zone's layer, if it exists *)
    '(s1, layer) ←
      match _map s !! id zoneLayer with
      | Some found =>
          l ← deref s found;
          if bool_decide (volume zoneLayer ≠ volume l) || negb isVisible
          then Returns (map_erase (id zoneLayer) (erase found s), end_ s)
          else Returns (s, found)
      | None => Returns (s, end_ s)
      end;
    (* (re)insert this zone's layer if necessary *)
    if bool_decide (layer = end_ s1) && isVisible then
      let '(s2, (layer', _)) := insert zoneLayer s1 in
      l' ← deref s2 layer';
      Returns (map_emplace (id l') layer' s2)
    else Returns s1.

Definition with_skyboxLayer (it : iterator) (s : t) : t :=
  {| this := this s; layers := layers s; _map := _map s;
     _skyboxLayer := it |}.

(** [contains(other)] on the object [s]: the result and [s] afterwards. *)
Definition contains (other : t) (s : t) : outcome (bool * t) :=
  result ← std_equal (_skyboxLayer other) (this other)
                     (layers other) (layers s);
  if result : bool then
    (* if valid, set the _skyboxLayer from the other LayeredZones *)
    n ← std_distance (_skyboxLayer other) (this other) (layers other);
    it ← std_next (this s) (layers s) n;
    Returns (true, with_skyboxLayer it s)
  else Returns (false, s).

End LayeredZones.

(** ** EntityTreeRenderer *)

(** What the renderer does that the outside can observe, in order. *)
Inductive Event :=
| FindEntities (center : vec3)          (* the tree query, under the read lock *)
| EmitLeaveEntity (entityID : EntityItemID)
| EmitEnterEntity (entityID : EntityItemID)
| CallEntityScriptMethod (entityID : EntityItemID) (method : string)
| LayeredZonesApply                     (* _layeredZones.apply() *)
| EnqueueSelection (name : string) (items : list ItemID)
| EnqueueRemovals                       (* clear(): the entities leave the scene *)
| Warning (message : string)
| DisconnectNonEssentialSignals
| UnloadAllEntityScripts
| StopScriptEngine
| ResetEntitiesScriptEngine
| OctreeProcessorClear.

#[global] Instance Event_eq_dec : EqDecision Event.
Proof. solve_decision. Defined.

(** [AbstractViewStateInterface], as read during one call. *)
Record ViewState := {
  getAvatarPosition : vec3;
  getMain3DScene : bool                 (* false: a null scene *)
}.

Record EntityTreeRenderer := {
  _wantScripts : bool;
  _tree : option EntityTree;            (* None: a null pointer *)
  _shuttingDown : bool;
  _entitiesScriptEngine : bool;         (* false: a null pointer *)
  _avatarPosition : vec3;
  _lastZoneCheck : Z;
  _currentEntitiesInside : list EntityItemID;
  _layeredZones : LayeredZones.t
}.

Definition set_shuttingDown (b : bool) (r : EntityTreeRenderer) :=
  {| _wantScripts := _wantScripts r; _tree := _tree r; _shuttingDown := b;
     _entitiesScriptEngine := _entitiesScriptEngine r;
     _avatarPosition := _avatarPosition r; _lastZoneCheck := _lastZoneCheck r;
     _currentEntitiesInside := _currentEntitiesInside r;
     _layeredZones := _layeredZones r |}.

Definition set_entitiesScriptEngine (b : bool) (r : EntityTreeRenderer) :=
  {| _wantScripts := _wantScripts r; _tree := _tree r;
     _shuttingDown := _shuttingDown r; _entitiesScriptEngine := b;
     _avatarPosition := _avatarPosition r; _lastZoneCheck := _lastZoneCheck r;
     _currentEntitiesInside := _currentEntitiesInside r;
     _layeredZones := _layeredZones r |}.

Definition set_avatarPosition (p : vec3) (r : EntityTreeRenderer) :=
  {| _wantScripts := _wantScripts r; _tree := _tree r;
     _shuttingDown := _shuttingDown r;
     _entitiesScriptEngine := _entitiesScriptEngine r;
     _avatarPosition := p; _lastZoneCheck := _lastZoneCheck r;
     _currentEntitiesInside := _currentEntitiesInside r;
     _layeredZones := _layeredZones r |}.

Definition set_lastZoneCheck (t : Z) (r : EntityTreeRenderer) :=
  {| _wantScripts := _wantScripts r; _tree := _tree r;
     _shuttingDown := _shuttingDown r;
     _entitiesScriptEngine := _entitiesScriptEngine r;
     _avatarPosition := _avatarPosition r; _lastZoneCheck := t;
     _currentEntitiesInside := _currentEntitiesInside r;
     _layeredZones := _layeredZones r |}.

Definition set_currentEntitiesInside (l : list EntityItemID)
    (r : EntityTreeRenderer) :=
  {| _wantScripts := _wantScripts r; _tree := _tree r;
     _shuttingDown := _shuttingDown r;
     _entitiesScriptEngine := _entitiesScriptEngine r;
     _avatarPosition := _avatarPosition r; _lastZoneCheck := _lastZoneCheck r;
     _currentEntitiesInside := l; _layeredZones := _layeredZones r |}.

Definition set_layeredZones (lz : LayeredZones.t) (r : EntityTreeRenderer) :=
  {| _wantScripts := _wantScripts r; _tree := _tree r;
     _shuttingDown := _shuttingDown r;
     _entitiesScriptEngine := _entitiesScriptEngine r;
     _avatarPosition := _avatarPosition r; _lastZoneCheck := _lastZoneCheck r;
     _currentEntitiesInside := _currentEntitiesInside r;
     _layeredZones := lz |}.

(** [emit leaveEntity(id)], then the script method when an engine is set. *)
Definition fire_leave (engine : bool) (entityID : EntityItemID) : list Event :=
  EmitLeaveEntity entityID
  :: (if engine then [CallEntityScriptMethod entityID "leaveEntity"] else []).

Definition fire_enter (engine : bool) (entityID : EntityItemID) : list Event :=
  EmitEnterEntity entityID
  :: (if engine then [CallEntityScriptMethod entityID "enterEntity"] else []).

Section Renderer.

(** Constants of headers that are not among the sources: the distance
    threshold, a [float]; the time threshold in the unsigned 64-bit type of
    the timestamps; [TREE_SCALE], here the value that [(float)TREE_SCALE]
    has; and the invalid render item. *)
Variable ZONE_CHECK_DISTANCE : float.
Variable ZONE_CHECK_INTERVAL : Z.
Variable TREE_SCALE : float.
Variable INVALID_ITEM_ID : ItemID.

Definition forceRecheckEntities (vs : ViewState) (r : EntityTreeRenderer)
  : EntityTreeRenderer :=
  set_avatarPosition
    (vec3_add (getAvatarPosition vs) (vec3_splat TREE_SCALE)) r.

Definition applyLayeredZones (vs : ViewState) (r : EntityTreeRenderer)
  : bool * list Event :=
  if getMain3DScene vs then
    let list :=
      (λ l, getRenderItemID (zone l)) <$> LayeredZones.layers (_layeredZones r) in
    (true, [EnqueueSelection "RankedZones" list])
  else
    (true, [Warning "EntityTreeRenderer::applyLayeredZones(), Unexpected null scene, possibly during application shutdown"]).

(** The body of the loop over [foundEntities]. *)
Definition scan_entity (avatarPosition : vec3)
    (acc : list EntityItemID * LayeredZones.t) (entity : Entity)
  : list EntityItemID * LayeredZones.t :=
  let '(entitiesContainingAvatar, lz) := acc in
  let isZone := bool_decide (getType entity = Zone) in
  let hasScript := negb (bool_decide (getScript entity = EmptyString)) in
  if isZone || hasScript then
    if contains entity avatarPosition then
      let entitiesContainingAvatar :=
        entitiesContainingAvatar ++ [getEntityItemID entity] in
      if isZone && getVisible entity then
        let renderID := getRenderItemID entity in
        let isValidRenderID := bool_decide (renderID ≠ INVALID_ITEM_ID) in
        if isValidRenderID then
          (entitiesContainingAvatar,
           (LayeredZones.insert (LayeredZone_of entity) lz).1)
        else (entitiesContainingAvatar, lz)
      else (entitiesContainingAvatar, lz)
    else (entitiesContainingAvatar, lz)
  else (entitiesContainingAvatar, lz).

(** The previous cycle's set, moved into the local [oldLayeredZones], and
    the set rebuilt from the entities found around the avatar. *)
Definition rescan (tree : EntityTree) (r : EntityTreeRenderer)
  : LayeredZones.t * (list EntityItemID * LayeredZones.t) :=
  let foundEntities := findEntities tree (_avatarPosition r) in
  let '(oldLayeredZones, moved_from) :=
    LayeredZones.move (S (LayeredZones.this (_layeredZones r)))
                      (_layeredZones r) in
  (oldLayeredZones,
   foldl (scan_entity (_avatarPosition r))
         ([], LayeredZones.clear moved_from) foundEntities).

(** [findBestZoneAndMaybeContainingEntities(&entitiesContainingAvatar)],
    on the tree [_tree] points to: [didUpdate], the ids appended to the
    vector, the renderer afterwards and the events. *)
Definition findBestZoneAndMaybeContainingEntities (vs : ViewState)
    (tree : EntityTree) (r : EntityTreeRenderer)
  : outcome (bool * list EntityItemID * EntityTreeRenderer * list Event) :=
  let '(oldLayeredZones, (entitiesContainingAvatar, lz)) := rescan tree r in
  let query := FindEntities (_avatarPosition r) in
  let unchanged (lz : LayeredZones.t) :=
    Returns (false, entitiesContainingAvatar, set_layeredZones lz r, [query]) in
  let changed (lz : LayeredZones.t) :=
    let r' := set_layeredZones (LayeredZones.apply lz) r in
    Returns (true, entitiesContainingAvatar, r',
             [query; LayeredZonesApply] ++ (applyLayeredZones vs r').2) in
  (* check if our layered zones have changed *)
  if LayeredZones.empty lz then
    if LayeredZones.empty oldLayeredZones then unchanged lz else changed lz
  else if negb (LayeredZones.empty oldLayeredZones) then
    '(result, lz') ← LayeredZones.contains oldLayeredZones lz;
    if result : bool then unchanged lz' else changed lz'
  else changed lz.

(** The recheck policy: moved far enough, or enough time elapsed. *)
Definition recheck_due (vs : ViewState) (now : Z) (r : EntityTreeRenderer)
  : bool :=
  let movedEnough :=
    distance_gt (getAvatarPosition vs) (_avatarPosition r)
                ZONE_CHECK_DISTANCE in
  let enoughTimeElapsed :=
    bool_decide (ZONE_CHECK_INTERVAL < quint64_sub now (_lastZoneCheck r)) in
  movedEnough || enoughTimeElapsed.

(** The body of [checkEnterLeaveEntities] once a recheck is due. *)
Definition recheck (vs : ViewState) (now : Z) (tree : EntityTree)
    (r : EntityTreeRenderer)
  : outcome (bool * EntityTreeRenderer * list Event) :=
  let r := set_lastZoneCheck now (set_avatarPosition (getAvatarPosition vs) r) in
  '(didUpdate, entitiesContainingAvatar, r, zone_events) ←
    findBestZoneAndMaybeContainingEntities vs tree r;
  let engine := _entitiesScriptEngine r in
  (* previous containing entities that no longer contain: leave *)
  let leaves :=
    _currentEntitiesInside r ≫= (λ entityID,
      if bool_decide (entityID ∈ entitiesContainingAvatar) then []
      else fire_leave engine entityID) in
  (* new containing entities that did not contain before: enter *)
  let enters :=
    entitiesContainingAvatar ≫= (λ entityID,
      if bool_decide (entityID ∈ _currentEntitiesInside r) then []
      else fire_enter engine entityID) in
  Returns (didUpdate,
           set_currentEntitiesInside entitiesContainingAvatar r,
           zone_events ++ leaves ++ enters).

Definition checkEnterLeaveEntities (vs : ViewState) (now : Z)
    (r : EntityTreeRenderer)
  : outcome (bool * EntityTreeRenderer * list Event) :=
  match _tree r with
  | Some tree =>
      if negb (_shuttingDown r) then
        if recheck_due vs now r then recheck vs now tree r
        else Returns (false, r, [])
      else Returns (false, r, [])
  | None => Returns (false, r, [])
  end.

(** Whether a call of [checkEnterLeaveEntities] goes through the recheck. *)
Definition performs_recheck (vs : ViewState) (now : Z)
    (r : EntityTreeRenderer) : bool :=
  bool_decide (_tree r ≠ None) && negb (_shuttingDown r)
  && recheck_due vs now r.

Definition leaveAllEntities (vs : ViewState) (r : EntityTreeRenderer)
  : EntityTreeRenderer * list Event :=
  if bool_decide (_tree r ≠ None) && negb (_shuttingDown r) then
    let events :=
      _currentEntitiesInside r ≫= fire_leave (_entitiesScriptEngine r) in
    (forceRecheckEntities vs (set_currentEntitiesInside [] r), events)
  else (r, []).

(** [clear()]; the bookkeeping of [_entitiesInScene], which nothing below
    reads, is reduced to the transaction it enqueues. *)
Definition clear (vs : ViewState) (r : EntityTreeRenderer)
  : EntityTreeRenderer * list Event :=
  let '(r, leaving) := leaveAllEntities vs r in
  (* unload and stop the engine *)
  let stopped :=
    if _entitiesScriptEngine r then [UnloadAllEntityScripts; StopScriptEngine]
    else [] in
  (* reset the engine *)
  let '(r, reset) :=
    if _wantScripts r && negb (_shuttingDown r)
    then (set_entitiesScriptEngine true r, [ResetEntitiesScriptEngine])
    else (r, []) in
  (* remove all entities from the scene *)
  let removed :=
    if getMain3DScene vs then [EnqueueRemovals]
    else [Warning "EntitityTreeRenderer::clear(), Unexpected null scene, possibly during application shutdown"] in
  (* reset the zone to the default (while we load the next scene) *)
  let r := set_layeredZones (LayeredZones.clear (_layeredZones r)) r in
  (r, leaving ++ stopped ++ reset ++ removed ++ [OctreeProcessorClear]).

Definition shutdown (vs : ViewState) (r : EntityTreeRenderer)
  : EntityTreeRenderer * list Event :=
  let disconnected :=
    if _entitiesScriptEngine r then [DisconnectNonEssentialSignals] else [] in
  let r := set_shuttingDown true r in
  (* always clear() on shutdown *)
  let '(r, cleared) := clear vs r in
  (r, disconnected ++ cleared).

Definition updateZone (id : EntityItemID) (r : EntityTreeRenderer)
  : outcome EntityTreeRenderer :=
  match _tree r with
  | None => Undefined NullDereference
  | Some tree =>
      match as_zone (findEntityByEntityItemID tree id) with
      | Some zone =>
          if contains zone (_avatarPosition r) then
            lz ← LayeredZones.update zone (_layeredZones r);
            Returns (set_layeredZones lz r)
          else Returns r
      | None => Returns r
      end
  end.

End Renderer.

(** ** Order and well-formedness of a set of layers *)

Definition layer_lt (a b : LayeredZone) : Prop := layer_ltb a b = true.

(** What [std::set] maintains: strictly ascending elements. *)
Definition ordered (s : LayeredZones.t) : Prop :=
  StronglySorted layer_lt (LayeredZones.layers s).

(** The iterator designates the [k]-th element of the set. *)
Definition designates (s : LayeredZones.t) (it : iterator) (k : nat) : Prop :=
  ∃ l, LayeredZones.layers s !! k = Some l ∧ it = iter_to l.

(** [insert], keeping only the set. *)
Definition insert_all (ls : list LayeredZone) (s : LayeredZones.t)
  : LayeredZones.t :=
  foldl (λ acc l, (LayeredZones.insert l acc).1) s ls.

(** ** What a recheck observes *)

(** An entity that can receive events and whose volume holds the point. *)
Definition interesting_container (p : vec3) (e : Entity) : bool :=
  (bool_decide (getType e = Zone)
   || negb (bool_decide (getScript e = EmptyString)))
  && contains e p.

(** The containment set at [p]: the ids of the entities found near [p]
    that are zones or scripted and contain [p], in the order found. *)
Definition containing_ids (tree : EntityTree) (p : vec3) : list EntityItemID :=
  getEntityItemID
    <$> filter (λ e, interesting_container p e = true) (findEntities tree p).

(** Events of the zone resolver and of the render-selection publisher. *)
Definition zone_event (e : Event) : bool :=
  match e with
  | FindEntities _ | LayeredZonesApply | EnqueueSelection _ _ | Warning _ => true
  | _ => false
  end.

Definition leave_event (e : Event) : bool :=
  match e with
  | EmitLeaveEntity _ => true
  | CallEntityScriptMethod _ m => bool_decide (m = "leaveEntity")
  | _ => false
  end.

Definition enter_event (e : Event) : bool :=
  match e with
  | EmitEnterEntity _ => true
  | CallEntityScriptMethod _ m => bool_decide (m = "enterEntity")
  | _ => false
  end.

(** The id resolves, in the renderer's tree, to a zone entity. *)
Definition resolves_to_zone (r : EntityTreeRenderer) (i : EntityItemID)
    (zone : Entity) : Prop :=
  ∃ tree, _tree r = Some tree
          ∧ as_zone (findEntityByEntityItemID tree i) = Some zone.

(** ** Sample data used by the examples *)

Definition sample_zone (i : N) (vol : Z) (visible inside : bool) : Entity :=
  {| getEntityItemID := i; getType := Zone; getScript := EmptyString;
     contains := λ _, inside; getVisible := visible;
     getRenderItemID := (i + 100)%N; computeVolume := vol |}.

Definition sample_set (self : nat) (zones : list Entity) : LayeredZones.t :=
  insert_all (LayeredZone_of <$> zones) (LayeredZones.create self).

(** A tree whose every query answers with the same entities. *)
Definition sample_tree (entities : list Entity) : EntityTree :=
  {| findEntities := λ _, entities;
     findEntityByEntityItemID := λ i,
       snd <$> list_find (λ e, getEntityItemID e = i) entities |}.

Definition zone_a : Entity := sample_zone 1 10 true true.
Definition zone_a_shrunk : Entity := sample_zone 1 5 true true.
Definition zone_b : Entity := sample_zone 2 20 true true.

Definition zone_a_hidden : Entity := sample_zone 1 10 false true.

(** A zone that holds the points with [x <= 0]. *)
Definition zone_west : Entity :=
  {| getEntityItemID := 2%N; getType := Zone; getScript := EmptyString;
     contains := λ p, float_le (x p) (float_of_Z 0); getVisible := true;
     getRenderItemID := 102%N; computeVolume := 20 |}.

(** A scripted box that holds every point or none. *)
Definition scripted (i : N) (inside : bool) : Entity :=
  {| getEntityItemID := i; getType := Shape; getScript := "script.js";
     contains := λ _, inside; getVisible := true;
     getRenderItemID := (i + 100)%N; computeVolume := 1 |}.

(** The point with the given integer coordinates. *)
Definition point (a b c : Z) : vec3 :=
  Vec3 (float_of_Z a) (float_of_Z b) (float_of_Z c).

Definition origin : vec3 := point 0 0 0.


(** Values for the constants in the examples: [0.001f] metres, 100000
    microseconds, 32768 metres. *)
Definition a_check_distance : float :=
  float_div (float_of_Z 1) (float_of_Z 1000).
Definition a_check_interval : Z := 100000.
Definition a_tree_scale : float := float_of_Z 32768.
Definition an_invalid_item : ItemID := 0%N.

Definition sample_view (p : vec3) : ViewState :=
  {| getAvatarPosition := p; getMain3DScene := true |}.

Definition sample_renderer (tree : option EntityTree) (shuttingDown : bool)
    (inside : list EntityItemID) (lz : LayeredZones.t) : EntityTreeRenderer :=
  {| _wantScripts := true; _tree := tree; _shuttingDown := shuttingDown;
     _entitiesScriptEngine := true; _avatarPosition := origin;
     _lastZoneCheck := 0; _currentEntitiesInside := inside;
     _layeredZones := lz |}.

(** Renderer states and trees of the examples. *)

Definition both_zones : EntityTree := sample_tree [zone_a; zone_b].

(** The previous cycle kept [zone_a]; now [zone_a] and [zone_b] hold the avatar. *)
Definition grown_cycle : EntityTreeRenderer :=
  sample_renderer (Some both_zones) false [1%N] (sample_set 0 [zone_a]).

(** Inside entity 1, with no zone around. *)
Definition inside_one : EntityTreeRenderer :=
  sample_renderer (Some (sample_tree [])) false [1%N] (LayeredZones.create 0).

(** The transition of the containment set from {1, 2} to {2, 3}. *)
Definition crossing : EntityTreeRenderer :=
  sample_renderer
    (Some (sample_tree [scripted 1%N false; scripted 2%N true; scripted 3%N true]))
    false [1%N; 2%N] (LayeredZones.create 0).

(** [{zone_a, zone_b}] with the skybox marker on its second layer. *)
Definition marked_second : LayeredZones.t :=
  LayeredZones.with_skyboxLayer (iter_to (LayeredZone_of zone_b))
    (sample_set 0 [zone_a; zone_b]).

(** No zone was active; [zone_a] and [zone_b] now hold the avatar. *)
Definition first_cycle : EntityTreeRenderer :=
  sample_renderer (Some both_zones) false [] (LayeredZones.create 0).

(** Nothing around, last checked at the origin at time 0. *)
Definition idle : EntityTreeRenderer :=
  sample_renderer (Some (sample_tree [])) false [] (LayeredZones.create 0).

(** [zone_a] is in the set and still holds the avatar, but is now hidden. *)
Definition hidden_zone_cycle : EntityTreeRenderer :=
  sample_renderer (Some (sample_tree [zone_a_hidden])) false [1%N]
    (sample_set 0 [zone_a]).

(** [zone_a] is in the set but no longer holds the avatar. *)
Definition left_zone_cycle : EntityTreeRenderer :=
  sample_renderer (Some (sample_tree [sample_zone 1 10 true false])) false []
    (sample_set 0 [zone_a]).

(** The avatar walks out of [zone_west] while staying in [zone_a]. *)
Definition two_zones_tree : EntityTree := sample_tree [zone_a; zone_west].

Definition before_walk : EntityTreeRenderer :=
  sample_renderer (Some two_zones_tree) false [] (LayeredZones.create 0).

(** ** The lock-step invariant of a set of layers *)

(** The id-to-position mapping holds exactly the layers of the set. *)
Definition map_tracks_layers (s : LayeredZones.t) : Prop :=
  ∀ k it,
    LayeredZones._map s !! k = Some it
    ↔ ∃ l, l ∈ LayeredZones.layers s ∧ id l = k ∧ it = iter_to l.

(** Ascending layers, one layer per id, mapping and set in lock-step. *)
Definition consistent (s : LayeredZones.t) : Prop :=
  ordered s ∧ NoDup (id <$> LayeredZones.layers s) ∧ map_tracks_layers s.

(** [update] for each zone of a list, in order. *)
Definition update_all (zones : list Entity) (s : LayeredZones.t)
  : outcome LayeredZones.t :=
  foldl (λ acc zone, acc ≫= LayeredZones.update zone) (Returns s) zones.

(** The iterator [n] steps after [begin()], when there is one. *)
Definition iterator_at (s : LayeredZones.t) (n : nat) : iterator :=
  match LayeredZones.layers s !! n with
  | Some l => iter_to l
  | None => LayeredZones.end_ s
  end.

(** The first [n] layers of both sets are pairwise [operator==]-equal. *)
Definition same_prefix (n : nat) (a b : LayeredZones.t) : Prop :=
  Forall2 (λ u v, layer_eqb u v = true)
    (take n (LayeredZones.layers a)) (take n (LayeredZones.layers b)).

#[global] Instance same_prefix_dec n a b : Decision (same_prefix n a b).
Proof. unfold same_prefix. apply _. Defined.

(** How many steps after [begin()] the iterator [last] sits in the
    sequence [xs] of the container [owner]; [None] when it is not there. *)
Definition list_offset (last : iterator) (owner : nat)
    (xs : list LayeredZone) : option nat :=
  match last with
  | at_node _ _ => fst <$> list_find (λ l, iter_to l = last) xs
  | past_the_end o => if decide (o = owner) then Some (length xs) else None
  end.

(** ** What the rebuilt set holds *)

(** A found entity that gets a layer in the rebuilt set: a visible zone
    that holds the point and has a render item. *)
Definition zone_candidate (invalid : ItemID) (p : vec3) (e : Entity) : bool :=
  bool_decide (getType e = Zone) && contains e p && getVisible e
  && bool_decide (getRenderItemID e ≠ invalid).

(** Entities 2 and 3 hold the avatar and are tracked already. *)
Definition settled : EntityTreeRenderer :=
  sample_renderer
    (Some (sample_tree [scripted 2%N true; scripted 3%N true]))
    false [2%N; 3%N] (LayeredZones.create 0).

(** ** Collision events *)

Inductive CollisionEffect (Collision : Type) :=
| PlayEntityCollisionSound (sounding : Entity) (collision : Collision)
| EmitCollisionWithEntity (idA idB : EntityItemID) (collision : Collision)
| CallCollisionWithEntity (idA idB : EntityItemID) (collision : Collision).
Arguments PlayEntityCollisionSound {Collision} sounding collision.
Arguments EmitCollisionWithEntity {Collision} idA idB collision.
Arguments CallCollisionWithEntity {Collision} idA idB collision.

Section Collisions.

(** [Collision], its [invert()], the two attributes of an entity that
    only this handler reads, and [QUuid::isNull]. *)
Variable Collision : Type.
Variable invert : Collision → Collision.
Variable getSimulatorID : Entity → QUuid.
Variable getDynamic : Entity → bool.
Variable isNull : QUuid → bool.

(** What one side of the pair receives. *)
Definition notify_collision (engine : bool) (about : Entity)
    (heard : Collision) (idA idB : EntityItemID) (sent : Collision)
  : list (CollisionEffect Collision) :=
  PlayEntityCollisionSound about heard
  :: EmitCollisionWithEntity idA idB sent
  :: (if engine then [CallCollisionWithEntity idA idB sent] else []).

(** [entityCollisionWithEntity(idA, idB, collision)] on the node whose
    session id is [myNodeID]. *)
Definition entityCollisionWithEntity (myNodeID : QUuid)
    (idA idB : EntityItemID) (collision : Collision)
    (r : EntityTreeRenderer) : list (CollisionEffect Collision) :=
  match _tree r with
  | None => []
  | Some entityTree =>
      if _shuttingDown r then []
      else
        (* trigger scripted collision sounds and events for locally owned
           objects *)
        match findEntityByEntityItemID entityTree idA,
              findEntityByEntityItemID entityTree idB with
        | Some entityA, Some entityB =>
            let entityASimulatorID := getSimulatorID entityA in
            let entityBSimulatorID := getSimulatorID entityB in
            let entityAIsDynamic := getDynamic entityA in
            let entityBIsDynamic := getDynamic entityB in
            (if (bool_decide (myNodeID = entityASimulatorID)
                 && entityAIsDynamic)
                || (bool_decide (myNodeID = entityBSimulatorID)
                    && (negb entityAIsDynamic || isNull entityASimulatorID))
             then notify_collision (_entitiesScriptEngine r) entityA collision
                    idA idB collision
             else [])
            ++ (if (bool_decide (myNodeID = entityBSimulatorID)
                    && entityBIsDynamic)
                   || (bool_decide (myNodeID = entityASimulatorID)
                       && (negb entityBIsDynamic || isNull entityBSimulatorID))
                then
                  (* since we're swapping A and B we need to send the
                     inverted collision *)
                  notify_collision (_entitiesScriptEngine r) entityB collision
                    idB idA (invert collision)
                else [])
        | _, _ => []
        end
  end.

End Collisions.

(** ** Pointer events *)

Record QMouseEvent := {
  event_x : Z;
  event_y : Z;
  event_button : Z;                    (* Qt::MouseButton *)
  event_buttons : Z                    (* Qt::MouseButtons *)
}.

(** [QFlags::testFlag]. *)
Definition testFlag (flags flag : Z) : bool :=
  bool_decide (Z.land flags flag = flag)
  && (negb (bool_decide (flag = 0)) || bool_decide (flags = flag)).

Record PickRay := { origin_of : vec3; direction : vec3 }.

Inductive lockType := Lock | TryLock.

Record RayToEntityIntersectionResult := {
  intersects : bool;
  accurate : bool;
  entityID : EntityItemID;
  distance : float;
  face : Z;
  intersection : vec3;
  surfaceNormal : vec3;
  entity : option Entity              (* None: a null pointer *)
}.

(** What [EntityTree::findRayIntersection] hands back: its result and the
    values it leaves in its output arguments. *)
Record RayHit := {
  hit : bool;
  hit_distance : float;
  hit_face : Z;
  hit_surfaceNormal : vec3;
  hit_entity : option Entity;
  hit_accurate : bool
}.

Definition vec3_scale (v : vec3) (s : float) : vec3 :=
  Vec3 (float_mul (x v) s) (float_mul (y v) s) (float_mul (z v) s).

Inductive PointerEventType := Press | Release | Move.
Inductive KeyboardModifiers := NoModifier.

Record PointerEvent (vec2 : Type) := {
  pointer_type : PointerEventType;
  pointer_id : Z;
  pos2D : vec2;
  pos3D : vec3;
  normal : vec3;
  pointer_direction : vec3;
  pointer_button : Z;
  pointer_buttons : Z;
  keyboardModifiers : KeyboardModifiers
}.
Arguments Build_PointerEvent {vec2}.

Inductive PointerSignal (vec2 : Type) :=
| MousePressOnEntity (i : EntityItemID) (e : PointerEvent vec2)
| MousePressOffEntity
| MouseDoublePressOnEntity (i : EntityItemID) (e : PointerEvent vec2)
| MouseDoublePressOffEntity
| MouseReleaseOnEntity (i : EntityItemID) (e : PointerEvent vec2)
| MouseMoveOnEntity (i : EntityItemID) (e : PointerEvent vec2)
| ClickDownOnEntity (i : EntityItemID) (e : PointerEvent vec2)
| HoldingClickOnEntity (i : EntityItemID) (e : PointerEvent vec2)
| ClickReleaseOnEntity (i : EntityItemID) (e : PointerEvent vec2)
| HoverEnterEntity (i : EntityItemID) (e : PointerEvent vec2)
| HoverOverEntity (i : EntityItemID) (e : PointerEvent vec2)
| HoverLeaveEntity (i : EntityItemID) (e : PointerEvent vec2)
| CallPointerScript (i : EntityItemID) (method : string) (e : PointerEvent vec2)
| HandleLookupString (url : string).
Arguments MousePressOnEntity {vec2} i e.
Arguments MousePressOffEntity {vec2}.
Arguments MouseDoublePressOnEntity {vec2} i e.
Arguments MouseDoublePressOffEntity {vec2}.
Arguments MouseReleaseOnEntity {vec2} i e.
Arguments MouseMoveOnEntity {vec2} i e.
Arguments ClickDownOnEntity {vec2} i e.
Arguments HoldingClickOnEntity {vec2} i e.
Arguments ClickReleaseOnEntity {vec2} i e.
Arguments HoverEnterEntity {vec2} i e.
Arguments HoverOverEntity {vec2} i e.
Arguments HoverLeaveEntity {vec2} i e.
Arguments CallPointerScript {vec2} i method e.
Arguments HandleLookupString {vec2} url.

(** The members of the renderer that the mouse handlers keep. *)
Record PointerState (vec2 : Type) := {
  _currentHoverOverEntityID : EntityItemID;
  _currentClickingOnEntityID : EntityItemID;
  _lastPointerEventValid : bool;
  _lastPointerEvent : PointerEvent vec2;
  _dontDoPrecisionPicking : bool
}.
Arguments Build_PointerState {vec2}.
Arguments _currentHoverOverEntityID {vec2} _.
Arguments _currentClickingOnEntityID {vec2} _.
Arguments _lastPointerEventValid {vec2} _.
Arguments _lastPointerEvent {vec2} _.
Arguments _dontDoPrecisionPicking {vec2} _.

Definition set_hover {vec2} (i : EntityItemID) (st : PointerState vec2) :=
  Build_PointerState i (_currentClickingOnEntityID st)
    (_lastPointerEventValid st) (_lastPointerEvent st)
    (_dontDoPrecisionPicking st).

Definition set_clicking {vec2} (i : EntityItemID) (st : PointerState vec2) :=
  Build_PointerState (_currentHoverOverEntityID st) i
    (_lastPointerEventValid st) (_lastPointerEvent st)
    (_dontDoPrecisionPicking st).

(** [_lastPointerEvent = pointerEvent; _lastPointerEventValid = true]. *)
Definition set_lastPointerEvent {vec2} (e : PointerEvent vec2)
    (st : PointerState vec2) :=
  Build_PointerState (_currentHoverOverEntityID st)
    (_currentClickingOnEntityID st) true e (_dontDoPrecisionPicking st).

Definition MOUSE_POINTER_ID : Z := 0.

(** What the mouse handlers take from outside the file.  The
    collaborators: the pick ray of the view state, the ray query of the tree
    and its lookup by [QUuid], the href of an entity and the validity test
    [QUrl] applies to it.  [projectOntoEntityXYPlane], whose arithmetic on
    floats and quaternions is kept as an unknown function of its three
    arguments.  And the constants and declarations of headers that are not
    among the sources: a default-constructed
    [RayToEntityIntersectionResult], the buttons of Qt and of
    [PointerEvent], the unknown id and [EntityItemID::isInvalidID]. *)
Record PointerEnvironment (vec2 : Type) := {
  computePickRay : Z → Z → PickRay;
  findRayIntersection : EntityTree → PickRay → bool → lockType → RayHit;
  findEntityByID : EntityTree → EntityItemID → option Entity;
  getHref : Entity → string;
  usable_url : string → bool;
  projectOntoEntityXYPlane :
    option Entity → PickRay → RayToEntityIntersectionResult → vec2;
  no_intersection : RayToEntityIntersectionResult;
  LeftButton : Z;
  RightButton : Z;
  MiddleButton : Z;
  PrimaryButton : Z;
  SecondaryButton : Z;
  TertiaryButton : Z;
  NoButtons : Z;
  UNKNOWN_ENTITY_ID : EntityItemID;
  isInvalidID : EntityItemID → bool
}.
Arguments computePickRay {vec2} _.
Arguments findRayIntersection {vec2} _.
Arguments findEntityByID {vec2} _.
Arguments getHref {vec2} _.
Arguments usable_url {vec2} _.
Arguments projectOntoEntityXYPlane {vec2} _.
Arguments no_intersection {vec2} _.
Arguments LeftButton {vec2} _.
Arguments RightButton {vec2} _.
Arguments MiddleButton {vec2} _.
Arguments PrimaryButton {vec2} _.
Arguments SecondaryButton {vec2} _.
Arguments TertiaryButton {vec2} _.
Arguments NoButtons {vec2} _.
Arguments UNKNOWN_ENTITY_ID {vec2} _.
Arguments isInvalidID {vec2} _.

Section Pointer.

Variable vec2 : Type.
Variable w : PointerEnvironment vec2.

Definition findRayIntersectionWorker (ray : PickRay) (lock : lockType)
    (precisionPicking : bool) (r : EntityTreeRenderer)
  : RayToEntityIntersectionResult :=
  let result := no_intersection w in
  match _tree r with
  | Some entityTree =>
      let h := findRayIntersection w entityTree ray precisionPicking lock in
      let result :=
        {| intersects := hit h; accurate := hit_accurate h;
           entityID := entityID result; distance := hit_distance h;
           face := hit_face h; intersection := intersection result;
           surfaceNormal := hit_surfaceNormal h; entity := entity result |} in
      match intersects result, hit_entity h with
      | true, Some intersectedEntity =>
          {| intersects := intersects result; accurate := accurate result;
             entityID := getEntityItemID intersectedEntity;
             distance := distance result; face := face result;
             intersection :=
               vec3_add (origin_of ray)
                        (vec3_scale (direction ray) (distance result));
             surfaceNormal := surfaceNormal result;
             entity := Some intersectedEntity |}
      | _, _ => result
      end
  | None => result
  end.

Definition toPointerButtons (event : QMouseEvent) : Z :=
  let buttons := 0 in
  let buttons :=
    Z.lor buttons
      (if testFlag (event_buttons event) (LeftButton w) then PrimaryButton w
       else 0) in
  let buttons :=
    Z.lor buttons
      (if testFlag (event_buttons event) (RightButton w) then SecondaryButton w
       else 0) in
  let buttons :=
    Z.lor buttons
      (if testFlag (event_buttons event) (MiddleButton w) then TertiaryButton w
       else 0) in
  buttons.

Definition toPointerButton (event : QMouseEvent) : Z :=
  if decide (event_button event = (LeftButton w)) then (PrimaryButton w)
  else if decide (event_button event = (RightButton w)) then SecondaryButton w
  else if decide (event_button event = (MiddleButton w)) then TertiaryButton w
  else (NoButtons w).

(** The [PointerEvent] every handler builds; only the entity projected
    onto and the type vary. *)
Definition pointer_event (type : PointerEventType) (projected : option Entity)
    (event : QMouseEvent) (ray : PickRay)
    (rayPickResult : RayToEntityIntersectionResult) : PointerEvent vec2 :=
  {| pointer_type := type; pointer_id := MOUSE_POINTER_ID;
     pos2D := projectOntoEntityXYPlane w projected ray rayPickResult;
     pos3D := intersection rayPickResult;
     normal := surfaceNormal rayPickResult;
     pointer_direction := direction ray;
     pointer_button := toPointerButton event;
     pointer_buttons := toPointerButtons event;
     keyboardModifiers := NoModifier |}.

(** [if (_entitiesScriptEngine) callEntityScriptMethod(i, method, e)]. *)
Definition call_script (r : EntityTreeRenderer) (i : EntityItemID)
    (method : string) (e : PointerEvent vec2) : list (PointerSignal vec2) :=
  if _entitiesScriptEngine r then [CallPointerScript i method e] else [].

Definition mousePressEvent (event : QMouseEvent) (r : EntityTreeRenderer)
    (st : PointerState vec2)
  : outcome (PointerState vec2 * list (PointerSignal vec2)) :=
  match _tree r with
  | None => Returns (st, [])
  | Some tree =>
      if _shuttingDown r then Returns (st, [])
      else
        let ray := computePickRay w (event_x event) (event_y event) in
        let precisionPicking := negb (_dontDoPrecisionPicking st) in
        let rayPickResult :=
          findRayIntersectionWorker ray Lock precisionPicking r in
        if intersects rayPickResult then
          match findEntityByEntityItemID tree (entityID rayPickResult) with
          | None => Undefined NullDereference    (* entity->getProperties() *)
          | Some found =>
              let urlString := getHref w found in
              let lookup :=
                if usable_url w urlString then [HandleLookupString urlString]
                else [] in
              let pointerEvent :=
                pointer_event Press (entity rayPickResult) event ray
                  rayPickResult in
              let pressed :=
                MousePressOnEntity (entityID rayPickResult) pointerEvent
                :: call_script r (entityID rayPickResult)
                     "mousePressOnEntity" pointerEvent in
              let st := set_clicking (entityID rayPickResult) st in
              let clicked :=
                ClickDownOnEntity (_currentClickingOnEntityID st) pointerEvent
                :: call_script r (_currentClickingOnEntityID st)
                     "clickDownOnEntity" pointerEvent in
              Returns (set_lastPointerEvent pointerEvent st,
                       lookup ++ pressed ++ clicked)
          end
        else Returns (st, [MousePressOffEntity])
  end.

Definition mouseDoublePressEvent (event : QMouseEvent)
    (r : EntityTreeRenderer) (st : PointerState vec2)
  : PointerState vec2 * list (PointerSignal vec2) :=
  if bool_decide (_tree r = None) || _shuttingDown r then (st, [])
  else
    let ray := computePickRay w (event_x event) (event_y event) in
    let precisionPicking := negb (_dontDoPrecisionPicking st) in
    let rayPickResult := findRayIntersectionWorker ray Lock precisionPicking r in
    if intersects rayPickResult then
      let pointerEvent :=
        pointer_event Press (entity rayPickResult) event ray rayPickResult in
      let pressed :=
        MouseDoublePressOnEntity (entityID rayPickResult) pointerEvent
        :: call_script r (entityID rayPickResult)
             "mouseDoublePressOnEntity" pointerEvent in
      let st := set_clicking (entityID rayPickResult) st in
      let clicked :=
        ClickDownOnEntity (_currentClickingOnEntityID st) pointerEvent
        :: call_script r (_currentClickingOnEntityID st)
             "doubleclickOnEntity" pointerEvent in
      (set_lastPointerEvent pointerEvent st, pressed ++ clicked)
    else (st, [MouseDoublePressOffEntity]).

Definition mouseReleaseEvent (event : QMouseEvent) (r : EntityTreeRenderer)
    (st : PointerState vec2)
  : PointerState vec2 * list (PointerSignal vec2) :=
  match _tree r with
  | None => (st, [])
  | Some tree =>
      if _shuttingDown r then (st, [])
      else
        let ray := computePickRay w (event_x event) (event_y event) in
        let precisionPicking := negb (_dontDoPrecisionPicking st) in
        let rayPickResult :=
          findRayIntersectionWorker ray Lock precisionPicking r in
        let '(st, released) :=
          if intersects rayPickResult then
            let pointerEvent :=
              pointer_event Release (entity rayPickResult) event ray
                rayPickResult in
            (set_lastPointerEvent pointerEvent st,
             MouseReleaseOnEntity (entityID rayPickResult) pointerEvent
             :: call_script r (entityID rayPickResult)
                  "mouseReleaseOnEntity" pointerEvent)
          else (st, []) in
        (* Even if we're no longer intersecting with an entity, if we
           started clicking on it, and now we're releasing the button, then
           this is considered a clickOn event *)
        let clicked :=
          if negb (isInvalidID w (_currentClickingOnEntityID st)) then
            let found :=
              findEntityByID w tree (_currentClickingOnEntityID st) in
            let pointerEvent :=
              pointer_event Release found event ray rayPickResult in
            ClickReleaseOnEntity (_currentClickingOnEntityID st) pointerEvent
            :: call_script r (entityID rayPickResult)
                 "clickReleaseOnEntity" pointerEvent
          else [] in
        (* makes it the unknown ID, we just released so we can't be
           clicking on anything *)
        (set_clicking (UNKNOWN_ENTITY_ID w) st, released ++ clicked)
  end.

Definition mouseMoveEvent (event : QMouseEvent) (r : EntityTreeRenderer)
    (st : PointerState vec2)
  : PointerState vec2 * list (PointerSignal vec2) :=
  match _tree r with
  | None => (st, [])
  | Some tree =>
      if _shuttingDown r then (st, [])
      else
        let ray := computePickRay w (event_x event) (event_y event) in
        (* for mouse moves we do not do precision picking *)
        let precisionPicking := false in
        let rayPickResult :=
          findRayIntersectionWorker ray TryLock precisionPicking r in
        let '(st, hovered) :=
          if intersects rayPickResult then
            let pointerEvent :=
              pointer_event Move (entity rayPickResult) event ray
                rayPickResult in
            let moved :=
              MouseMoveOnEntity (entityID rayPickResult) pointerEvent
              :: (if _entitiesScriptEngine r then
                    [CallPointerScript (entityID rayPickResult)
                       "mouseMoveEvent" pointerEvent;
                     CallPointerScript (entityID rayPickResult)
                       "mouseMoveOnEntity" pointerEvent]
                  else []) in
            (* if we were previously hovering over an entity, and this new
               entity is not the same as our previous entity then we need
               to send the hover leave *)
            let left_previous :=
              if negb (isInvalidID w (_currentHoverOverEntityID st))
                 && bool_decide
                      (entityID rayPickResult ≠ _currentHoverOverEntityID st)
              then
                let found :=
                  findEntityByID w tree (_currentHoverOverEntityID st) in
                let pointerEvent :=
                  pointer_event Move found event ray rayPickResult in
                HoverLeaveEntity (_currentHoverOverEntityID st) pointerEvent
                :: call_script r (_currentHoverOverEntityID st)
                     "hoverLeaveEntity" pointerEvent
              else [] in
            (* If the new hover entity does not match the previous hover
               entity then we are entering the new one *)
            let entered :=
              if bool_decide
                   (entityID rayPickResult ≠ _currentHoverOverEntityID st)
              then
                HoverEnterEntity (entityID rayPickResult) pointerEvent
                :: call_script r (entityID rayPickResult)
                     "hoverEnterEntity" pointerEvent
              else [] in
            (* and finally, no matter what, if we're intersecting an entity
               then we're definitely hovering over it *)
            let over :=
              HoverOverEntity (entityID rayPickResult) pointerEvent
              :: call_script r (entityID rayPickResult)
                   "hoverOverEntity" pointerEvent in
            (* remember what we're hovering over *)
            (set_lastPointerEvent pointerEvent
               (set_hover (entityID rayPickResult) st),
             moved ++ left_previous ++ entered ++ over)
          else if negb (isInvalidID w (_currentHoverOverEntityID st)) then
            (* we're no longer hovering over any entity: send the hover
               leave for our previous entity *)
            let found :=
              findEntityByID w tree (_currentHoverOverEntityID st) in
            let pointerEvent :=
              pointer_event Move found event ray rayPickResult in
            (set_hover (UNKNOWN_ENTITY_ID w) st,   (* makes it the unknown ID *)
             HoverLeaveEntity (_currentHoverOverEntityID st) pointerEvent
             :: call_script r (_currentHoverOverEntityID st)
                  "hoverLeaveEntity" pointerEvent)
          else (st, []) in
        (* if we started clicking on an entity and we have not yet released
           the hold then this is still considered a holdingClickOnEntity
           event *)
        let held :=
          if negb (isInvalidID w (_currentClickingOnEntityID st)) then
            let found :=
              findEntityByID w tree (_currentClickingOnEntityID st) in
            let pointerEvent :=
              pointer_event Move found event ray rayPickResult in
            HoldingClickOnEntity (_currentClickingOnEntityID st) pointerEvent
            :: call_script r (_currentClickingOnEntityID st)
                 "holdingClickOnEntity" pointerEvent
          else [] in
        (st, hovered ++ held)
  end.

End Pointer.

(** ** Sequences of mouse events and the signals they may produce *)

Inductive MouseInput :=
| MousePress (event : QMouseEvent)
| MouseDoublePress (event : QMouseEvent)
| MouseRelease (event : QMouseEvent)
| MouseMove (event : QMouseEvent).

Definition handle_mouse {vec2} (w : PointerEnvironment vec2)
    (input : MouseInput) (r : EntityTreeRenderer) (st : PointerState vec2)
  : outcome (PointerState vec2 * list (PointerSignal vec2)) :=
  match input with
  | MousePress event => mousePressEvent vec2 w event r st
  | MouseDoublePress event => Returns (mouseDoublePressEvent vec2 w event r st)
  | MouseRelease event => Returns (mouseReleaseEvent vec2 w event r st)
  | MouseMove event => Returns (mouseMoveEvent vec2 w event r st)
  end.

(** The handlers called one after the other, their signals in order. *)
Fixpoint handle_mouse_all {vec2} (w : PointerEnvironment vec2)
    (inputs : list MouseInput) (r : EntityTreeRenderer)
    (st : PointerState vec2)
  : outcome (PointerState vec2 * list (PointerSignal vec2)) :=
  match inputs with
  | [] => Returns (st, [])
  | input :: rest =>
      '(st1, first) ← handle_mouse w input r st;
      '(st2, others) ← handle_mouse_all w rest r st1;
      Returns (st2, first ++ others)
  end.

(** Reads a list of signals as a protocol on the entity hovered and the
    entity clicked: an enter needs nothing hovered, an over and a leave need
    that entity hovered, a hold and a click release need that entity
    clicked; a leave and a click release forget the entity.  Gives the two
    entities at the end, or [None] where a signal breaks the protocol. *)
Fixpoint replay {vec2} (w : PointerEnvironment vec2)
    (hover click : EntityItemID) (signals : list (PointerSignal vec2))
  : option (EntityItemID * EntityItemID) :=
  match signals with
  | [] => Some (hover, click)
  | HoverEnterEntity i _ :: rest =>
      if isInvalidID w hover then replay w i click rest else None
  | HoverOverEntity i _ :: rest =>
      if bool_decide (hover = i) then replay w hover click rest else None
  | HoverLeaveEntity i _ :: rest =>
      if bool_decide (hover = i) && negb (isInvalidID w i)
      then replay w (UNKNOWN_ENTITY_ID w) click rest else None
  | ClickDownOnEntity i _ :: rest => replay w hover i rest
  | HoldingClickOnEntity i _ :: rest =>
      if bool_decide (click = i) && negb (isInvalidID w i)
      then replay w hover click rest else None
  | ClickReleaseOnEntity i _ :: rest =>
      if bool_decide (click = i) && negb (isInvalidID w i)
      then replay w hover (UNKNOWN_ENTITY_ID w) rest else None
  | _ :: rest => replay w hover click rest
  end.

(** There is one invalid id, the unknown one:
    [isInvalidID() { return *this == UNKNOWN_ENTITY_ID; }]. *)
Definition one_invalid_id {vec2} (w : PointerEnvironment vec2) : Prop :=
  ∀ i, isInvalidID w i = true ↔ i = UNKNOWN_ENTITY_ID w.

(** ** Sample data for the pointer and collision examples *)

(** A screen on which the pixel column [px] shows the entity with id [px],
    if the tree has one, and nothing otherwise. *)
Definition sample_pointer : PointerEnvironment (Z * Z) :=
  {| computePickRay := λ px py,
       {| origin_of := point px py 0; direction := point 0 0 1 |};
     findRayIntersection := λ tree ray _ _,
       let found :=
         findEntityByEntityItemID tree
           (Z.to_N (float_to_Z (x (origin_of ray)))) in
       {| hit := match found with Some _ => true | None => false end;
          hit_distance := float_of_Z 5; hit_face := 0;
          hit_surfaceNormal := point 0 0 (-1); hit_entity := found;
          hit_accurate := true |};
     findEntityByID := findEntityByEntityItemID;
     getHref := λ _, EmptyString;
     usable_url := λ url, negb (String.eqb url EmptyString);
     projectOntoEntityXYPlane := λ _ ray _,
       (float_to_Z (x (origin_of ray)), float_to_Z (y (origin_of ray)));
     no_intersection :=
       {| intersects := false; accurate := true; entityID := 0%N;
          distance := float_of_Z 0; face := 0; intersection := origin;
          surfaceNormal := origin; entity := None |};
     LeftButton := 1; RightButton := 2; MiddleButton := 4;
     PrimaryButton := 1; SecondaryButton := 2; TertiaryButton := 4;
     NoButtons := 0;
     UNKNOWN_ENTITY_ID := 0%N;
     isInvalidID := λ i, bool_decide (i = 0%N) |}.

(** The left button, held, over the pixel column [px]. *)
Definition mouse_at (px : Z) : QMouseEvent :=
  {| event_x := px; event_y := 0; event_button := 1; event_buttons := 1 |}.

(** Nothing hovered, nothing clicked, no pointer event yet. *)
Definition pointer_start : PointerState (Z * Z) :=
  {| _currentHoverOverEntityID := 0%N; _currentClickingOnEntityID := 0%N;
     _lastPointerEventValid := false;
     _lastPointerEvent :=
       {| pointer_type := Move; pointer_id := 0; pos2D := (0, 0);
          pos3D := origin; normal := origin; pointer_direction := origin;
          pointer_button := 0; pointer_buttons := 0;
          keyboardModifiers := NoModifier |};
     _dontDoPrecisionPicking := false |}.

(** Entity 2 hovered and clicked. *)
Definition pointer_on_two : PointerState (Z * Z) :=
  set_clicking 2%N (set_hover 2%N pointer_start).

(** Over entity 2, press, drag to entity 3, release over nothing, move. *)
Definition a_mouse_session : list MouseInput :=
  [MouseMove (mouse_at 2); MousePress (mouse_at 2); MouseMove (mouse_at 3);
   MouseRelease (mouse_at 7); MouseMove (mouse_at 7)].

(** Entities 2 and 3 are simulated by node 7; entity 2 is dynamic. *)
Definition sample_simulator (e : Entity) : QUuid := 7%N.
Definition sample_dynamic (e : Entity) : bool :=
  bool_decide (getEntityItemID e = 2%N).
Definition sample_isNull (u : QUuid) : bool := bool_decide (u = 0%N).

(** Membership of a signal in an explicit list of signals. *)
Ltac find_signal :=
  first [ apply list_elem_of_here | apply list_elem_of_further; find_signal ].

Ltac signal_cases :=
  repeat match goal with
         | H : _ ∈ _ :: _ |- _ => apply elem_of_cons in H as [H|H]
         | H : _ ∈ [] |- _ => by apply elem_of_nil in H
         end.

(** ** The entities in the scene *)

(** What the scene handlers do to the script engine, to the entity and to
    the render scene.  [UnloadEntityScript] records the second argument of
    [unloadEntityScript] when the call gives one. *)
Inductive SceneEffect :=
| UnloadEntityScript (entityID : EntityItemID)
    (shouldRemoveFromMap : option bool)
| LoadEntityScript (entityID : EntityItemID) (scriptUrl : string)
    (reload : bool)
| ScriptHasUnloaded (entityID : EntityItemID)
| ScriptHasPreloaded (entityID : EntityItemID)
| RemoveFromScene (entityID : EntityItemID)
| AddToScene (entityID : EntityItemID)
| EnqueueTransaction
| SceneWarning (message : string).

(** The two members of the renderer that track the scene:
    [QHash<EntityItemID, EntityItemPointer> _entitiesInScene] and
    [_entityIDsLastInScene]. *)
Record SceneState := {
  _entitiesInScene : gmap EntityItemID Entity;
  _entityIDsLastInScene : list EntityItemID
}.

Definition set_entitiesInScene (m : gmap EntityItemID Entity)
    (s : SceneState) : SceneState :=
  {| _entitiesInScene := m;
     _entityIDsLastInScene := _entityIDsLastInScene s |}.

Definition set_entityIDsLastInScene (ids : list EntityItemID)
    (s : SceneState) : SceneState :=
  {| _entitiesInScene := _entitiesInScene s; _entityIDsLastInScene := ids |}.

Section Scene.

Variable TREE_SCALE : float.

(** What the handlers read of an entity beyond [Entity]: whether it has a
    renderable interface, [shouldPreloadScript()] at the time of the call,
    and the result of [addToScene] for it. *)
Variable getRenderableInterface : Entity → bool.   (* false: a null pointer *)
Variable shouldPreloadScript : Entity → bool.
Variable addToScene : Entity → bool.

(** [ResourceManager::normalizeURL], [EntityTree::findEntityByID],
    [QHash::keys], and the default arguments that the header gives to
    [checkAndCallPreload]. *)
Variable normalizeURL : string → string.
Variable findEntityByID : EntityTree → EntityItemID → option Entity.
Variable keys : gmap EntityItemID Entity → list EntityItemID.
Variable reload_default : bool.
Variable unloadFirst_default : bool.

Definition checkAndCallPreload (entityID : EntityItemID)
    (reload unloadFirst : bool) (r : EntityTreeRenderer)
  : outcome (list SceneEffect) :=
  match _tree r with
  | Some tree =>
      if negb (_shuttingDown r) then
        match findEntityByEntityItemID tree entityID with
        | None => Returns []
        | Some entity =>
            let shouldLoad :=
              shouldPreloadScript entity && _entitiesScriptEngine r in
            let scriptUrl := getScript entity in
            unloaded ←
              (if (shouldLoad && unloadFirst)
                  || bool_decide (scriptUrl = EmptyString)
               then
                 if _entitiesScriptEngine r then
                   Returns [UnloadEntityScript entityID None;
                            ScriptHasUnloaded entityID]
                 else Undefined NullDereference
               else Returns []);
            let loaded :=
              if shouldLoad then
                [LoadEntityScript entityID (normalizeURL scriptUrl) reload;
                 ScriptHasPreloaded entityID]
              else [] in
            Returns (unloaded ++ loaded)
        end
      else Returns []
  | None => Returns []
  end.

Definition entityScriptChanging (entityID : EntityItemID) (reload : bool)
    (r : EntityTreeRenderer) : outcome (list SceneEffect) :=
  checkAndCallPreload entityID reload true r.

Definition addEntityToScene (vs : ViewState) (entity : Entity)
    (s : SceneState) : SceneState * list SceneEffect :=
  (* here's where we add the entity payload to the scene *)
  if negb (getMain3DScene vs) then
    (s, [SceneWarning "EntityTreeRenderer::addEntityToScene(), Unexpected null scene, possibly during application shutdown"])
  else if negb (getRenderableInterface entity) then
    (s, [SceneWarning "EntityTreeRenderer::addEntityToScene(), Unexpected non-renderable entity"])
  else
    let s :=
      if addToScene entity then
        set_entitiesInScene
          (<[getEntityItemID entity := entity]> (_entitiesInScene s)) s
      else s in
    (s, [AddToScene (getEntityItemID entity); EnqueueTransaction]).

Definition addingEntity (vs : ViewState) (entityID : EntityItemID)
    (r : EntityTreeRenderer) (s : SceneState)
  : outcome (EntityTreeRenderer * SceneState * list SceneEffect) :=
  (* reset our state to force checking our inside/outsideness of entities *)
  let r := forceRecheckEntities TREE_SCALE vs r in
  preloaded ←
    checkAndCallPreload entityID reload_default unloadFirst_default r;
  match _tree r with
  | None => Undefined NullDereference       (* _tree->findEntityByID *)
  | Some tree =>
      match findEntityByID tree entityID with
      | Some entity =>
          let '(s, added) := addEntityToScene vs entity s in
          Returns (r, s, preloaded ++ added)
      | None => Returns (r, s, preloaded)
      end
  end.

Definition deletingEntity (vs : ViewState) (entityID : EntityItemID)
    (r : EntityTreeRenderer) (s : SceneState)
  : EntityTreeRenderer * SceneState * list SceneEffect :=
  match _entitiesInScene s !! entityID with
  | None => (r, s, [])
  | Some entity =>
      let unloaded :=
        if bool_decide (_tree r ≠ None) && negb (_shuttingDown r)
           && _entitiesScriptEngine r
        then [UnloadEntityScript entityID (Some true)] else [] in
      if negb (getMain3DScene vs) then
        (r, s,
         unloaded ++ [SceneWarning "EntityTreeRenderer::deletingEntity(), Unexpected null scene, possibly during application shutdown"])
      else
        (* _entitiesInScene.take(entityID) *)
        let s :=
          set_entitiesInScene (delete entityID (_entitiesInScene s)) s in
        if negb (getRenderableInterface entity) then
          (r, s,
           unloaded ++ [SceneWarning "EntityTreeRenderer::deletingEntity(), trying to remove non-renderable entity"])
        else
          (* reset our state to force checking our inside/outsideness of
             entities; then remove the entity payload from the scene *)
          (forceRecheckEntities TREE_SCALE vs r, s,
           unloaded ++ [RemoveFromScene entityID; EnqueueTransaction])
  end.

(** [for (auto entityID : ids) addingEntity(entityID)]. *)
Fixpoint addingEntity_each (vs : ViewState) (ids : list EntityItemID)
    (r : EntityTreeRenderer) (s : SceneState)
  : outcome (EntityTreeRenderer * SceneState * list SceneEffect) :=
  match ids with
  | [] => Returns (r, s, [])
  | entityID :: rest =>
      '(r, s, first) ← addingEntity vs entityID r s;
      '(r, s, others) ← addingEntity_each vs rest r s;
      Returns (r, s, first ++ others)
  end.

(** [for (auto entityID : ids) deletingEntity(entityID)]. *)
Fixpoint deletingEntity_each (vs : ViewState) (ids : list EntityItemID)
    (r : EntityTreeRenderer) (s : SceneState)
  : EntityTreeRenderer * SceneState * list SceneEffect :=
  match ids with
  | [] => (r, s, [])
  | entityID :: rest =>
      let '(r, s, first) := deletingEntity vs entityID r s in
      let '(r, s, others) := deletingEntity_each vs rest r s in
      (r, s, first ++ others)
  end.

(** [updateEntityRenderStatus]; it does not read its argument but asks the
    scene scripting interface, whose answer is [shouldRenderEntities]. *)
Definition updateEntityRenderStatus (shouldRenderEntities : bool)
    (vs : ViewState) (r : EntityTreeRenderer) (s : SceneState)
  : outcome (EntityTreeRenderer * SceneState * list SceneEffect) :=
  if shouldRenderEntities then
    '(r, s, effects) ← addingEntity_each vs (_entityIDsLastInScene s) r s;
    Returns (r, set_entityIDsLastInScene [] s, effects)
  else
    let s := set_entityIDsLastInScene (keys (_entitiesInScene s)) s in
    Returns (deletingEntity_each vs (_entityIDsLastInScene s) r s).

End Scene.

(** ** [update()] *)

Inductive UpdateEffect (vec2 : Type) :=
| TreeUpdate                                  (* tree->update() *)
| Checked (e : Event)                         (* of checkEnterLeaveEntities *)
| Pointed (signal : PointerSignal vec2)
| DeleteReleasedModels.
Arguments TreeUpdate {vec2}.
Arguments Checked {vec2} e.
Arguments Pointed {vec2} signal.
Arguments DeleteReleasedModels {vec2}.

Section Update.

Variable ZONE_CHECK_DISTANCE : float.
Variable ZONE_CHECK_INTERVAL : Z.
Variable INVALID_ITEM_ID : ItemID.
Variable vec2 : Type.
Variable w : PointerEnvironment vec2.

Definition update (vs : ViewState) (now : Z) (r : EntityTreeRenderer)
    (st : PointerState vec2)
  : outcome (EntityTreeRenderer * list (UpdateEffect vec2)) :=
  match _tree r with
  | Some tree =>
      if negb (_shuttingDown r) then
        (* Handle enter/leave entity logic *)
        '(_, r, events) ←
          checkEnterLeaveEntities ZONE_CHECK_DISTANCE ZONE_CHECK_INTERVAL
            INVALID_ITEM_ID vs now r;
        (* if we started clicking on an entity and we have not yet released
           the hold then this is still considered a holdingClickOnEntity
           event *)
        held ←
          (if _lastPointerEventValid st
              && negb (isInvalidID w (_currentClickingOnEntityID st))
           then
             if _entitiesScriptEngine r then
               Returns
                 [Pointed (HoldingClickOnEntity
                             (_currentClickingOnEntityID st)
                             (_lastPointerEvent st));
                  Pointed (CallPointerScript (_currentClickingOnEntityID st)
                             "holdingClickOnEntity" (_lastPointerEvent st))]
             else Undefined NullDereference
           else Returns []);
        Returns (r, TreeUpdate :: (Checked <$> events) ++ held
                    ++ [DeleteReleasedModels])
      else Returns (r, [DeleteReleasedModels])
  | None => Returns (r, [DeleteReleasedModels])
  end.

End Update.

(** ** Sample data for the scene examples *)

(** Every entity is renderable and accepted by the scene; an entity should
    preload when it has a script; URLs are normal already; the tree finds
    by id what it finds by entity id; the keys of a scene come in the order
    of [map_to_list]. *)
Definition sample_renderable (e : Entity) : bool := true.
Definition sample_addToScene (e : Entity) : bool := true.
Definition sample_should_preload (e : Entity) : bool :=
  negb (bool_decide (getScript e = EmptyString)).
Definition sample_normalizeURL (url : string) : string := url.
Definition sample_keys (m : gmap EntityItemID Entity) : list EntityItemID :=
  (map_to_list m).*1.

(** Entities 2 and 3 are in the scene. *)
Definition scene_two : SceneState :=
  {| _entitiesInScene :=
       <[2%N := scripted 2%N true]> {[3%N := scripted 3%N true]};
     _entityIDsLastInScene := [] |}.

(** * Properties *)

(** ** The order on layers *)

Lemma layer_ltb_spec a b :
  layer_ltb a b = true ↔
  volume a < volume b ∨ (volume a = volume b ∧ (id a < id b)%N).
Proof.
  unfold layer_ltb.
  rewrite orb_true_iff, andb_true_iff, !bool_decide_eq_true. tauto.
Qed.

Lemma layer_lt_irrefl_key a b : iter_to a = iter_to b → ¬ layer_lt a b.
Proof.
  unfold iter_to, layer_lt. intros [= Hv Hi]. rewrite layer_ltb_spec. lia.
Qed.

Lemma layer_lt_trans a b c : layer_lt a b → layer_lt b c → layer_lt a c.
Proof. unfold layer_lt. rewrite !layer_ltb_spec. lia. Qed.

Lemma layer_lt_total a b :
  layer_ltb a b = false → layer_ltb b a = false → iter_to a = iter_to b.
Proof.
  intros Hab Hba. apply not_true_iff_false in Hab, Hba.
  rewrite layer_ltb_spec in Hab, Hba. unfold iter_to.
  assert (volume a = volume b) as -> by lia.
  assert (id a = id b) as -> by lia. done.
Qed.

Lemma ordered_keys_distinct xs :
  StronglySorted layer_lt xs → NoDup (iter_to <$> xs).
Proof.
  induction 1 as [|a xs Hs IH Hall]; simpl; constructor; [|done].
  intros Hin. apply list_elem_of_fmap in Hin as (b & Hkey & Hb).
  rewrite Forall_forall in Hall.
  by apply (layer_lt_irrefl_key a b Hkey), Hall.
Qed.

(** ** [std::set::insert] *)

Lemma set_insert_elem layer xs l :
  l ∈ (set_insert layer xs).1 → l = layer ∨ l ∈ xs.
Proof.
  induction xs as [|a xs IH]; simpl.
  - intros ->%list_elem_of_singleton. by left.
  - destruct (layer_ltb layer a); simpl.
    { intros [->|?]%elem_of_cons; [by left | by right]. }
    destruct (layer_ltb a layer); simpl; [|by right].
    destruct (set_insert layer xs) as [r res]; simpl in *.
    intros [->|Hin]%elem_of_cons; [right; left|].
    destruct (IH Hin); [by left | right; by right].
Qed.

Lemma set_insert_sorted layer xs :
  StronglySorted layer_lt xs → StronglySorted layer_lt (set_insert layer xs).1.
Proof.
  induction 1 as [|a xs Hs IH Hall]; simpl.
  - repeat constructor.
  - destruct (layer_ltb layer a) eqn:Hla; simpl.
    { constructor; [by constructor|]. constructor; [done|].
      eapply Forall_impl; [exact Hall|]. intros b Hb.
      by apply (layer_lt_trans layer a b). }
    destruct (layer_ltb a layer) eqn:Hal; simpl; [|by constructor].
    pose proof (set_insert_elem layer xs) as Helem.
    destruct (set_insert layer xs) as [r res]; simpl in *.
    constructor; [done|]. apply Forall_forall. intros b Hb.
    destruct (Helem b Hb) as [->|Hin]; [done|].
    rewrite Forall_forall in Hall. by apply Hall.
Qed.

Lemma set_insert_present layer xs l :
  StronglySorted layer_lt xs → l ∈ xs → iter_to l = iter_to layer →
  ∃ elt, set_insert layer xs = (xs, (elt, false)) ∧ iter_to elt = iter_to layer.
Proof.
  induction 1 as [|a xs Hs IH Hall]; intros Hin Hkey.
  - by apply elem_of_nil in Hin.
  - rewrite Forall_forall in Hall. simpl.
    destruct (layer_ltb layer a) eqn:Hla.
    { exfalso. apply elem_of_cons in Hin as [->|Hin].
      - by apply (layer_lt_irrefl_key layer a).
      - apply (layer_lt_irrefl_key layer l); [done|].
        apply (layer_lt_trans layer a l); [done | by apply Hall]. }
    destruct (layer_ltb a layer) eqn:Hal.
    + apply elem_of_cons in Hin as [->|Hin].
      { exfalso. by apply (layer_lt_irrefl_key a layer). }
      destruct (IH Hin Hkey) as (elt & -> & Helt). by exists elt.
    + exists a. split; [done|]. by apply layer_lt_total.
Qed.

Lemma insert_ordered layer s :
  ordered s → ordered (LayeredZones.insert layer s).1.
Proof.
  unfold ordered, LayeredZones.insert. intros Hs.
  pose proof (set_insert_sorted layer _ Hs) as Hsorted.
  by destruct (set_insert layer (LayeredZones.layers s)) as [set' [elt ok]].
Qed.

Lemma insert_all_ordered ls s : ordered s → ordered (insert_all ls s).
Proof.
  unfold insert_all. revert s.
  induction ls as [|l ls IH]; intros s Hs; simpl; [done|].
  by apply IH, insert_ordered.
Qed.

(** C5, as amended: on a set kept in order, [insert(layer)] is a silent
    no-op -- [inserted = false], the ordered collection and the id-to-position
    mapping unchanged -- whenever a layer with the same id and the same volume
    is already present; so after any sequence of inserts the set is still in
    strict order and no two of its layers share the same (volume, id) key. *)
Theorem insert_equal_key_is_noop (s : LayeredZones.t) :
  ordered s →
  (∀ layer l, l ∈ LayeredZones.layers s →
     id l = id layer → volume l = volume layer →
     LayeredZones.insert layer s = (s, (iter_to layer, false))) ∧
  (∀ ls, ordered (insert_all ls s) ∧
         NoDup (iter_to <$> LayeredZones.layers (insert_all ls s))).
Proof.
  intros Hs. split.
  - intros layer l Hin Hid Hvol.
    assert (iter_to l = iter_to layer) as Hkey
      by (unfold iter_to; congruence).
    destruct (set_insert_present layer _ l Hs Hin Hkey) as (elt & Hins & Helt).
    unfold LayeredZones.insert. rewrite Hins, Helt. by destruct s.
  - intros ls. pose proof (insert_all_ordered ls s Hs) as Hord.
    split; [done | by apply ordered_keys_distinct].
Qed.

Lemma insert_equal_key_is_noop_witness :
  LayeredZones.insert (LayeredZone_of zone_a) (sample_set 0 [zone_a])
  = (sample_set 0 [zone_a], (iter_to (LayeredZone_of zone_a), false)).
Proof.
  assert (ordered (sample_set 0 [zone_a])) as Hs
    by (unfold ordered; vm_compute; repeat constructor).
  apply (proj1 (insert_equal_key_is_noop _ Hs) _ (LayeredZone_of zone_a));
    [vm_compute; apply list_elem_of_here | reflexivity | reflexivity].
Defined.

(** C5, as stated, fails: a layer whose id is present with another volume
    is inserted, and the set then holds two layers with that id. *)
Lemma insert_same_id_other_volume_inserted :
  (∃ l, l ∈ LayeredZones.layers (sample_set 0 [zone_a])
        ∧ id l = id (LayeredZone_of zone_a_shrunk))
  ∧ (LayeredZones.insert (LayeredZone_of zone_a_shrunk)
                         (sample_set 0 [zone_a])).2.2 = true
  ∧ id <$> LayeredZones.layers
             (LayeredZones.insert (LayeredZone_of zone_a_shrunk)
                                  (sample_set 0 [zone_a])).1
    = [1%N; 1%N].
Proof.
  split; [|split; reflexivity].
  exists (LayeredZone_of zone_a). split; [apply list_elem_of_here | reflexivity].
Qed.

(** ** Move construction *)

(** C4: move-constructing [B] from [A] keeps the layers and the place of
    the skybox marker: a marker on the [k]-th layer of [A] is on the [k]-th
    layer of [B], a marker at [A.end()] becomes [B.end()], and in both cases
    the marker is as many steps after [begin()] as it was. *)
Theorem move_preserves_skyboxLayer (self : nat) (A : LayeredZones.t) :
  LayeredZones.layers (LayeredZones.move self A).1 = LayeredZones.layers A
  ∧ (∀ k, designates A (LayeredZones._skyboxLayer A) k →
          designates (LayeredZones.move self A).1
            (LayeredZones._skyboxLayer (LayeredZones.move self A).1) k)
  ∧ (LayeredZones._skyboxLayer A = LayeredZones.end_ A →
     LayeredZones._skyboxLayer (LayeredZones.move self A).1
     = LayeredZones.end_ (LayeredZones.move self A).1)
  ∧ (∀ k, LayeredZones.offset A (LayeredZones._skyboxLayer A) = Some k →
          LayeredZones.offset (LayeredZones.move self A).1
            (LayeredZones._skyboxLayer (LayeredZones.move self A).1)
          = Some k).
Proof.
  unfold LayeredZones.move, designates, LayeredZones.end_. simpl.
  split; [done|]. split; [|split].
  - intros k (l & Hl & Hit). exists l. split; [done|].
    rewrite bool_decide_eq_true_2; [done|]. by rewrite Hit.
  - intros ->. by rewrite bool_decide_eq_false_2 by (intros H; by apply H).
  - intros k. destruct (LayeredZones._skyboxLayer A) as [v i|o] eqn:Hsky.
    + by rewrite bool_decide_eq_true_2.
    + unfold LayeredZones.offset at 1. case_decide as Ho; [|done].
      subst o. rewrite bool_decide_eq_false_2 by (intros H; by apply H).
      simpl. by rewrite decide_True.
Qed.

(** ** [contains] *)

Lemma layer_eqb_refl l : layer_eqb l l = true.
Proof. unfold layer_eqb. by rewrite !bool_decide_eq_true_2. Qed.

(** Whenever the other set continues the layers of this one and its
    marker is its end, the comparison reads through this set's [end()]. *)
Lemma std_equal_longer_undefined owner xs x extra :
  std_equal (past_the_end owner) owner (xs ++ x :: extra) xs
  = Undefined ReadPastTheEnd.
Proof.
  induction xs as [|a xs IH]; simpl; [done|].
  by rewrite layer_eqb_refl.
Qed.

(** C9 fails on the code: with [A = {a}] and [B = {a, b}] whose marker is
    [B.end()], [A.contains(B)] compares [a] with [a] and then dereferences
    [A.end()]. *)
Theorem contains_reads_past_the_end :
  LayeredZones.contains (sample_set 1 [zone_a; zone_b]) (sample_set 0 [zone_a])
  = Undefined ReadPastTheEnd.
Proof. reflexivity. Qed.

(** ** The renderer *)

Section RendererProperties.

Variable ZONE_CHECK_DISTANCE : float.
Variable ZONE_CHECK_INTERVAL : Z.
Variable TREE_SCALE : float.
Variable INVALID_ITEM_ID : ItemID.

Lemma scan_entity_ids p acc e :
  (scan_entity INVALID_ITEM_ID p acc e).1
  = acc.1 ++ (if interesting_container p e then [getEntityItemID e] else []).
Proof.
  destruct acc as [ids lz]. unfold scan_entity, interesting_container. simpl.
  destruct (bool_decide (getType e = Zone) || _); simpl;
    [|by rewrite app_nil_r].
  destruct (contains e p); simpl; [|by rewrite app_nil_r].
  by repeat case_match.
Qed.

Lemma scan_ids p found acc :
  (foldl (scan_entity INVALID_ITEM_ID p) acc found).1
  = acc.1 ++ (getEntityItemID
                <$> filter (λ e, interesting_container p e = true) found).
Proof.
  revert acc. induction found as [|e found IH]; intros acc; simpl.
  - by rewrite app_nil_r.
  - rewrite IH, scan_entity_ids.
    destruct (interesting_container p e) eqn:He.
    + rewrite filter_cons_True by done. by rewrite <- app_assoc.
    + rewrite filter_cons_False by (by rewrite He). by rewrite app_nil_r.
Qed.

Lemma rescan_ids tree r :
  (rescan INVALID_ITEM_ID tree r).2.1 = containing_ids tree (_avatarPosition r).
Proof. unfold rescan, containing_ids. simpl. by rewrite scan_ids. Qed.

Lemma rescan_old tree r :
  LayeredZones.layers (rescan INVALID_ITEM_ID tree r).1
  = LayeredZones.layers (_layeredZones r).
Proof. done. Qed.


Lemma applyLayeredZones_events vs r :
  Forall (λ e, zone_event e = true) (applyLayeredZones vs r).2.
Proof.
  unfold applyLayeredZones. destruct (getMain3DScene vs); simpl;
    by repeat constructor.
Qed.

Lemma findBest_returns vs tree r didUpdate ids r' events :
  findBestZoneAndMaybeContainingEntities INVALID_ITEM_ID vs tree r
  = Returns (didUpdate, ids, r', events) →
  ids = containing_ids tree (_avatarPosition r)
  ∧ (∃ lz, r' = set_layeredZones lz r)
  ∧ Forall (λ e, zone_event e = true) events
  ∧ FindEntities (_avatarPosition r) ∈ events.
Proof.
  unfold findBestZoneAndMaybeContainingEntities.
  pose proof (rescan_ids tree r) as Hids.
  destruct (rescan INVALID_ITEM_ID tree r) as [old [ids0 lz]]. simpl in Hids.
  assert (∀ lz0,
    ids0 = containing_ids tree (_avatarPosition r)
    ∧ (∃ lz1, set_layeredZones lz0 r = set_layeredZones lz1 r)
    ∧ Forall (λ e, zone_event e = true) [FindEntities (_avatarPosition r)]
    ∧ FindEntities (_avatarPosition r) ∈ [FindEntities (_avatarPosition r)])
    as Hsame.
  { intros lz0. repeat split; [done | by exists lz0 | by repeat constructor
                               | apply list_elem_of_here]. }
  assert (∀ lz0,
    ids0 = containing_ids tree (_avatarPosition r)
    ∧ (∃ lz1, set_layeredZones (LayeredZones.apply lz0) r = set_layeredZones lz1 r)
    ∧ Forall (λ e, zone_event e = true)
        ([FindEntities (_avatarPosition r); LayeredZonesApply]
         ++ (applyLayeredZones vs (set_layeredZones (LayeredZones.apply lz0) r)).2)
    ∧ FindEntities (_avatarPosition r)
      ∈ [FindEntities (_avatarPosition r); LayeredZonesApply]
         ++ (applyLayeredZones vs (set_layeredZones (LayeredZones.apply lz0) r)).2)
    as Hchanged.
  { intros lz0. repeat split; [done | by eexists | | apply list_elem_of_here].
    simpl. repeat constructor. apply applyLayeredZones_events. }
  destruct (LayeredZones.empty lz), (LayeredZones.empty old); simpl;
    try (intros [= <- <- <- <-]; by auto).
  destruct (LayeredZones.contains old lz) as [[[] lz']|]; simpl;
    [| |done]; intros [= <- <- <- <-]; by auto.
Qed.


Lemma contains_true_keeps_layers other s s' :
  LayeredZones.contains other s = Returns (true, s') →
  LayeredZones.layers s' = LayeredZones.layers s
  ∧ LayeredZones._map s' = LayeredZones._map s.
Proof.
  unfold LayeredZones.contains.
  destruct (std_equal _ _ _ _) as [[]|]; simpl; [|done|done].
  destruct (std_distance _ _ _) as [n|]; simpl; [|done].
  destruct (std_next _ _ _) as [it|]; simpl; [|done].
  by intros [= <-].
Qed.

(** C1, as amended: when the rebuilt set is layer-equivalent to the
    previous cycle's set -- both empty, or both non-empty and
    [contains(old)] true -- the call returns [didUpdate = false] and its
    only event is the tree query, so neither [apply()] nor the
    render-selection publisher runs; the set stored afterwards is the
    rebuilt one, with the marker [contains] left on it. *)
Theorem findBest_equivalent_keeps_rebuilt_set vs tree r new' :
  (LayeredZones.empty (rescan INVALID_ITEM_ID tree r).2.2 = true
   ∧ LayeredZones.empty (rescan INVALID_ITEM_ID tree r).1 = true
   ∧ new' = (rescan INVALID_ITEM_ID tree r).2.2)
  ∨ (LayeredZones.empty (rescan INVALID_ITEM_ID tree r).2.2 = false
     ∧ LayeredZones.empty (rescan INVALID_ITEM_ID tree r).1 = false
     ∧ LayeredZones.contains (rescan INVALID_ITEM_ID tree r).1
                             (rescan INVALID_ITEM_ID tree r).2.2
       = Returns (true, new')) →
  findBestZoneAndMaybeContainingEntities INVALID_ITEM_ID vs tree r
  = Returns (false, containing_ids tree (_avatarPosition r),
             set_layeredZones new' r, [FindEntities (_avatarPosition r)])
  ∧ LayeredZones.layers new'
    = LayeredZones.layers (rescan INVALID_ITEM_ID tree r).2.2.
Proof.
  unfold findBestZoneAndMaybeContainingEntities.
  pose proof (rescan_ids tree r) as Hids.
  destruct (rescan INVALID_ITEM_ID tree r) as [old [ids lz]].
  simpl in *. subst ids.
  intros [(-> & -> & ->)|(-> & -> & Hcontains)]; simpl; [done|].
  rewrite Hcontains. simpl. split; [done|].
  by apply (contains_true_keeps_layers old lz).
Qed.

(** C6: with the old and the rebuilt set both empty the call reports no
    update; with exactly one of them empty it reports [didUpdate = true],
    stores the rebuilt set, calls [apply()] and then the publisher, which
    enqueues the selection of the rebuilt set when there is a scene. *)
Theorem findBest_one_empty_is_a_change vs tree r :
  (LayeredZones.empty (rescan INVALID_ITEM_ID tree r).2.2 = true →
   LayeredZones.empty (_layeredZones r) = true →
   findBestZoneAndMaybeContainingEntities INVALID_ITEM_ID vs tree r
   = Returns (false, containing_ids tree (_avatarPosition r),
              set_layeredZones (rescan INVALID_ITEM_ID tree r).2.2 r,
              [FindEntities (_avatarPosition r)]))
  ∧ (LayeredZones.empty (rescan INVALID_ITEM_ID tree r).2.2
     ≠ LayeredZones.empty (_layeredZones r) →
     findBestZoneAndMaybeContainingEntities INVALID_ITEM_ID vs tree r
     = Returns (true, containing_ids tree (_avatarPosition r),
                set_layeredZones (rescan INVALID_ITEM_ID tree r).2.2 r,
                [FindEntities (_avatarPosition r); LayeredZonesApply]
                ++ (applyLayeredZones vs
                      (set_layeredZones (rescan INVALID_ITEM_ID tree r).2.2 r)).2)
     ∧ (getMain3DScene vs = true →
        (applyLayeredZones vs
           (set_layeredZones (rescan INVALID_ITEM_ID tree r).2.2 r)).2
        = [EnqueueSelection "RankedZones"
             ((λ l, getRenderItemID (zone l))
                <$> LayeredZones.layers (rescan INVALID_ITEM_ID tree r).2.2)])).
Proof.
  unfold findBestZoneAndMaybeContainingEntities.
  pose proof (rescan_ids tree r) as Hids.
  assert (LayeredZones.empty (rescan INVALID_ITEM_ID tree r).1
          = LayeredZones.empty (_layeredZones r)) as Hold by done.
  destruct (rescan INVALID_ITEM_ID tree r) as [old [ids lz]].
  simpl in *. subst ids. rewrite <- Hold. split.
  - by intros -> ->.
  - intros Hne. split.
    + destruct (LayeredZones.empty lz), (LayeredZones.empty old); done.
    + intros Hscene. unfold applyLayeredZones. by rewrite Hscene.
Qed.


Lemma zone_event_not_leave e : zone_event e = true → leave_event e = false.
Proof. by destruct e. Qed.

Lemma zone_event_not_enter e : zone_event e = true → enter_event e = false.
Proof. by destruct e. Qed.

Lemma leave_event_not_enter e : leave_event e = true → enter_event e = false.
Proof.
  destruct e; simpl; try done.
  intros ->%bool_decide_eq_true. by apply bool_decide_eq_false.
Qed.

Lemma fire_leave_events engine i :
  Forall (λ e, leave_event e = true) (fire_leave engine i).
Proof. unfold fire_leave. destruct engine; by repeat constructor. Qed.

Lemma fire_enter_events engine i :
  Forall (λ e, enter_event e = true) (fire_enter engine i).
Proof. unfold fire_enter. destruct engine; by repeat constructor. Qed.

Lemma leaves_are_leave_events engine (P N : list EntityItemID) :
  Forall (λ e, leave_event e = true)
    (P ≫= (λ i, if bool_decide (i ∈ N) then [] else fire_leave engine i)).
Proof.
  apply Forall_forall. intros e (i & He & _)%list_elem_of_bind.
  destruct (bool_decide (i ∈ N)); [by apply elem_of_nil in He|].
  by apply (proj1 (Forall_forall _ _) (fire_leave_events engine i)).
Qed.

Lemma enters_are_enter_events engine (P N : list EntityItemID) :
  Forall (λ e, enter_event e = true)
    (N ≫= (λ i, if bool_decide (i ∈ P) then [] else fire_enter engine i)).
Proof.
  apply Forall_forall. intros e (i & He & _)%list_elem_of_bind.
  destruct (bool_decide (i ∈ P)); [by apply elem_of_nil in He|].
  by apply (proj1 (Forall_forall _ _) (fire_enter_events engine i)).
Qed.

Lemma emit_leave_in_leaves engine (P N : list EntityItemID) i :
  EmitLeaveEntity i
    ∈ (P ≫= (λ j, if bool_decide (j ∈ N) then [] else fire_leave engine j))
  ↔ i ∈ P ∧ i ∉ N.
Proof.
  rewrite list_elem_of_bind. split.
  - intros (j & He & Hj). case_bool_decide; [by apply elem_of_nil in He|].
    unfold fire_leave in He. apply elem_of_cons in He as [[= ->]|He]; [done|].
    destruct engine; [|by apply elem_of_nil in He].
    by apply list_elem_of_singleton in He.
  - intros [HP HN]. exists i. split; [|done].
    rewrite bool_decide_eq_false_2 by done. apply list_elem_of_here.
Qed.

Lemma emit_enter_in_enters engine (P N : list EntityItemID) i :
  EmitEnterEntity i
    ∈ (N ≫= (λ j, if bool_decide (j ∈ P) then [] else fire_enter engine j))
  ↔ i ∈ N ∧ i ∉ P.
Proof.
  rewrite list_elem_of_bind. split.
  - intros (j & He & Hj). case_bool_decide; [by apply elem_of_nil in He|].
    unfold fire_enter in He. apply elem_of_cons in He as [[= ->]|He]; [done|].
    destruct engine; [|by apply elem_of_nil in He].
    by apply list_elem_of_singleton in He.
  - intros [HN HP]. exists i. split; [|done].
    rewrite bool_decide_eq_false_2 by done. apply list_elem_of_here.
Qed.

(** In a trace made of zone events, then leave events, then enter events,
    every leave event comes before every enter event. *)
Lemma leaves_before_enters (zs ls es : list Event) i j e1 e2 :
  Forall (λ e, zone_event e = true) zs →
  Forall (λ e, leave_event e = true) ls →
  Forall (λ e, enter_event e = true) es →
  (zs ++ ls ++ es) !! i = Some e1 → enter_event e1 = true →
  (zs ++ ls ++ es) !! j = Some e2 → leave_event e2 = true →
  (j < i)%nat.
Proof.
  rewrite !Forall_forall. intros Hzs Hls Hes Hi He1 Hj He2.
  assert (length zs + length ls ≤ i)%nat as Hlow.
  { apply lookup_app_Some in Hi as [Hi|[Hlen Hi]].
    { apply list_elem_of_lookup_2, Hzs, zone_event_not_enter in Hi. congruence. }
    apply lookup_app_Some in Hi as [Hi|[Hlen' Hi]]; [|lia].
    apply list_elem_of_lookup_2, Hls, leave_event_not_enter in Hi. congruence. }
  assert (j < length zs + length ls)%nat as Hhigh; [|lia].
  apply lookup_app_Some in Hj as [Hj|[Hlen Hj]].
  { apply lookup_lt_Some in Hj. lia. }
  apply lookup_app_Some in Hj as [Hj|[Hlen' Hj]].
  { apply lookup_lt_Some in Hj. lia. }
  apply list_elem_of_lookup_2, Hes in Hj.
  apply leave_event_not_enter in He2. congruence.
Qed.


Lemma recheck_returns vs now tree r didUpdate r' events :
  recheck INVALID_ITEM_ID vs now tree r = Returns (didUpdate, r', events) →
  ∃ lz zone_events,
    Forall (λ e, zone_event e = true) zone_events
    ∧ FindEntities (getAvatarPosition vs) ∈ zone_events
    ∧ r' = set_currentEntitiesInside
             (containing_ids tree (getAvatarPosition vs))
             (set_layeredZones lz
                (set_lastZoneCheck now
                   (set_avatarPosition (getAvatarPosition vs) r)))
    ∧ events
      = zone_events
        ++ (_currentEntitiesInside r ≫= (λ i,
              if bool_decide (i ∈ containing_ids tree (getAvatarPosition vs))
              then [] else fire_leave (_entitiesScriptEngine r) i))
        ++ (containing_ids tree (getAvatarPosition vs) ≫= (λ i,
              if bool_decide (i ∈ _currentEntitiesInside r)
              then [] else fire_enter (_entitiesScriptEngine r) i)).
Proof.
  unfold recheck.
  destruct (findBestZoneAndMaybeContainingEntities _ _ _ _)
    as [[[[d ids] r1] zevs]|] eqn:Hfind; simpl; [|done].
  apply findBest_returns in Hfind as (-> & [lz ->] & Hzone & Hquery).
  simpl in *. intros [= <- <- <-]. by exists lz, zevs.
Qed.

(** C3: a recheck that returns stores the new containment set [N]; with
    [P] the previous one, a leave is emitted exactly for the ids of [P]
    not in [N], an enter exactly for the ids of [N] not in [P] (so an id in
    both fires neither), and every leave event precedes every enter event. *)
Theorem checkEnterLeave_fires_the_difference vs now r tree didUpdate r' events :
  _tree r = Some tree → _shuttingDown r = false →
  recheck_due ZONE_CHECK_DISTANCE ZONE_CHECK_INTERVAL vs now r = true →
  checkEnterLeaveEntities ZONE_CHECK_DISTANCE ZONE_CHECK_INTERVAL
    INVALID_ITEM_ID vs now r = Returns (didUpdate, r', events) →
  _currentEntitiesInside r' = containing_ids tree (getAvatarPosition vs)
  ∧ (∀ i, EmitLeaveEntity i ∈ events
          ↔ i ∈ _currentEntitiesInside r ∧ i ∉ _currentEntitiesInside r')
  ∧ (∀ i, EmitEnterEntity i ∈ events
          ↔ i ∈ _currentEntitiesInside r' ∧ i ∉ _currentEntitiesInside r)
  ∧ (∀ i j e1 e2,
       events !! i = Some e1 → enter_event e1 = true →
       events !! j = Some e2 → leave_event e2 = true → (j < i)%nat)
  ∧ (∃ zone_events,
       Forall (λ e, zone_event e = true) zone_events
       ∧ events
         = zone_events
           ++ (_currentEntitiesInside r ≫= (λ i,
                 if bool_decide (i ∈ _currentEntitiesInside r') then []
                 else fire_leave (_entitiesScriptEngine r) i))
           ++ (_currentEntitiesInside r' ≫= (λ i,
                 if bool_decide (i ∈ _currentEntitiesInside r) then []
                 else fire_enter (_entitiesScriptEngine r) i))).
Proof.
  intros Htree Hshut Hdue. unfold checkEnterLeaveEntities.
  rewrite Htree, Hshut, Hdue. simpl. intros Hrun.
  apply recheck_returns in Hrun as (lz & zevs & Hzone & _ & -> & ->). simpl.
  set (P := _currentEntitiesInside r).
  set (N := containing_ids tree (getAvatarPosition vs)).
  set (engine := _entitiesScriptEngine r).
  pose proof (leaves_are_leave_events engine P N) as Hleaves.
  pose proof (enters_are_enter_events engine P N) as Henters.
  split; [done|]. split; [|split; [|split]].
  - intros i. rewrite !elem_of_app, emit_leave_in_leaves. split; [|tauto].
    rewrite Forall_forall in Hzone, Henters.
    intros [Hin|[Hin|Hin]]; [|done|].
    + by apply Hzone in Hin.
    + by apply Henters in Hin.
  - intros i. rewrite !elem_of_app, emit_enter_in_enters. split; [|tauto].
    rewrite Forall_forall in Hzone, Hleaves.
    intros [Hin|[Hin|Hin]]; [| |done].
    + by apply Hzone in Hin.
    + by apply Hleaves in Hin.
  - intros i j e1 e2. by apply leaves_before_enters.
  - by exists zevs.
Qed.


Lemma forced_recheck_is_due vs vs' now r :
  distance_gt (getAvatarPosition vs')
    (vec3_add (getAvatarPosition vs) (vec3_splat TREE_SCALE))
    ZONE_CHECK_DISTANCE = true →
  recheck_due ZONE_CHECK_DISTANCE ZONE_CHECK_INTERVAL vs' now
    (forceRecheckEntities TREE_SCALE vs r) = true.
Proof.
  intros Hfar. unfold recheck_due, forceRecheckEntities. simpl.
  by rewrite Hfar.
Qed.

Lemma recheck_fires_the_difference vs now tree r didUpdate r' events :
  recheck INVALID_ITEM_ID vs now tree r = Returns (didUpdate, r', events) →
  FindEntities (getAvatarPosition vs) ∈ events
  ∧ _currentEntitiesInside r' = containing_ids tree (getAvatarPosition vs)
  ∧ (∀ i, EmitLeaveEntity i ∈ events
          ↔ i ∈ _currentEntitiesInside r
            ∧ i ∉ containing_ids tree (getAvatarPosition vs))
  ∧ (∀ i, EmitEnterEntity i ∈ events
          ↔ i ∈ containing_ids tree (getAvatarPosition vs)
            ∧ i ∉ _currentEntitiesInside r)
  ∧ _avatarPosition r' = getAvatarPosition vs
  ∧ _lastZoneCheck r' = now.
Proof.
  intros Hrun.
  apply recheck_returns in Hrun as (lz & zevs & Hzone & Hquery & -> & ->).
  simpl.
  set (P := _currentEntitiesInside r).
  set (N := containing_ids tree (getAvatarPosition vs)).
  set (engine := _entitiesScriptEngine r).
  pose proof (leaves_are_leave_events engine P N) as Hleaves.
  pose proof (enters_are_enter_events engine P N) as Henters.
  rewrite Forall_forall in Hzone, Hleaves, Henters.
  split_and!; try done.
  - apply elem_of_app. by left.
  - intros i. rewrite !elem_of_app, emit_leave_in_leaves. split; [|tauto].
    intros [Hin|[Hin|Hin]]; [|done|].
    + by apply Hzone in Hin.
    + by apply Henters in Hin.
  - intros i. rewrite !elem_of_app, emit_enter_in_enters. split; [|tauto].
    intros [Hin|[Hin|Hin]]; [| |done].
    + by apply Hzone in Hin.
    + by apply Hleaves in Hin.
Qed.




Lemma skipped_check_is_noop vs now r :
  performs_recheck ZONE_CHECK_DISTANCE ZONE_CHECK_INTERVAL vs now r = false →
  checkEnterLeaveEntities ZONE_CHECK_DISTANCE ZONE_CHECK_INTERVAL
    INVALID_ITEM_ID vs now r = Returns (false, r, []).
Proof.
  unfold performs_recheck, checkEnterLeaveEntities.
  destruct (_tree r) as [tree|]; [|done].
  rewrite bool_decide_eq_true_2 by done.
  destruct (_shuttingDown r); [done|]. simpl. by intros ->.
Qed.

Lemma recheck_not_due_after_recheck vs1 now1 vs2 now2 tree r didUpdate r1 events :
  recheck INVALID_ITEM_ID vs1 now1 tree r = Returns (didUpdate, r1, events) →
  distance_gt (getAvatarPosition vs2) (getAvatarPosition vs1)
    ZONE_CHECK_DISTANCE = false →
  quint64_sub now2 now1 ≤ ZONE_CHECK_INTERVAL →
  recheck_due ZONE_CHECK_DISTANCE ZONE_CHECK_INTERVAL vs2 now2 r1 = false.
Proof.
  intros Hrun Hnear Hsoon.
  apply recheck_returns in Hrun as (lz & zevs & _ & _ & -> & _).
  unfold recheck_due. simpl. rewrite Hnear. simpl.
  apply bool_decide_eq_false_2. lia.
Qed.

(** C8, as amended: of two successive calls, the second made from a
    viewpoint whose distance to the first does not exceed the threshold in
    [float] arithmetic, and at a timestamp whose unsigned 64-bit difference
    to the first does not exceed the time threshold, at most one performs a
    recheck; when the first one did, the second returns [false], emits no
    event (no tree query either) and leaves the renderer as it was. *)
Theorem second_check_after_recheck_is_noop
    vs1 now1 vs2 now2 r didUpdate r1 events :
  checkEnterLeaveEntities ZONE_CHECK_DISTANCE ZONE_CHECK_INTERVAL
    INVALID_ITEM_ID vs1 now1 r = Returns (didUpdate, r1, events) →
  distance_gt (getAvatarPosition vs2) (getAvatarPosition vs1)
    ZONE_CHECK_DISTANCE = false →
  quint64_sub now2 now1 ≤ ZONE_CHECK_INTERVAL →
  (performs_recheck ZONE_CHECK_DISTANCE ZONE_CHECK_INTERVAL vs1 now1 r = true →
   checkEnterLeaveEntities ZONE_CHECK_DISTANCE ZONE_CHECK_INTERVAL
     INVALID_ITEM_ID vs2 now2 r1 = Returns (false, r1, []))
  ∧ (performs_recheck ZONE_CHECK_DISTANCE ZONE_CHECK_INTERVAL vs1 now1 r
     && performs_recheck ZONE_CHECK_DISTANCE ZONE_CHECK_INTERVAL vs2 now2 r1
     = false).
Proof.
  intros Hrun Hnear Hsoon.
  assert (performs_recheck ZONE_CHECK_DISTANCE ZONE_CHECK_INTERVAL vs1 now1 r
          = true →
          performs_recheck ZONE_CHECK_DISTANCE ZONE_CHECK_INTERVAL vs2 now2 r1
          = false) as Hskip.
  { intros Hfirst. unfold performs_recheck in Hfirst |- *.
    unfold checkEnterLeaveEntities in Hrun.
    destruct (_tree r) as [tree|]; [|done].
    destruct (_shuttingDown r); [done|].
    rewrite bool_decide_eq_true_2 in Hfirst by done. simpl in Hfirst, Hrun.
    rewrite Hfirst in Hrun.
    rewrite (recheck_not_due_after_recheck _ _ _ _ _ _ _ _ _ Hrun Hnear Hsoon).
    apply andb_false_r. }
  split.
  - intros Hfirst. by apply skipped_check_is_noop, Hskip.
  - destruct (performs_recheck _ _ vs1 now1 r); [by rewrite Hskip | done].
Qed.


(** C2, as amended: with a live tree and not shutting down,
    [leaveAllEntities()] emits a leave (and the script call when an engine
    is attached) for every tracked id, empties the tracked set and stores
    as last-checked position the viewpoint offset by [TREE_SCALE] on each
    axis; a later check from a viewpoint whose distance to that stored
    position exceeds the threshold in [float] arithmetic goes through the
    recheck whatever the time, and when it returns it has queried the tree
    there and tracks the entities holding that viewpoint.  With a null tree
    or the shutdown flag set [leaveAllEntities()] does nothing, and so
    [shutdown()], which raises the flag before [clear()], emits no leave
    and keeps the tracked set. *)
Theorem leaveAllEntities_when_live vs r :
  (_tree r ≠ None → _shuttingDown r = false →
   leaveAllEntities TREE_SCALE vs r
   = (forceRecheckEntities TREE_SCALE vs (set_currentEntitiesInside [] r),
      _currentEntitiesInside r ≫= fire_leave (_entitiesScriptEngine r))
   ∧ (∀ i, i ∈ _currentEntitiesInside r →
           EmitLeaveEntity i ∈ (leaveAllEntities TREE_SCALE vs r).2
           ∧ (_entitiesScriptEngine r = true →
              CallEntityScriptMethod i "leaveEntity"
                ∈ (leaveAllEntities TREE_SCALE vs r).2))
   ∧ _currentEntitiesInside (leaveAllEntities TREE_SCALE vs r).1 = []
   ∧ _avatarPosition (leaveAllEntities TREE_SCALE vs r).1
     = vec3_add (getAvatarPosition vs) (vec3_splat TREE_SCALE)
   ∧ (∀ vs' now,
        distance_gt (getAvatarPosition vs')
          (vec3_add (getAvatarPosition vs) (vec3_splat TREE_SCALE))
          ZONE_CHECK_DISTANCE = true →
        performs_recheck ZONE_CHECK_DISTANCE ZONE_CHECK_INTERVAL vs' now
          (leaveAllEntities TREE_SCALE vs r).1 = true
        ∧ ∀ tree didUpdate r' events,
            _tree r = Some tree →
            checkEnterLeaveEntities ZONE_CHECK_DISTANCE ZONE_CHECK_INTERVAL
              INVALID_ITEM_ID vs' now (leaveAllEntities TREE_SCALE vs r).1
            = Returns (didUpdate, r', events) →
            FindEntities (getAvatarPosition vs') ∈ events
            ∧ _currentEntitiesInside r'
              = containing_ids tree (getAvatarPosition vs')))
  ∧ (_tree r = None ∨ _shuttingDown r = true →
     leaveAllEntities TREE_SCALE vs r = (r, []))
  ∧ (∀ i, EmitLeaveEntity i ∉ (shutdown TREE_SCALE vs r).2)
  ∧ _currentEntitiesInside (shutdown TREE_SCALE vs r).1
    = _currentEntitiesInside r.
Proof.
  split; [|split; [|split]].
  - intros Htree Hshut. unfold leaveAllEntities.
    rewrite bool_decide_eq_true_2, Hshut by done. simpl.
    split; [done|]. split; [|split; [done|split; [done|]]].
    + intros i Hi. split.
      * apply list_elem_of_bind. exists i. split; [apply list_elem_of_here|done].
      * intros ->. apply list_elem_of_bind. exists i. split; [|done].
        unfold fire_leave. apply list_elem_of_further, list_elem_of_here.
    + intros vs' now Hfar.
      pose proof (forced_recheck_is_due vs vs' now
                    (set_currentEntitiesInside [] r) Hfar) as Hdue.
      split.
      * unfold performs_recheck. rewrite Hdue. simpl. rewrite Hshut.
        by rewrite bool_decide_eq_true_2.
      * intros tree didUpdate r' events Htree'.
        unfold checkEnterLeaveEntities. rewrite Hdue. simpl.
        rewrite Htree', Hshut. simpl.
        intros (? & ? & _)%recheck_fires_the_difference. done.
  - unfold leaveAllEntities. intros [->| ->]; [done|].
    by rewrite andb_false_r.
  - intros i. unfold shutdown, clear, leaveAllEntities. simpl.
    rewrite andb_false_r. simpl.
    destruct (_entitiesScriptEngine r), (getMain3DScene vs); simpl;
      rewrite andb_false_r; simpl;
      by repeat (apply not_elem_of_cons; split; [done|]); apply not_elem_of_nil.
  - unfold shutdown, clear, leaveAllEntities. simpl.
    rewrite andb_false_r. simpl. by rewrite andb_false_r.
Qed.

(** C10, as amended: unless the id resolves to a zone whose volume holds
    the cached avatar position, [updateZone(id)] returns with the renderer
    -- and so the set of layers -- unchanged, whatever the visibility of
    the entity; it never returns a changed renderer in that case. *)
Theorem updateZone_frame i r :
  (∀ zone, resolves_to_zone r i zone → contains zone (_avatarPosition r) = false) →
  (∀ tree, _tree r = Some tree → updateZone i r = Returns r)
  ∧ (∀ r', updateZone i r = Returns r' → r' = r).
Proof.
  intros Hout.
  assert (∀ tree, _tree r = Some tree → updateZone i r = Returns r) as Hlive.
  { intros tree Htree. unfold updateZone. rewrite Htree.
    destruct (as_zone (findEntityByEntityItemID tree i)) as [zone|] eqn:Hzone;
      [|done].
    rewrite (Hout zone); [done|]. by exists tree. }
  split; [done|]. intros r' Hrun.
  destruct (_tree r) as [tree|] eqn:Htree.
  - rewrite (Hlive tree eq_refl) in Hrun. by injection Hrun.
  - unfold updateZone in Hrun. by rewrite Htree in Hrun.
Qed.

End RendererProperties.

(** ** Examples and counterexamples on the renderer *)

(** C1, as stated, fails: the previous set is [{zone_a}], the rebuilt one
    [{zone_a, zone_b}]; [contains] is true, nothing is applied, and the
    stored set is the rebuilt one, not the previous one. *)
Lemma findBest_equivalent_replaces_stored_set :
  (∃ new',
     LayeredZones.contains (rescan an_invalid_item both_zones grown_cycle).1
       (rescan an_invalid_item both_zones grown_cycle).2.2
     = Returns (true, new'))
  ∧ ∃ r',
      findBestZoneAndMaybeContainingEntities an_invalid_item
        (sample_view origin) both_zones grown_cycle
      = Returns (false, [1%N; 2%N], r', [FindEntities origin])
      ∧ id <$> LayeredZones.layers (_layeredZones grown_cycle) = [1%N]
      ∧ id <$> LayeredZones.layers (_layeredZones r') = [1%N; 2%N].
Proof.
  split; [eexists; reflexivity|].
  eexists. split; [reflexivity|]. split; reflexivity.
Qed.

Lemma findBest_equivalent_keeps_rebuilt_set_witness :
  ∃ new',
    findBestZoneAndMaybeContainingEntities an_invalid_item
      (sample_view origin) both_zones grown_cycle
    = Returns (false, containing_ids both_zones origin,
               set_layeredZones new' grown_cycle, [FindEntities origin])
    ∧ LayeredZones.layers new'
      = LayeredZones.layers (rescan an_invalid_item both_zones grown_cycle).2.2.
Proof.
  eexists.
  apply (findBest_equivalent_keeps_rebuilt_set an_invalid_item
           (sample_view origin) both_zones grown_cycle).
  right. split; [reflexivity|]. split; reflexivity.
Defined.

(** C2, as stated, fails: [shutdown()] with entity 1 tracked emits no
    leave and leaves it tracked. *)
Lemma shutdown_fires_no_leave :
  _currentEntitiesInside inside_one = [1%N]
  ∧ shutdown a_tree_scale (sample_view origin) inside_one
    = (set_shuttingDown true inside_one,
       [DisconnectNonEssentialSignals; UnloadAllEntityScripts;
        StopScriptEngine; EnqueueRemovals; OctreeProcessorClear])
  ∧ _currentEntitiesInside
      (shutdown a_tree_scale (sample_view origin) inside_one).1 = [1%N].
Proof. split; [reflexivity|]. split; reflexivity. Qed.

Lemma leaveAllEntities_when_live_witness :
  leaveAllEntities a_tree_scale (sample_view origin) inside_one
  = (forceRecheckEntities a_tree_scale (sample_view origin)
       (set_currentEntitiesInside [] inside_one),
     [EmitLeaveEntity 1%N; CallEntityScriptMethod 1%N "leaveEntity"]).
Proof.
  apply (proj1 (leaveAllEntities_when_live a_check_distance a_check_interval
                  a_tree_scale an_invalid_item (sample_view origin)
                  inside_one));
    [discriminate | reflexivity].
Defined.

Lemma checkEnterLeave_fires_the_difference_witness :
  ∃ r' events,
    checkEnterLeaveEntities a_check_distance a_check_interval
      an_invalid_item (sample_view origin) 200000 crossing
    = Returns (false, r', events)
    ∧ events = [FindEntities origin;
                EmitLeaveEntity 1%N; CallEntityScriptMethod 1%N "leaveEntity";
                EmitEnterEntity 3%N; CallEntityScriptMethod 3%N "enterEntity"]
    ∧ _currentEntitiesInside r' = [2%N; 3%N]
    ∧ (∀ i, EmitLeaveEntity i ∈ events
            ↔ i ∈ _currentEntitiesInside crossing ∧ i ∉ _currentEntitiesInside r').
Proof.
  eexists _, _. split; [reflexivity|]. split; [reflexivity|].
  split; [reflexivity|].
  eapply (checkEnterLeave_fires_the_difference a_check_distance
            a_check_interval an_invalid_item (sample_view origin) 200000
            crossing); reflexivity.
Defined.

Lemma move_preserves_skyboxLayer_witness :
  designates (LayeredZones.move 1 marked_second).1
    (LayeredZones._skyboxLayer (LayeredZones.move 1 marked_second).1) 1.
Proof.
  apply (proj1 (proj2 (move_preserves_skyboxLayer 1 marked_second))).
  exists (LayeredZone_of zone_b). split; reflexivity.
Defined.

Lemma findBest_one_empty_is_a_change_witness :
  ∃ r',
    findBestZoneAndMaybeContainingEntities an_invalid_item
      (sample_view origin) both_zones first_cycle
    = Returns (true, [1%N; 2%N], r',
               [FindEntities origin; LayeredZonesApply;
                EnqueueSelection "RankedZones" [101%N; 102%N]]).
Proof.
  eexists.
  rewrite (proj1 (proj2 (findBest_one_empty_is_a_change an_invalid_item
                           (sample_view origin) both_zones first_cycle)
                    ltac:(discriminate))).
  reflexivity.
Defined.



(** C8, as stated, fails: the first call, exactly one interval after the
    last check, is skipped; the second, one microsecond later and at the
    same place, rechecks. *)
Lemma second_check_rechecks_after_skipped_first :
  checkEnterLeaveEntities a_check_distance a_check_interval an_invalid_item
    (sample_view origin) 100000 idle
  = Returns (false, idle, [])
  ∧ distance_gt (getAvatarPosition (sample_view origin))
      (getAvatarPosition (sample_view origin)) a_check_distance = false
  ∧ quint64_sub 100001 100000 < a_check_interval
  ∧ checkEnterLeaveEntities a_check_distance a_check_interval an_invalid_item
      (sample_view origin) 100001 idle
    = Returns (false, set_lastZoneCheck 100001 idle, [FindEntities origin])
  ∧ set_lastZoneCheck 100001 idle ≠ idle.
Proof.
  split; [reflexivity|]. split; [reflexivity|]. split; [reflexivity|].
  split; [reflexivity|]. intros H. by apply (f_equal _lastZoneCheck) in H.
Qed.

Lemma second_check_after_recheck_is_noop_witness :
  ∃ r1,
    checkEnterLeaveEntities a_check_distance a_check_interval an_invalid_item
      (sample_view origin) 200000 first_cycle
    = Returns (true, r1,
               [FindEntities origin; LayeredZonesApply;
                EnqueueSelection "RankedZones" [101%N; 102%N];
                EmitEnterEntity 1%N; CallEntityScriptMethod 1%N "enterEntity";
                EmitEnterEntity 2%N; CallEntityScriptMethod 2%N "enterEntity"])
    ∧ checkEnterLeaveEntities a_check_distance a_check_interval an_invalid_item
        (sample_view origin) 200001 r1
      = Returns (false, r1, []).
Proof.
  eexists. split; [reflexivity|].
  eapply (proj1 (second_check_after_recheck_is_noop a_check_distance
                   a_check_interval an_invalid_item
                   (sample_view origin) 200000 (sample_view origin) 200001
                   first_cycle _ _ _ ltac:(reflexivity) ltac:(reflexivity)
                   ltac:(by vm_compute)));
    reflexivity.
Defined.

(** C10, as stated, fails: a zone of the set that became invisible while
    it still holds the avatar is erased by [updateZone]. *)
Lemma updateZone_erases_hidden_zone :
  id <$> LayeredZones.layers (_layeredZones hidden_zone_cycle) = [1%N]
  ∧ resolves_to_zone hidden_zone_cycle 1%N zone_a_hidden
  ∧ getVisible zone_a_hidden = false
  ∧ ∃ r', updateZone 1%N hidden_zone_cycle = Returns r'
          ∧ LayeredZones.layers (_layeredZones r') = []
          ∧ r' ≠ hidden_zone_cycle.
Proof.
  split; [reflexivity|]. split; [by eexists|]. split; [reflexivity|].
  eexists. split; [reflexivity|]. split; [reflexivity|].
  intros H. by apply (f_equal (λ r, length (LayeredZones.layers (_layeredZones r)))) in H.
Qed.

Lemma updateZone_frame_witness :
  updateZone 1%N left_zone_cycle = Returns left_zone_cycle.
Proof.
  assert (∀ zone, resolves_to_zone left_zone_cycle 1%N zone →
                  contains zone (_avatarPosition left_zone_cycle) = false)
    as Hout.
  { intros zone (tree & [= <-] & Hzone). simpl in Hzone.
    by injection Hzone as <-. }
  apply (proj1 (updateZone_frame 1%N left_zone_cycle Hout)
           (sample_tree [sample_zone 1 10 true false])).
  reflexivity.
Defined.

(** The out-of-bounds read of [contains] is reached by the renderer: a
    first check finds two zones, the avatar then leaves the larger one. *)
Lemma leaving_a_zone_reads_past_the_end :
  ∃ r1 events,
    checkEnterLeaveEntities a_check_distance a_check_interval an_invalid_item
      (sample_view origin) 200000 before_walk
    = Returns (true, r1, events)
    ∧ id <$> LayeredZones.layers (_layeredZones r1) = [1%N; 2%N]
    ∧ checkEnterLeaveEntities a_check_distance a_check_interval an_invalid_item
        (sample_view (point 5000 0 0)) 400000 r1
      = Undefined ReadPastTheEnd.
Proof. eexists _, _. split; [reflexivity|]. split; reflexivity. Qed.

(** * Further properties *)

(** ** [LayeredZones]: the lock-step invariant and [update] *)

Lemma set_insert_absent layer xs :
  (∀ l, l ∈ xs → iter_to l ≠ iter_to layer) →
  ∃ set', set_insert layer xs = (set', (layer, true)) ∧ set' ≡ₚ layer :: xs.
Proof.
  induction xs as [|a xs IH]; intros Habsent; simpl.
  - by exists [layer].
  - destruct (layer_ltb layer a) eqn:Hla; [by eexists|].
    destruct (layer_ltb a layer) eqn:Hal.
    + destruct IH as (set' & -> & Hperm).
      { intros l Hl. apply Habsent. by right. }
      exists (a :: set'). split; [done|].
      rewrite Hperm. apply Permutation_swap.
    + exfalso. apply (Habsent a); [by left|]. by apply layer_lt_total.
Qed.

Lemma filter_sorted (it : iterator) xs :
  StronglySorted layer_lt xs →
  StronglySorted layer_lt (filter (λ l, iter_to l ≠ it) xs).
Proof.
  induction 1 as [|a xs Hs IH Hall]; [constructor|].
  rewrite filter_cons. case_decide; [|done].
  constructor; [done|]. apply Forall_forall.
  intros b [_ Hb]%list_elem_of_filter. rewrite Forall_forall in Hall. auto.
Qed.

Lemma create_consistent self : consistent (LayeredZones.create self).
Proof.
  split; [constructor|]. split; [constructor|].
  intros k it. simpl. rewrite lookup_empty. split; [done|].
  intros (l & Hl & _). by apply elem_of_nil in Hl.
Qed.

Lemma same_id_same_layer xs (a b : LayeredZone) :
  NoDup (id <$> xs) → a ∈ xs → b ∈ xs → id a = id b → a = b.
Proof.
  induction xs as [|c xs IH]; simpl; intros Hnd Ha Hb Hid.
  - by apply elem_of_nil in Ha.
  - apply NoDup_cons in Hnd as [Hc Hnd].
    apply elem_of_cons in Ha as [->|Ha], Hb as [->|Hb]; [done| | |by apply IH].
    + exfalso. apply Hc. rewrite Hid. by apply list_elem_of_fmap_2.
    + exfalso. apply Hc. rewrite <- Hid. by apply list_elem_of_fmap_2.
Qed.

Lemma deref_present s l :
  l ∈ LayeredZones.layers s →
  ∃ l', LayeredZones.deref s (iter_to l) = Returns l'
        ∧ iter_to l' = iter_to l ∧ l' ∈ LayeredZones.layers s.
Proof.
  intros Hl. unfold LayeredZones.deref. simpl.
  destruct (list_find (λ l0, iter_to l0 = iter_to l) (LayeredZones.layers s))
    as [[n l']|] eqn:Hfind.
  - apply list_find_Some in Hfind as (Hn & Hkey & _).
    exists l'. split; [done|]. split; [done|].
    by apply list_elem_of_lookup_2 in Hn.
  - apply list_find_None in Hfind. rewrite Forall_forall in Hfind.
    by destruct (Hfind l Hl).
Qed.

Lemma insert_fresh_id layer s :
  consistent s →
  (∀ l, l ∈ LayeredZones.layers s → id l ≠ id layer) →
  ∃ s', LayeredZones.insert layer s = (s', (iter_to layer, true))
        ∧ consistent s'
        ∧ LayeredZones.layers s' ≡ₚ layer :: LayeredZones.layers s
        ∧ LayeredZones._map s'
          = <[id layer := iter_to layer]> (LayeredZones._map s)
        ∧ LayeredZones.this s' = LayeredZones.this s
        ∧ LayeredZones._skyboxLayer s' = LayeredZones._skyboxLayer s.
Proof.
  intros (Hord & Hnd & Hmap) Hfresh.
  assert (LayeredZones._map s !! id layer = None) as Hnone.
  { destruct (LayeredZones._map s !! id layer) as [it|] eqn:Hit; [|done].
    apply Hmap in Hit as (l & Hl & Hid & _). by destruct (Hfresh l Hl). }
  destruct (set_insert_absent layer (LayeredZones.layers s))
    as (set' & Hins & Hperm).
  { intros l Hl [= _ Hid]. by apply (Hfresh l Hl). }
  pose proof (set_insert_sorted layer _ Hord) as Hsorted.
  unfold LayeredZones.insert. rewrite Hins in Hsorted |- *. simpl in *.
  unfold emplace. rewrite Hnone.
  eexists. split; [done|]. simpl.
  split; [|by rewrite Hperm]. split; [done|]. split; simpl.
  - rewrite Hperm. simpl. apply NoDup_cons. split; [|done].
    intros (l & Hid & Hl)%list_elem_of_fmap. by apply (Hfresh l Hl).
  - intros k it. simpl. split.
    + intros Hk. destruct (decide (id layer = k)) as [<-|Hne].
      * rewrite lookup_insert_eq in Hk. injection Hk as <-.
        exists layer. split; [|done]. rewrite Hperm. by left.
      * rewrite lookup_insert_ne in Hk by done.
        apply Hmap in Hk as (l & Hl & Hid & Hit).
        exists l. split; [|done]. rewrite Hperm. by right.
    + intros (l & Hl & Hid & ->). rewrite Hperm in Hl.
      apply elem_of_cons in Hl as [->|Hl].
      * subst k. by rewrite lookup_insert_eq.
      * rewrite lookup_insert_ne
          by (subst k; intros Heq; by apply (Hfresh l Hl)).
        apply Hmap. by exists l.
Qed.

Lemma erase_layer s l :
  consistent s → l ∈ LayeredZones.layers s →
  consistent (LayeredZones.map_erase (id l) (LayeredZones.erase (iter_to l) s))
  ∧ ∀ l', l' ∈ LayeredZones.layers
                (LayeredZones.map_erase (id l) (LayeredZones.erase (iter_to l) s))
          ↔ l' ∈ LayeredZones.layers s ∧ id l' ≠ id l.
Proof.
  intros (Hord & Hnd & Hmap) Hl.
  assert (∀ l', l' ∈ LayeredZones.layers s →
                (iter_to l' ≠ iter_to l ↔ id l' ≠ id l)) as Hkey.
  { intros l' Hl'. split.
    - intros Hne Hid. apply Hne. by rewrite (same_id_same_layer _ l' l Hnd).
    - intros Hne [= _ Hid]. done. }
  assert (∀ l', l' ∈ filter (λ l0, iter_to l0 ≠ iter_to l) (LayeredZones.layers s)
                ↔ l' ∈ LayeredZones.layers s ∧ id l' ≠ id l) as Hin.
  { intros l'. rewrite list_elem_of_filter. split.
    - intros [Hne Hl']. split; [done|]. by apply Hkey.
    - intros [Hl' Hne]. split; [|done]. by apply Hkey. }
  split; [|done]. split; [|split]; simpl.
  - by apply filter_sorted.
  - apply (NoDup_fmap_2_strong id).
    + intros a b [_ Ha]%list_elem_of_filter [_ Hb]%list_elem_of_filter.
      by apply (same_id_same_layer _ a b Hnd).
    + apply NoDup_filter. by apply NoDup_fmap_1 in Hnd.
  - intros k it. simpl. split.
    + intros Hk. destruct (decide (id l = k)) as [<-|Hne].
      { by rewrite lookup_delete_eq in Hk. }
      rewrite lookup_delete_ne in Hk by done.
      apply Hmap in Hk as (l' & Hl' & Hid & Hit).
      exists l'. split; [|done]. apply Hin. split; [done|]. congruence.
    + intros (l' & [Hl' Hne]%Hin & Hid & ->).
      rewrite lookup_delete_ne by congruence. apply Hmap. by exists l'.
Qed.

Lemma map_emplace_present k it s :
  is_Some (LayeredZones._map s !! k) → LayeredZones.map_emplace k it s = s.
Proof.
  intros [it' Hk]. unfold LayeredZones.map_emplace, emplace. rewrite Hk.
  by destruct s.
Qed.

(** What [update] does to a set that is in lock-step. *)
Lemma update_cases zone s :
  consistent s →
  ∃ s', LayeredZones.update zone s = Returns s'
        ∧ consistent s'
        ∧ LayeredZones.this s' = LayeredZones.this s
        ∧ LayeredZones._skyboxLayer s' = LayeredZones._skyboxLayer s
        ∧ (∀ l, id l ≠ getEntityItemID zone →
                (l ∈ LayeredZones.layers s' ↔ l ∈ LayeredZones.layers s))
        ∧ (getVisible zone = true →
           ∃ l, l ∈ LayeredZones.layers s' ∧ id l = getEntityItemID zone
                ∧ volume l = computeVolume zone)
        ∧ (getVisible zone = false →
           ∀ l, l ∈ LayeredZones.layers s' → id l ≠ getEntityItemID zone)
        ∧ (getVisible zone = true →
           (∃ l, l ∈ LayeredZones.layers s ∧ id l = getEntityItemID zone
                 ∧ volume l = computeVolume zone) →
           s' = s).
Proof.
  intros Hs. pose proof Hs as (Hord & Hnd & Hmap).
  unfold LayeredZones.update.
  change (getEntityItemID zone) with (id (LayeredZone_of zone)).
  change (computeVolume zone) with (volume (LayeredZone_of zone)).
  generalize (LayeredZone_of zone). intros zl.
  (* inserting the zone's layer into a set that has no layer of its id *)
  assert (∀ s0, consistent s0 →
            (∀ l, l ∈ LayeredZones.layers s0 → id l ≠ id zl) →
            ∃ s', (let '(s2, (layer', _)) := LayeredZones.insert zl s0 in
                   l' ← LayeredZones.deref s2 layer';
                   Returns (LayeredZones.map_emplace (id l') layer' s2))
                  = Returns s'
                  ∧ LayeredZones.insert zl s0 = (s', (iter_to zl, true))
                  ∧ consistent s'
                  ∧ LayeredZones.this s' = LayeredZones.this s0
                  ∧ LayeredZones._skyboxLayer s' = LayeredZones._skyboxLayer s0
                  ∧ LayeredZones.layers s' ≡ₚ zl :: LayeredZones.layers s0)
    as Hinsert.
  { intros s0 Hs0 Hfresh.
    destruct (insert_fresh_id zl s0 Hs0 Hfresh)
      as (s2 & Hins & Hs2 & Hperm & Hmap2 & Hthis & Hsky).
    exists s2. rewrite Hins.
    destruct (deref_present s2 zl) as (l' & -> & [= _ Hid] & _).
    { rewrite Hperm. by left. }
    simpl. rewrite map_emplace_present; [done|].
    rewrite Hmap2, Hid, lookup_insert_eq. by eexists. }
  destruct (LayeredZones.empty s && getVisible zone) eqn:Hfirst.
  { (* there are no zones: set this one *)
    apply andb_true_iff in Hfirst as [Hempty%bool_decide_eq_true Hvis].
    destruct (insert_fresh_id zl s Hs)
      as (s2 & Hins & Hs2 & Hperm & Hmap2 & Hthis & Hsky).
    { intros l Hl. rewrite Hempty in Hl. by apply elem_of_nil in Hl. }
    exists s2. rewrite Hins. simpl. unfold LayeredZones.apply.
    split; [done|]. split; [done|]. split; [done|]. split; [done|].
    split; [|split; [|split]].
    - intros l Hne. rewrite Hperm, elem_of_cons. split; [|by right].
      intros [->|Hl]; [by destruct Hne | done].
    - intros _. exists zl. split; [|done]. rewrite Hperm. by left.
    - by rewrite Hvis.
    - intros _ (l & Hl & _). rewrite Hempty in Hl. by apply elem_of_nil in Hl. }
  destruct (LayeredZones._map s !! id zl) as [found|] eqn:Hfound.
  - (* the zone has a layer *)
    apply Hmap in Hfound as (l & Hl & Hid & ->).
    destruct (deref_present s l Hl) as (l' & -> & Hkey & Hl').
    assert (l' = l) as ->.
    { apply (same_id_same_layer _ l' l Hnd Hl' Hl). by injection Hkey. }
    simpl.
    destruct (bool_decide (volume zl ≠ volume l) || negb (getVisible zone))
      eqn:Hstale; simpl.
    + (* erase it, then insert the fresh one if the zone is visible *)
      destruct (erase_layer s l Hs Hl) as [Hs1 Hin1].
      rewrite <- Hid.
      set (s1 := LayeredZones.map_erase (id l)
                   (LayeredZones.erase (iter_to l) s)) in *.
      rewrite bool_decide_eq_true_2 by done. simpl.
      destruct (getVisible zone) eqn:Hvis.
      * destruct (Hinsert s1 Hs1)
          as (s' & -> & _ & Hs' & Hthis & Hsky & Hperm).
        { intros l0 [_ Hne]%Hin1. congruence. }
        exists s'. split; [done|]. split; [done|]. split; [done|].
        split; [done|]. split; [|split; [|split]].
        -- intros l0 Hne. rewrite Hperm, elem_of_cons, Hin1. split.
           ++ intros [->|[Hl0 _]]; [by destruct Hne | done].
           ++ intros Hl0. right. by split.
        -- intros _. exists zl. split; [|done]. rewrite Hperm. by left.
        -- done.
        -- intros _ (l0 & Hl0 & Hid0 & Hvol0). exfalso.
           assert (l0 = l) as ->
             by (apply (same_id_same_layer _ l0 l Hnd Hl0 Hl); congruence).
           rewrite orb_false_r in Hstale.
           apply bool_decide_eq_true in Hstale. by apply Hstale.
      * exists s1. split; [done|]. split; [done|]. split; [done|].
        split; [done|]. split; [|split; [|split]]; try done.
        -- intros l0 Hne. rewrite Hin1. split; [by intros [? _]|].
           intros Hl0. by split.
        -- by intros _ l0 [_ Hne]%Hin1.
    + (* same volume, still visible: nothing to do *)
      apply orb_false_iff in Hstale as [Hvol%bool_decide_eq_false Hvis].
      apply negb_false_iff in Hvis. rewrite Hvis.
      exists s. split; [done|]. split; [done|]. split; [done|].
      split; [done|]. split; [done|]. split; [|split]; try done.
      intros _. exists l. split; [done|]. split; [done|].
      symmetry. by apply dec_stable in Hvol.
  - (* the zone has no layer *)
    assert (∀ l, l ∈ LayeredZones.layers s → id l ≠ id zl) as Hfresh.
    { intros l Hl Hid.
      assert (LayeredZones._map s !! id zl = Some (iter_to l)) as Hsome
        by (apply Hmap; by exists l).
      by rewrite Hfound in Hsome. }
    simpl. rewrite bool_decide_eq_true_2 by done. simpl.
    destruct (getVisible zone) eqn:Hvis.
    + destruct (Hinsert s Hs Hfresh)
        as (s' & -> & _ & Hs' & Hthis & Hsky & Hperm).
      exists s'. split; [done|]. split; [done|]. split; [done|].
      split; [done|]. split; [|split; [|split]].
      * intros l0 Hne. rewrite Hperm, elem_of_cons. split; [|by right].
        intros [->|Hl0]; [by destruct Hne | done].
      * intros _. exists zl. split; [|done]. rewrite Hperm. by left.
      * done.
      * intros _ (l0 & Hl0 & Hid0 & _). by destruct (Hfresh l0 Hl0).
    + exists s. split; [done|]. split; [done|]. split; [done|].
      split; [done|]. split; [done|]. split; [done|]. split; [|done].
      intros _ l0 Hl0. by apply Hfresh.
Qed.

Lemma update_all_cons zone zones s s1 :
  LayeredZones.update zone s = Returns s1 →
  update_all (zone :: zones) s = update_all zones s1.
Proof. unfold update_all. simpl. by intros ->. Qed.

Lemma update_all_consistent zones s :
  consistent s → ∃ s', update_all zones s = Returns s' ∧ consistent s'.
Proof.
  revert s. induction zones as [|zone zones IH]; intros s Hs.
  - by exists s.
  - destruct (update_cases zone s Hs) as (s1 & Hrun & Hs1 & _).
    rewrite (update_all_cons _ _ _ _ Hrun). by apply IH.
Qed.

Lemma sample_one_zone_consistent : consistent (sample_set 0 [zone_a]).
Proof.
  destruct (update_all_consistent [zone_a] _ (create_consistent 0))
    as (s' & Hrun & Hs'). by injection Hrun as <-.
Qed.

Lemma sample_two_zones_consistent : consistent (sample_set 1 [zone_a; zone_b]).
Proof.
  destruct (update_all_consistent [zone_a; zone_b] _ (create_consistent 1))
    as (s' & Hrun & Hs'). by injection Hrun as <-.
Qed.

(** X1: from a set in lock-step -- a fresh or cleared one in particular --
    every sequence of [update] calls returns, and leaves the layers in
    strict ascending order, one layer per id, with the id-to-position
    mapping holding exactly the layers of the set. *)
Theorem updates_keep_lock_step (zones : list Entity) (s : LayeredZones.t) :
  consistent s →
  ∃ s', update_all zones s = Returns s'
        ∧ ordered s' ∧ NoDup (id <$> LayeredZones.layers s')
        ∧ map_tracks_layers s'.
Proof. apply update_all_consistent. Qed.

Lemma updates_keep_lock_step_witness :
  ∃ s', update_all [zone_a; zone_b; zone_a_hidden; zone_a_shrunk]
          (LayeredZones.create 0) = Returns s'
        ∧ ordered s' ∧ NoDup (id <$> LayeredZones.layers s')
        ∧ map_tracks_layers s'.
Proof.
  apply (updates_keep_lock_step [zone_a; zone_b; zone_a_hidden; zone_a_shrunk]).
  apply create_consistent.
Defined.

(** X2: on a set in lock-step, [update(zone)] leaves a visible zone with
    a layer carrying its current volume and an invisible zone with no
    layer; the layers of every other id, the skybox marker and the identity
    of the set are untouched. *)
Theorem update_outcome (zone : Entity) (s s' : LayeredZones.t) :
  consistent s →
  LayeredZones.update zone s = Returns s' →
  (getVisible zone = true →
   ∃ l, l ∈ LayeredZones.layers s' ∧ id l = getEntityItemID zone
        ∧ volume l = computeVolume zone)
  ∧ (getVisible zone = false →
     ∀ l, l ∈ LayeredZones.layers s' → id l ≠ getEntityItemID zone)
  ∧ (∀ l, id l ≠ getEntityItemID zone →
          (l ∈ LayeredZones.layers s' ↔ l ∈ LayeredZones.layers s))
  ∧ LayeredZones._skyboxLayer s' = LayeredZones._skyboxLayer s
  ∧ LayeredZones.this s' = LayeredZones.this s.
Proof.
  intros Hs Hrun.
  destruct (update_cases zone s Hs)
    as (s1 & Hrun1 & _ & Hthis & Hsky & Hothers & Hvis & Hinvis & _).
  rewrite Hrun in Hrun1. injection Hrun1 as <-. done.
Qed.

Lemma update_outcome_witness :
  ∃ l, l ∈ LayeredZones.layers
             (LayeredZones.insert (LayeredZone_of zone_a_shrunk)
                (LayeredZones.map_erase 1%N
                   (LayeredZones.erase (iter_to (LayeredZone_of zone_a))
                      (sample_set 0 [zone_a])))).1
       ∧ id l = 1%N ∧ volume l = 5.
Proof.
  apply (update_outcome zone_a_shrunk (sample_set 0 [zone_a]) _
           sample_one_zone_consistent eq_refl).
  reflexivity.
Defined.

(** X3: [update] of a visible zone whose layer is in the set with the same
    volume changes nothing: the layer is not erased and reinserted. *)
Theorem update_unchanged_zone_is_noop (zone : Entity) (s : LayeredZones.t) l :
  consistent s →
  getVisible zone = true →
  l ∈ LayeredZones.layers s → id l = getEntityItemID zone →
  volume l = computeVolume zone →
  LayeredZones.update zone s = Returns s.
Proof.
  intros Hs Hvis Hl Hid Hvol.
  destruct (update_cases zone s Hs) as (s1 & -> & _ & _ & _ & _ & _ & _ & Hsame).
  f_equal. apply Hsame; [done|]. by exists l.
Qed.

Lemma update_unchanged_zone_is_noop_witness :
  LayeredZones.update zone_a (sample_set 0 [zone_a])
  = Returns (sample_set 0 [zone_a]).
Proof.
  apply (update_unchanged_zone_is_noop zone_a (sample_set 0 [zone_a])
           (LayeredZone_of zone_a) sample_one_zone_consistent);
    [reflexivity | apply list_elem_of_here | reflexivity | reflexivity].
Defined.

Lemma update_hidden_absent zone s :
  consistent s → getVisible zone = false →
  (∀ l, l ∈ LayeredZones.layers s → id l ≠ getEntityItemID zone) →
  LayeredZones.update zone s = Returns s.
Proof.
  intros (_ & _ & Hmap) Hvis Habsent. unfold LayeredZones.update.
  rewrite Hvis, andb_false_r.
  destruct (LayeredZones._map s !! id (LayeredZone_of zone)) as [it|] eqn:Hit.
  { apply Hmap in Hit as (l & Hl & Hid & _). by destruct (Habsent l Hl). }
  simpl. by rewrite andb_false_r.
Qed.

(** X4: [update] is idempotent: on a set in lock-step, a second [update]
    of the same zone returns the set the first one produced. *)
Theorem update_idempotent (zone : Entity) (s s1 : LayeredZones.t) :
  consistent s →
  LayeredZones.update zone s = Returns s1 →
  LayeredZones.update zone s1 = Returns s1.
Proof.
  intros Hs Hrun.
  destruct (update_cases zone s Hs)
    as (s' & Hrun' & Hs1 & _ & _ & _ & Hvis & Hinvis & _).
  rewrite Hrun in Hrun'. injection Hrun' as <-.
  destruct (getVisible zone) eqn:Hv.
  - destruct (update_cases zone s1 Hs1)
      as (s2 & -> & _ & _ & _ & _ & _ & _ & Hsame).
    f_equal. by apply Hsame, Hvis.
  - apply update_hidden_absent; auto.
Qed.

Lemma update_idempotent_witness :
  ∃ s1, LayeredZones.update zone_a_hidden (sample_set 0 [zone_a]) = Returns s1
        ∧ LayeredZones.update zone_a_hidden s1 = Returns s1.
Proof.
  eexists. split; [reflexivity|].
  apply (update_idempotent zone_a_hidden (sample_set 0 [zone_a]) _
           sample_one_zone_consistent).
  reflexivity.
Defined.

(** X5: [insert] of a layer whose (volume, id) key is not in an ordered
    set succeeds: the set gains exactly that layer and stays ordered, the
    returned iterator designates it, and the mapping gets the id unless the
    id was mapped already. *)
Theorem insert_new_key_succeeds (layer : LayeredZone) (s : LayeredZones.t) :
  ordered s →
  (∀ l, l ∈ LayeredZones.layers s → iter_to l ≠ iter_to layer) →
  (LayeredZones.insert layer s).2 = (iter_to layer, true)
  ∧ LayeredZones.layers (LayeredZones.insert layer s).1
    ≡ₚ layer :: LayeredZones.layers s
  ∧ ordered (LayeredZones.insert layer s).1
  ∧ LayeredZones.deref (LayeredZones.insert layer s).1 (iter_to layer)
    = Returns layer
  ∧ LayeredZones._map (LayeredZones.insert layer s).1
    = emplace (id layer) (iter_to layer) (LayeredZones._map s).
Proof.
  intros Hord Habsent.
  destruct (set_insert_absent layer _ Habsent) as (set' & Hins & Hperm).
  pose proof (set_insert_sorted layer _ Hord) as Hsorted.
  unfold ordered, LayeredZones.insert. rewrite Hins in Hsorted |- *.
  simpl in *. split; [done|]. split; [done|]. split; [done|]. split; [|done].
  unfold LayeredZones.deref. simpl.
  assert (layer ∈ set') as Hin by (rewrite Hperm; by left).
  destruct (list_find (λ l, iter_to l = iter_to layer) set')
    as [[n l]|] eqn:Hfind.
  - apply list_find_Some in Hfind as (Hn%list_elem_of_lookup_2 & Hkey & _).
    f_equal. rewrite Hperm in Hn. apply elem_of_cons in Hn as [->|Hn]; [done|].
    by destruct (Habsent l Hn).
  - apply list_find_None in Hfind. rewrite Forall_forall in Hfind.
    by destruct (Hfind layer Hin).
Qed.

Lemma insert_new_key_succeeds_witness :
  (LayeredZones.insert (LayeredZone_of zone_b) (sample_set 0 [zone_a])).2
  = (iter_to (LayeredZone_of zone_b), true).
Proof.
  apply (insert_new_key_succeeds (LayeredZone_of zone_b)
           (sample_set 0 [zone_a])).
  - apply sample_one_zone_consistent.
  - intros l ->%list_elem_of_singleton. discriminate.
Defined.

(** ** [contains], in and out of bounds *)

Lemma list_offset_cons last owner a xs :
  iter_to a ≠ last →
  list_offset last owner (a :: xs) = S <$> list_offset last owner xs.
Proof.
  intros Hne. unfold list_offset. destruct last as [v i|o].
  - cbn. rewrite decide_False by done.
    by destruct (list_find _ xs) as [[n l]|].
  - simpl. by case_decide.
Qed.

Lemma list_offset_here last owner a xs :
  iter_to a = last → list_offset last owner (a :: xs) = Some 0%nat.
Proof.
  intros <-. unfold list_offset, iter_to. simpl.
  by rewrite decide_True.
Qed.

Lemma list_offset_bound last owner xs n :
  list_offset last owner xs = Some n → (n ≤ length xs)%nat.
Proof.
  revert n. induction xs as [|a xs IH]; intros n.
  - unfold list_offset. destruct last; simpl; [done|].
    case_decide; [|done]. intros [= <-]. done.
  - destruct (decide (iter_to a = last)) as [Heq|Hne].
    + rewrite list_offset_here by done. intros [= <-]. simpl. lia.
    + rewrite list_offset_cons by done.
      destruct (list_offset last owner xs) as [m|]; [|done].
      intros [= <-]. specialize (IH m eq_refl). simpl. lia.
Qed.

Lemma list_offset_lookup last owner xs n :
  list_offset last owner xs = Some n →
  match xs !! n with
  | Some l => iter_to l = last
  | None => last = past_the_end owner
  end.
Proof.
  revert n. induction xs as [|a xs IH]; intros n.
  - unfold list_offset. destruct last; simpl; [done|].
    case_decide; [|done]. intros [= <-]. simpl. by subst.
  - destruct (decide (iter_to a = last)) as [Heq|Hne].
    + rewrite list_offset_here by done. by intros [= <-].
    + rewrite list_offset_cons by done.
      destruct (list_offset last owner xs) as [m|]; [|done].
      intros [= <-]. by apply IH.
Qed.

Lemma std_distance_offset last owner xs n :
  std_distance last owner xs = Returns n ↔ list_offset last owner xs = Some n.
Proof.
  revert n. induction xs as [|a xs IH]; intros n; simpl.
  - unfold list_offset. destruct last as [v i|o]; simpl; [done|].
    repeat case_decide; simplify_eq; naive_solver.
  - destruct (decide (iter_to a = last)) as [Heq|Hne].
    + rewrite list_offset_here by done. split; by intros [= <-].
    + rewrite list_offset_cons by done.
      destruct (std_distance last owner xs) as [m|w] eqn:Hd; simpl.
      * rewrite (proj1 (IH m) eq_refl). simpl. split; by intros [= <-].
      * destruct (list_offset last owner xs) as [m|] eqn:Ho; [|done].
        by pose proof (proj2 (IH m) eq_refl).
Qed.

Lemma std_equal_in_bounds last owner xs ys n :
  list_offset last owner xs = Some n → (n ≤ length ys)%nat →
  std_equal last owner xs ys
  = Returns (bool_decide
               (Forall2 (λ u v, layer_eqb u v = true) (take n xs) (take n ys))).
Proof.
  revert ys n. induction xs as [|a xs IH]; intros ys n; simpl.
  - unfold list_offset. destruct last as [v i|o]; simpl; [done|].
    repeat case_decide; simplify_eq; try done. intros [= <-] _.
    by rewrite bool_decide_eq_true_2 by constructor.
  - destruct (decide (iter_to a = last)) as [Heq|Hne].
    + rewrite list_offset_here by done. intros [= <-] _.
      by rewrite bool_decide_eq_true_2 by constructor.
    + rewrite list_offset_cons by done.
      destruct (list_offset last owner xs) as [m|] eqn:Ho; [|done].
      intros [= <-] Hlen. destruct ys as [|b ys]; simpl in *; [lia|].
      destruct (layer_eqb a b) eqn:Hab.
      * rewrite (IH ys m) by (done || lia). f_equal.
        apply bool_decide_ext. split.
        -- intros H. by constructor.
        -- by intros [_ H]%Forall2_cons.
      * f_equal. symmetry. apply bool_decide_eq_false.
        intros [H _]%Forall2_cons. congruence.
Qed.

Lemma std_equal_past_the_end last owner xs ys n :
  list_offset last owner xs = Some n → (length ys < n)%nat →
  Forall2 (λ u v, layer_eqb u v = true) (take (length ys) xs) ys →
  std_equal last owner xs ys = Undefined ReadPastTheEnd.
Proof.
  revert ys n. induction xs as [|a xs IH]; intros ys n; simpl.
  - intros Ho%list_offset_bound. simpl in Ho. lia.
  - destruct (decide (iter_to a = last)) as [Heq|Hne].
    + rewrite list_offset_here by done. intros [= <-]. lia.
    + rewrite list_offset_cons by done.
      destruct (list_offset last owner xs) as [m|] eqn:Ho; [|done].
      intros [= <-] Hlen. destruct ys as [|b ys]; simpl in *; [done|].
      intros [-> H]%Forall2_cons. apply (IH ys m); [done | lia | done].
Qed.

Lemma offset_list_offset s it :
  LayeredZones.offset s it
  = list_offset it (LayeredZones.this s) (LayeredZones.layers s).
Proof. by destruct it. Qed.

Lemma std_next_in_bounds s n :
  (n ≤ length (LayeredZones.layers s))%nat →
  std_next (LayeredZones.this s) (LayeredZones.layers s) n
  = Returns (iterator_at s n).
Proof.
  intros Hn. unfold std_next, iterator_at.
  destruct (LayeredZones.layers s !! n) as [l|] eqn:Hl; [done|].
  apply lookup_ge_None in Hl. by rewrite decide_True by lia.
Qed.

(** X6: when the marker of [other] sits [n] steps after its [begin()] and
    this set has at least [n] layers, [contains(other)] returns; it is true
    exactly when the first [n] layers of both sets are pairwise equal, and
    then moves this set's marker [n] steps after [begin()]; otherwise this
    set is unchanged. *)
Theorem contains_in_bounds (other s : LayeredZones.t) (n : nat) :
  LayeredZones.offset other (LayeredZones._skyboxLayer other) = Some n →
  (n ≤ length (LayeredZones.layers s))%nat →
  LayeredZones.contains other s
  = Returns (if decide (same_prefix n other s)
             then (true, LayeredZones.with_skyboxLayer (iterator_at s n) s)
             else (false, s)).
Proof.
  rewrite offset_list_offset. intros Hoff Hn. unfold LayeredZones.contains.
  rewrite (std_equal_in_bounds _ _ _ _ n Hoff Hn).
  unfold same_prefix. simpl. case_decide as Hsame.
  - rewrite bool_decide_eq_true_2 by done.
    rewrite (proj2 (std_distance_offset _ _ _ n) Hoff). simpl.
    by rewrite std_next_in_bounds.
  - by rewrite bool_decide_eq_false_2.
Qed.

Lemma contains_in_bounds_witness :
  LayeredZones.contains (sample_set 0 [zone_a]) (sample_set 1 [zone_a; zone_b])
  = Returns (true,
             LayeredZones.with_skyboxLayer (iter_to (LayeredZone_of zone_b))
               (sample_set 1 [zone_a; zone_b])).
Proof.
  rewrite (contains_in_bounds (sample_set 0 [zone_a])
             (sample_set 1 [zone_a; zone_b]) 1 eq_refl);
    [reflexivity | simpl; lia].
Defined.

(** X7: when this set has fewer layers than the prefix of [other] before
    its marker and agrees with [other] on all of its own layers,
    [contains(other)] reads through this set's [end()]. *)
Theorem contains_shorter_set_is_undefined (other s : LayeredZones.t) (n : nat) :
  LayeredZones.offset other (LayeredZones._skyboxLayer other) = Some n →
  (length (LayeredZones.layers s) < n)%nat →
  same_prefix (length (LayeredZones.layers s)) other s →
  LayeredZones.contains other s = Undefined ReadPastTheEnd.
Proof.
  rewrite offset_list_offset. intros Hoff Hn Hsame.
  unfold LayeredZones.contains, same_prefix in *.
  rewrite (take_ge (LayeredZones.layers s)) in Hsame by done.
  by rewrite (std_equal_past_the_end _ _ _ _ n Hoff Hn Hsame).
Qed.

Lemma contains_shorter_set_is_undefined_witness :
  LayeredZones.contains (sample_set 1 [zone_a; zone_b])
    (LayeredZones.create 0)
  = Undefined ReadPastTheEnd.
Proof.
  apply (contains_shorter_set_is_undefined (sample_set 1 [zone_a; zone_b])
           (LayeredZones.create 0) 2 eq_refl);
    [simpl; lia | constructor].
Defined.

Lemma same_prefix_refl n s : same_prefix n s s.
Proof.
  unfold same_prefix. apply Forall2_same_length_lookup. split; [done|].
  intros i u v Hu Hv. rewrite Hu in Hv. injection Hv as <-.
  apply layer_eqb_refl.
Qed.

(** X8: a set whose marker is one of its own iterators contains itself,
    and the comparison leaves it as it was. *)
Theorem contains_is_reflexive (A : LayeredZones.t) (n : nat) :
  LayeredZones.offset A (LayeredZones._skyboxLayer A) = Some n →
  LayeredZones.contains A A = Returns (true, A).
Proof.
  rewrite offset_list_offset. intros Hoff.
  pose proof (list_offset_lookup _ _ _ _ Hoff) as Hat.
  pose proof (list_offset_bound _ _ _ _ Hoff) as Hn.
  unfold LayeredZones.contains.
  rewrite (std_equal_in_bounds _ _ _ _ n Hoff Hn).
  rewrite bool_decide_eq_true_2 by apply same_prefix_refl.
  rewrite (proj2 (std_distance_offset _ _ _ n) Hoff). simpl.
  rewrite std_next_in_bounds by done. simpl.
  assert (iterator_at A n = LayeredZones._skyboxLayer A) as ->.
  { unfold iterator_at, LayeredZones.end_.
    by destruct (LayeredZones.layers A !! n). }
  by destruct A.
Qed.

Lemma contains_is_reflexive_witness :
  LayeredZones.contains marked_second marked_second
  = Returns (true, marked_second).
Proof. apply (contains_is_reflexive marked_second 1). reflexivity. Defined.

Lemma keys_first_occurrence xs n l :
  NoDup (iter_to <$> xs) → xs !! n = Some l →
  list_find (λ l0, iter_to l0 = iter_to l) xs = Some (n, l).
Proof.
  intros Hnd Hl. apply list_find_Some. split; [done|]. split; [done|].
  intros j y Hy Hlt Hkey.
  assert (j = n); [|lia].
  apply (NoDup_lookup _ j n (iter_to l) Hnd).
  - by rewrite list_lookup_fmap, Hy, <- Hkey.
  - by rewrite list_lookup_fmap, Hl.
Qed.

(** X9: a successful [contains(other)] on an ordered set puts this set's
    marker as many steps after [begin()] as the marker of [other] is after
    its own, and changes neither the layers nor the mapping. *)
Theorem contains_transplants_marker (other s s' : LayeredZones.t) :
  ordered s →
  LayeredZones.contains other s = Returns (true, s') →
  LayeredZones.offset s' (LayeredZones._skyboxLayer s')
  = LayeredZones.offset other (LayeredZones._skyboxLayer other)
  ∧ LayeredZones.layers s' = LayeredZones.layers s
  ∧ LayeredZones._map s' = LayeredZones._map s
  ∧ LayeredZones.this s' = LayeredZones.this s.
Proof.
  intros Hord. unfold LayeredZones.contains.
  destruct (std_equal _ _ _ _) as [[]|]; simpl; [|done|done].
  destruct (std_distance _ _ _) as [n|] eqn:Hdist; simpl; [|done].
  apply std_distance_offset in Hdist.
  unfold std_next.
  destruct (LayeredZones.layers s !! n) as [l|] eqn:Hl; simpl.
  - intros [= <-]. simpl. split; [|done].
    rewrite (offset_list_offset other), Hdist.
    pose proof (keys_first_occurrence _ n l (ordered_keys_distinct _ Hord) Hl)
      as Hfirst.
    unfold LayeredZones.offset, iter_to in *. simpl. by rewrite Hfirst.
  - case_decide as Hlen; simpl; [|done]. intros [= <-]. simpl.
    split; [|done]. rewrite (offset_list_offset other), Hdist.
    by rewrite decide_True, Hlen.
Qed.

Lemma contains_transplants_marker_witness :
  LayeredZones.offset
    (LayeredZones.with_skyboxLayer (iter_to (LayeredZone_of zone_b))
       (sample_set 1 [zone_a; zone_b]))
    (iter_to (LayeredZone_of zone_b))
  = LayeredZones.offset (sample_set 0 [zone_a])
      (LayeredZones._skyboxLayer (sample_set 0 [zone_a])).
Proof.
  apply (contains_transplants_marker (sample_set 0 [zone_a])
           (sample_set 1 [zone_a; zone_b])
           (LayeredZones.with_skyboxLayer (iter_to (LayeredZone_of zone_b))
              (sample_set 1 [zone_a; zone_b]))
           (proj1 sample_two_zones_consistent)).
  reflexivity.
Defined.

(** ** The renderer: what a recheck stores and publishes *)

Lemma set_insert_keeps layer xs l :
  l ∈ xs → l ∈ (set_insert layer xs).1.
Proof.
  induction xs as [|a xs IH]; simpl; intros Hl;
    [by apply elem_of_nil in Hl|].
  destruct (layer_ltb layer a); simpl; [by right|].
  destruct (layer_ltb a layer); simpl; [|done].
  destruct (set_insert layer xs) as [r res]; simpl in *.
  apply elem_of_cons in Hl as [->|Hl]; [by left | right; by apply IH].
Qed.

Lemma set_insert_has_key layer xs :
  ∃ l, l ∈ (set_insert layer xs).1 ∧ iter_to l = iter_to layer.
Proof.
  induction xs as [|a xs IH]; simpl.
  - exists layer. split; [by left | done].
  - destruct (layer_ltb layer a) eqn:Hla; simpl.
    { exists layer. split; [by left | done]. }
    destruct (layer_ltb a layer) eqn:Hal; simpl.
    + destruct IH as (l & Hl & Hkey).
      destruct (set_insert layer xs) as [r res]; simpl in *.
      exists l. split; [by right | done].
    + exists a. split; [by left | by apply layer_lt_total].
Qed.

Lemma insert_layers layer s :
  LayeredZones.layers (LayeredZones.insert layer s).1
  = (set_insert layer (LayeredZones.layers s)).1.
Proof.
  unfold LayeredZones.insert.
  by destruct (set_insert layer (LayeredZones.layers s)) as [set' [elt ok]].
Qed.

Lemma insert_all_elem ls s l :
  l ∈ LayeredZones.layers (insert_all ls s) →
  l ∈ ls ∨ l ∈ LayeredZones.layers s.
Proof.
  unfold insert_all. revert s.
  induction ls as [|a ls IH]; intros s; simpl; [by right|].
  intros [Hl|Hl]%IH; [left; by right|].
  rewrite insert_layers in Hl.
  apply set_insert_elem in Hl as [->|Hl]; [left; by left | by right].
Qed.

Lemma insert_all_keeps ls s l :
  l ∈ LayeredZones.layers s → l ∈ LayeredZones.layers (insert_all ls s).
Proof.
  unfold insert_all. revert s.
  induction ls as [|a ls IH]; intros s Hl; simpl; [done|].
  apply IH. rewrite insert_layers. by apply set_insert_keeps.
Qed.

Lemma insert_all_has_key ls s layer :
  layer ∈ ls →
  ∃ l, l ∈ LayeredZones.layers (insert_all ls s) ∧ iter_to l = iter_to layer.
Proof.
  revert s. induction ls as [|a ls IH]; intros s Hin.
  - by apply elem_of_nil in Hin.
  - apply elem_of_cons in Hin as [->|Hin]; [|by apply IH].
    destruct (set_insert_has_key a (LayeredZones.layers s)) as (l & Hl & Hkey).
    exists l. split; [|done]. unfold insert_all. simpl.
    apply (insert_all_keeps ls). by rewrite insert_layers.
Qed.

Section RebuiltSet.

Variable INVALID_ITEM_ID : ItemID.

Lemma scan_entity_zones p acc e :
  (scan_entity INVALID_ITEM_ID p acc e).2
  = if zone_candidate INVALID_ITEM_ID p e
    then (LayeredZones.insert (LayeredZone_of e) acc.2).1 else acc.2.
Proof.
  destruct acc as [ids lz]. unfold scan_entity, zone_candidate. simpl.
  destruct (bool_decide (getType e = Zone)) eqn:Hzone; simpl.
  - destruct (contains e p); simpl; [|done].
    destruct (getVisible e); simpl; [|done].
    by destruct (bool_decide (getRenderItemID e ≠ INVALID_ITEM_ID)).
  - destruct (negb _); simpl; [|done]. by destruct (contains e p).
Qed.

Lemma scan_zones p found acc :
  (foldl (scan_entity INVALID_ITEM_ID p) acc found).2
  = insert_all
      (LayeredZone_of
         <$> filter (λ e, zone_candidate INVALID_ITEM_ID p e = true) found)
      acc.2.
Proof.
  revert acc. induction found as [|e found IH]; intros acc; simpl; [done|].
  rewrite IH, scan_entity_zones.
  destruct (zone_candidate INVALID_ITEM_ID p e) eqn:He.
  - by rewrite filter_cons_True by done.
  - by rewrite filter_cons_False by (by rewrite He).
Qed.

Lemma rebuilt_is_insert_all tree r :
  (rescan INVALID_ITEM_ID tree r).2.2
  = insert_all
      (LayeredZone_of
         <$> filter (λ e, zone_candidate INVALID_ITEM_ID (_avatarPosition r) e
                          = true)
               (findEntities tree (_avatarPosition r)))
      (LayeredZones.create (LayeredZones.this (_layeredZones r))).
Proof. unfold rescan. simpl. by rewrite scan_zones. Qed.

(** The layers [findBestZoneAndMaybeContainingEntities] leaves stored. *)
Lemma findBest_stored vs tree r didUpdate ids r' events :
  findBestZoneAndMaybeContainingEntities INVALID_ITEM_ID vs tree r
  = Returns (didUpdate, ids, r', events) →
  LayeredZones.layers (_layeredZones r')
  = LayeredZones.layers (rescan INVALID_ITEM_ID tree r).2.2
  ∧ (didUpdate = false → events = [FindEntities (_avatarPosition r)])
  ∧ (didUpdate = true →
     events = [FindEntities (_avatarPosition r); LayeredZonesApply]
              ++ (applyLayeredZones vs r').2).
Proof.
  unfold findBestZoneAndMaybeContainingEntities.
  destruct (rescan INVALID_ITEM_ID tree r) as [old [ids0 lz]]. simpl.
  destruct (LayeredZones.empty lz), (LayeredZones.empty old); simpl;
    try (intros [= <- <- <- <-]; by auto).
  destruct (LayeredZones.contains old lz) as [[[] lz']|] eqn:Hc; simpl;
    [| |done]; intros [= <- <- <- <-]; simpl.
  - apply contains_true_keeps_layers in Hc as [-> _]. by auto.
  - split; [|by auto]. unfold LayeredZones.contains in Hc.
    destruct (std_equal _ _ _ _) as [[]|]; simpl in Hc; [|by injection Hc as <-|done].
    destruct (std_distance _ _ _); simpl in Hc; [|done].
    by destruct (std_next _ _ _).
Qed.


(** X10: the set [findBestZoneAndMaybeContainingEntities] leaves stored is
    in ascending order; each of its layers is the layer of a found entity
    that is a zone, holds the avatar position, is visible and has a valid
    render item; and every such found entity has a layer with its id and
    volume. *)
Theorem findBest_stores_the_visible_zones
    vs tree r didUpdate ids r' events :
  findBestZoneAndMaybeContainingEntities INVALID_ITEM_ID vs tree r
  = Returns (didUpdate, ids, r', events) →
  ordered (_layeredZones r')
  ∧ (∀ l, l ∈ LayeredZones.layers (_layeredZones r') →
          ∃ e, e ∈ findEntities tree (_avatarPosition r)
               ∧ l = LayeredZone_of e
               ∧ getType e = Zone
               ∧ contains e (_avatarPosition r) = true
               ∧ getVisible e = true
               ∧ getRenderItemID e ≠ INVALID_ITEM_ID)
  ∧ (∀ e, e ∈ findEntities tree (_avatarPosition r) →
          getType e = Zone → contains e (_avatarPosition r) = true →
          getVisible e = true → getRenderItemID e ≠ INVALID_ITEM_ID →
          ∃ l, l ∈ LayeredZones.layers (_layeredZones r')
               ∧ id l = getEntityItemID e ∧ volume l = computeVolume e).
Proof.
  intros [Hlayers _]%findBest_stored.
  unfold ordered. rewrite Hlayers, rebuilt_is_insert_all.
  split; [|split].
  - apply insert_all_ordered. constructor.
  - intros l [Hl|Hl]%insert_all_elem; [|by apply elem_of_nil in Hl].
    apply list_elem_of_fmap in Hl as (e & -> & [Hc He]%list_elem_of_filter).
    exists e. unfold zone_candidate in Hc.
    repeat (apply andb_true_iff in Hc as [Hc ?]).
    apply bool_decide_eq_true in Hc, H. done.
  - intros e He Hzone Hin Hvis Hid.
    destruct (insert_all_has_key
                (LayeredZone_of
                   <$> filter (λ e0, zone_candidate INVALID_ITEM_ID
                                       (_avatarPosition r) e0 = true)
                         (findEntities tree (_avatarPosition r)))
                (LayeredZones.create (LayeredZones.this (_layeredZones r)))
                (LayeredZone_of e)) as (l & Hl & [= Hvol Hkey]).
    { apply list_elem_of_fmap_2, list_elem_of_filter. split; [|done].
      unfold zone_candidate. by rewrite Hin, Hvis, !bool_decide_eq_true_2. }
    by exists l.
Qed.

(** X11: a selection is enqueued only by a call that reports an update;
    it is named "RankedZones", lists the render items of the stored layers
    in their order, and never holds [INVALID_ITEM_ID] -- the assertion in
    [applyLayeredZones] cannot fail. *)
Theorem published_selection_has_valid_items
    vs tree r didUpdate ids r' events name items :
  findBestZoneAndMaybeContainingEntities INVALID_ITEM_ID vs tree r
  = Returns (didUpdate, ids, r', events) →
  EnqueueSelection name items ∈ events →
  didUpdate = true
  ∧ name = "RankedZones"
  ∧ items = (λ l, getRenderItemID (zone l))
              <$> LayeredZones.layers (_layeredZones r')
  ∧ INVALID_ITEM_ID ∉ items.
Proof.
  intros Hrun Hin. pose proof (findBest_stored _ _ _ _ _ _ _ Hrun)
    as (Hlayers & Hsame & Hchanged).
  destruct didUpdate.
  - rewrite (Hchanged eq_refl) in Hin. unfold applyLayeredZones in Hin.
    assert (name = "RankedZones"
            ∧ items = (λ l, getRenderItemID (zone l))
                        <$> LayeredZones.layers (_layeredZones r'))
      as [-> ->].
    { destruct (getMain3DScene vs); simpl in Hin;
        repeat (apply elem_of_cons in Hin as [Hin|Hin]; [by simplify_eq|]);
        by apply elem_of_nil in Hin. }
    repeat split; try done.
    intros (l & Hid & Hl)%list_elem_of_fmap.
    rewrite Hlayers, rebuilt_is_insert_all in Hl.
    apply insert_all_elem in Hl as [Hl|Hl]; [|by apply elem_of_nil in Hl].
    apply list_elem_of_fmap in Hl as (e & -> & [Hc He]%list_elem_of_filter).
    unfold zone_candidate in Hc. apply andb_true_iff in Hc as [_ Hc].
    apply bool_decide_eq_true in Hc. by apply Hc.
  - rewrite (Hsame eq_refl) in Hin.
    by apply list_elem_of_singleton in Hin.
Qed.

End RebuiltSet.

Section RendererCompositions.

Variable ZONE_CHECK_DISTANCE : float.
Variable ZONE_CHECK_INTERVAL : Z.
Variable TREE_SCALE : float.
Variable INVALID_ITEM_ID : ItemID.

Lemma check_returns vs now r didUpdate r' events :
  checkEnterLeaveEntities ZONE_CHECK_DISTANCE ZONE_CHECK_INTERVAL
    INVALID_ITEM_ID vs now r = Returns (didUpdate, r', events) →
  (didUpdate = false ∧ r' = r ∧ events = [])
  ∨ ∃ tree, _tree r = Some tree ∧ _shuttingDown r = false
            ∧ recheck INVALID_ITEM_ID vs now tree r
              = Returns (didUpdate, r', events).
Proof.
  unfold checkEnterLeaveEntities.
  destruct (_tree r) as [tree|]; [|intros [= <- <- <-]; by left].
  destruct (_shuttingDown r); simpl; [intros [= <- <- <-]; by left|].
  destruct (recheck_due _ _ _ _ _); [|intros [= <- <- <-]; by left].
  intros Hrun. right. by exists tree.
Qed.

(** X12: [checkEnterLeaveEntities] returns [true] exactly when
    [_layeredZones.apply()] ran during the call, and a call that returns
    [false] enqueues no selection. *)
Theorem apply_runs_exactly_on_update vs now r didUpdate r' events :
  checkEnterLeaveEntities ZONE_CHECK_DISTANCE ZONE_CHECK_INTERVAL
    INVALID_ITEM_ID vs now r = Returns (didUpdate, r', events) →
  (didUpdate = true ↔ LayeredZonesApply ∈ events)
  ∧ (didUpdate = false → ∀ name items, EnqueueSelection name items ∉ events).
Proof.
  intros [(-> & -> & ->)|(tree & _ & _ & Hrun)]%check_returns.
  { split; [split; [done|by intros ?%elem_of_nil]|].
    intros _ name items. apply not_elem_of_nil. }
  unfold recheck in Hrun.
  destruct (findBestZoneAndMaybeContainingEntities _ _ _ _)
    as [[[[d ids] r1] zevs]|] eqn:Hfind; simpl in Hrun; [|done].
  injection Hrun as <- <- <-.
  pose proof (findBest_stored _ _ _ _ _ _ _ _ Hfind) as (_ & Hsame & Hchanged).
  set (P := _currentEntitiesInside r1). set (engine := _entitiesScriptEngine r1).
  pose proof (leaves_are_leave_events engine P ids) as Hleaves.
  pose proof (enters_are_enter_events engine P ids) as Henters.
  rewrite Forall_forall in Hleaves, Henters.
  assert (∀ e, zone_event e = true →
               e ∈ zevs ++ (P ≫= (λ i, if bool_decide (i ∈ ids) then []
                                        else fire_leave engine i))
                        ++ (ids ≫= (λ i, if bool_decide (i ∈ P) then []
                                          else fire_enter engine i))
               → e ∈ zevs) as Hzone.
  { intros e He [Hin|[Hin|Hin]%elem_of_app]%elem_of_app; [done| |].
    - apply Hleaves in Hin. apply zone_event_not_leave in He. congruence.
    - apply Henters in Hin. apply zone_event_not_enter in He. congruence. }
  destruct d.
  - split; [|done]. split; [|done]. intros _.
    rewrite (Hchanged eq_refl). apply elem_of_app. left.
    apply list_elem_of_further, list_elem_of_here.
  - split.
    + split; [done|]. intros Hin%Hzone; [|done].
      rewrite (Hsame eq_refl) in Hin. by apply list_elem_of_singleton in Hin.
    + intros _ name items Hin%Hzone; [|done].
      rewrite (Hsame eq_refl) in Hin. by apply list_elem_of_singleton in Hin.
Qed.

(** X13: when the entities holding the viewpoint are those already
    tracked, a call of [checkEnterLeaveEntities] emits no enter, no leave
    and no script call, whether or not it rechecks. *)
Theorem unchanged_containment_fires_nothing vs now r tree didUpdate r' events :
  _tree r = Some tree →
  (∀ i, i ∈ _currentEntitiesInside r
        ↔ i ∈ containing_ids tree (getAvatarPosition vs)) →
  checkEnterLeaveEntities ZONE_CHECK_DISTANCE ZONE_CHECK_INTERVAL
    INVALID_ITEM_ID vs now r = Returns (didUpdate, r', events) →
  Forall (λ e, zone_event e = true) events.
Proof.
  intros Htree Hsame [(-> & -> & ->)|(tree' & Htree' & _ & Hrun)]%check_returns;
    [constructor|].
  rewrite Htree in Htree'. injection Htree' as <-.
  apply recheck_returns in Hrun as (lz & zevs & Hzone & _ & -> & ->).
  rewrite !Forall_app. split; [done|]. split.
  - apply Forall_forall. intros e (i & He & Hi)%list_elem_of_bind.
    rewrite bool_decide_eq_true_2 in He by (by apply Hsame).
    by apply elem_of_nil in He.
  - apply Forall_forall. intros e (i & He & Hi)%list_elem_of_bind.
    rewrite bool_decide_eq_true_2 in He by (by apply Hsame).
    by apply elem_of_nil in He.
Qed.

(** X14: a check that follows [leaveAllEntities()] from a viewpoint whose
    distance to the stored position -- the earlier viewpoint offset by
    [TREE_SCALE] -- exceeds the threshold in [float] arithmetic goes
    through the recheck whatever the time; when it returns it has emitted
    an enter for exactly the entities holding the viewpoint and no leave,
    and tracks them. *)
Theorem reenter_after_leaveAllEntities vs vs' now r tree didUpdate r' events :
  _tree r = Some tree → _shuttingDown r = false →
  distance_gt (getAvatarPosition vs')
    (vec3_add (getAvatarPosition vs) (vec3_splat TREE_SCALE))
    ZONE_CHECK_DISTANCE = true →
  checkEnterLeaveEntities ZONE_CHECK_DISTANCE ZONE_CHECK_INTERVAL
    INVALID_ITEM_ID vs' now (leaveAllEntities TREE_SCALE vs r).1
  = Returns (didUpdate, r', events) →
  performs_recheck ZONE_CHECK_DISTANCE ZONE_CHECK_INTERVAL vs' now
    (leaveAllEntities TREE_SCALE vs r).1 = true
  ∧ FindEntities (getAvatarPosition vs') ∈ events
  ∧ (∀ i, EmitEnterEntity i ∈ events
          ↔ i ∈ containing_ids tree (getAvatarPosition vs'))
  ∧ (∀ i, EmitLeaveEntity i ∉ events)
  ∧ _currentEntitiesInside r' = containing_ids tree (getAvatarPosition vs').
Proof.
  intros Htree Hshut Hfar. unfold leaveAllEntities, performs_recheck.
  rewrite Htree, Hshut, bool_decide_eq_true_2 by done. simpl.
  unfold checkEnterLeaveEntities.
  rewrite forced_recheck_is_due by done. simpl. rewrite Htree, Hshut. simpl.
  rewrite ?bool_decide_eq_true_2 by done.
  intros Hrun. split; [done|].
  apply recheck_returns in Hrun as (lz & zevs & Hzone & Hquery & -> & ->).
  split; [apply elem_of_app; by left|].
  set (r0 := forceRecheckEntities TREE_SCALE vs
               (set_currentEntitiesInside [] r)).
  set (N := containing_ids tree (getAvatarPosition vs')).
  change (_currentEntitiesInside r0) with (@nil EntityItemID).
  rewrite Forall_forall in Hzone.
  pose proof (enters_are_enter_events (_entitiesScriptEngine r0) [] N)
    as Henters.
  rewrite Forall_forall in Henters.
  split; [|split; [|done]].
  - intros i. rewrite !elem_of_app, emit_enter_in_enters. split.
    + intros [Hin|[Hin|[Hin _]]]; [| |done].
      * by apply Hzone in Hin.
      * by apply elem_of_nil in Hin.
    + intros Hin. right. right. split; [done|]. apply not_elem_of_nil.
  - intros i. rewrite !elem_of_app. intros [Hin|[Hin|Hin]].
    + by apply Hzone in Hin.
    + by apply elem_of_nil in Hin.
    + by apply Henters in Hin.
Qed.

(** X15: [clear()] with a live tree and not shutting down first emits
    the leave events of every tracked id -- before the engine is unloaded
    and stopped -- and emits no leave event after them; afterwards nothing
    is tracked, the zone set is as freshly constructed, and an engine is
    attached if scripts are wanted or one was attached. *)
Theorem clear_when_live vs r :
  _tree r ≠ None → _shuttingDown r = false →
  (∃ rest,
     (clear TREE_SCALE vs r).2
     = (_currentEntitiesInside r ≫= fire_leave (_entitiesScriptEngine r))
       ++ rest
     ∧ Forall (λ e, leave_event e = false) rest)
  ∧ _currentEntitiesInside (clear TREE_SCALE vs r).1 = []
  ∧ _layeredZones (clear TREE_SCALE vs r).1
    = LayeredZones.create (LayeredZones.this (_layeredZones r))
  ∧ _entitiesScriptEngine (clear TREE_SCALE vs r).1
    = _wantScripts r || _entitiesScriptEngine r.
Proof.
  intros Htree Hshut. unfold clear, leaveAllEntities.
  rewrite bool_decide_eq_true_2, Hshut by done. simpl. rewrite Hshut. simpl.
  destruct (_wantScripts r), (_entitiesScriptEngine r) eqn:Hengine,
    (getMain3DScene vs); simpl; rewrite ?Hengine.
  all: split; [eexists; split; [reflexivity|]|by repeat split].
  all: by repeat (constructor; [done|]).
Qed.

(** X16: after [shutdown()] the flag is set, the zone set is as freshly
    constructed, the engine was not reset, and every later
    [checkEnterLeaveEntities] or [leaveAllEntities] does nothing. *)
Theorem shutdown_is_final vs r :
  _shuttingDown (shutdown TREE_SCALE vs r).1 = true
  ∧ _layeredZones (shutdown TREE_SCALE vs r).1
    = LayeredZones.create (LayeredZones.this (_layeredZones r))
  ∧ _entitiesScriptEngine (shutdown TREE_SCALE vs r).1
    = _entitiesScriptEngine r
  ∧ (ResetEntitiesScriptEngine ∉ (shutdown TREE_SCALE vs r).2)
  ∧ (∀ vs' now,
       checkEnterLeaveEntities ZONE_CHECK_DISTANCE ZONE_CHECK_INTERVAL
         INVALID_ITEM_ID vs' now (shutdown TREE_SCALE vs r).1
       = Returns (false, (shutdown TREE_SCALE vs r).1, []))
  ∧ (∀ vs',
       leaveAllEntities TREE_SCALE vs' (shutdown TREE_SCALE vs r).1
       = ((shutdown TREE_SCALE vs r).1, [])).
Proof.
  assert (_shuttingDown (shutdown TREE_SCALE vs r).1 = true) as Hflag.
  { unfold shutdown, clear, leaveAllEntities. simpl.
    rewrite andb_false_r. simpl. by rewrite andb_false_r. }
  split; [done|]. split; [|split; [|split; [|split]]].
  - unfold shutdown, clear, leaveAllEntities. simpl.
    rewrite andb_false_r. simpl. by rewrite andb_false_r.
  - unfold shutdown, clear, leaveAllEntities. simpl.
    rewrite andb_false_r. simpl. by rewrite andb_false_r.
  - unfold shutdown, clear, leaveAllEntities. simpl.
    rewrite andb_false_r. simpl. rewrite andb_false_r. simpl.
    destruct (_entitiesScriptEngine r), (getMain3DScene vs); simpl;
      by repeat (apply not_elem_of_cons; split; [done|]);
         apply not_elem_of_nil.
  - intros vs' now. apply skipped_check_is_noop.
    unfold performs_recheck. rewrite Hflag. by rewrite andb_false_r.
  - intros vs'. unfold leaveAllEntities at 1. rewrite Hflag.
    by rewrite andb_false_r.
Qed.

(** X17: when the id resolves to a zone holding the cached avatar
    position and the set is in lock-step, [updateZone(id)] returns, changes
    only the zone set and keeps it in lock-step: a visible zone ends with a
    layer of its current volume, an invisible one with none, and the layers
    of other ids are untouched. *)
Theorem updateZone_updates_the_zone i r tree zone :
  consistent (_layeredZones r) →
  _tree r = Some tree →
  as_zone (findEntityByEntityItemID tree i) = Some zone →
  contains zone (_avatarPosition r) = true →
  ∃ lz, updateZone i r = Returns (set_layeredZones lz r)
        ∧ consistent lz
        ∧ (getVisible zone = true →
           ∃ l, l ∈ LayeredZones.layers lz ∧ id l = getEntityItemID zone
                ∧ volume l = computeVolume zone)
        ∧ (getVisible zone = false →
           ∀ l, l ∈ LayeredZones.layers lz → id l ≠ getEntityItemID zone)
        ∧ (∀ l, id l ≠ getEntityItemID zone →
                (l ∈ LayeredZones.layers lz
                 ↔ l ∈ LayeredZones.layers (_layeredZones r))).
Proof.
  intros Hs Htree Hzone Hin. unfold updateZone. rewrite Htree, Hzone, Hin.
  destruct (update_cases zone _ Hs)
    as (lz & -> & Hlz & _ & _ & Hothers & Hvis & Hinvis & _).
  by exists lz.
Qed.

End RendererCompositions.

(** ** Examples for the further properties of the renderer *)

Lemma findBest_stores_the_visible_zones_witness :
  ∃ r', findBestZoneAndMaybeContainingEntities an_invalid_item
          (sample_view origin) both_zones first_cycle
        = Returns (true, [1%N; 2%N], r',
                   [FindEntities origin; LayeredZonesApply;
                    EnqueueSelection "RankedZones" [101%N; 102%N]])
        ∧ ordered (_layeredZones r').
Proof.
  eexists. split; [reflexivity|].
  eapply (findBest_stores_the_visible_zones an_invalid_item
            (sample_view origin) both_zones first_cycle).
  reflexivity.
Defined.

Lemma published_selection_has_valid_items_witness :
  an_invalid_item ∉ [101%N; 102%N].
Proof.
  eapply (published_selection_has_valid_items an_invalid_item
            (sample_view origin) both_zones first_cycle true _ _ _
            "RankedZones" [101%N; 102%N]).
  - reflexivity.
  - apply list_elem_of_further, list_elem_of_further, list_elem_of_here.
Defined.

Lemma apply_runs_exactly_on_update_witness :
  LayeredZonesApply
  ∈ [FindEntities origin; LayeredZonesApply;
     EnqueueSelection "RankedZones" [101%N; 102%N];
     EmitEnterEntity 1%N; CallEntityScriptMethod 1%N "enterEntity";
     EmitEnterEntity 2%N; CallEntityScriptMethod 2%N "enterEntity"].
Proof.
  eapply (apply_runs_exactly_on_update a_check_distance a_check_interval
            an_invalid_item (sample_view origin) 200000 first_cycle true);
    reflexivity.
Defined.

Lemma unchanged_containment_fires_nothing_witness :
  Forall (λ e, zone_event e = true) [FindEntities origin].
Proof.
  eapply (unchanged_containment_fires_nothing a_check_distance
            a_check_interval an_invalid_item (sample_view origin) 200000
            settled (sample_tree [scripted 2%N true; scripted 3%N true])
            false).
  - reflexivity.
  - intros i. reflexivity.
  - reflexivity.
Defined.

Lemma reenter_after_leaveAllEntities_witness :
  ∃ r' events,
    checkEnterLeaveEntities a_check_distance a_check_interval an_invalid_item
      (sample_view origin) 0
      (leaveAllEntities a_tree_scale (sample_view origin) crossing).1
    = Returns (false, r', events)
    ∧ _currentEntitiesInside r' = [2%N; 3%N]
    ∧ ∀ i, EmitLeaveEntity i ∉ events.
Proof.
  eexists _, _. split; [reflexivity|]. split; [reflexivity|].
  eapply (reenter_after_leaveAllEntities a_check_distance a_check_interval
            a_tree_scale an_invalid_item (sample_view origin)
            (sample_view origin) 0 crossing);
    [reflexivity | reflexivity | reflexivity | reflexivity].
Defined.

Lemma clear_when_live_witness :
  _currentEntitiesInside (clear a_tree_scale (sample_view origin) inside_one).1
  = [].
Proof.
  apply (clear_when_live a_tree_scale (sample_view origin) inside_one);
    [discriminate | reflexivity].
Defined.

Lemma updateZone_updates_the_zone_witness :
  ∃ lz, updateZone 1%N hidden_zone_cycle
        = Returns (set_layeredZones lz hidden_zone_cycle)
        ∧ consistent lz.
Proof.
  destruct (updateZone_updates_the_zone 1%N hidden_zone_cycle
              (sample_tree [zone_a_hidden]) zone_a_hidden
              sample_one_zone_consistent eq_refl eq_refl eq_refl)
    as (lz & Hrun & Hlz & _).
  by exists lz.
Defined.

(** ** The pointer and collision handlers *)

Section PointerProperties.

Context {vec2 : Type} (w : PointerEnvironment vec2).

Lemma replay_app hover click (s1 s2 : list (PointerSignal vec2)) :
  replay w hover click (s1 ++ s2)
  = '(hover', click') ← replay w hover click s1; replay w hover' click' s2.
Proof.
  revert hover click. induction s1 as [|s s1 IH]; intros hover click; simpl.
  - done.
  - destruct s; simpl; try done; repeat case_match; simpl; try done.
Qed.

Lemma replay_call_script r i method e hover click rest :
  replay w hover click (call_script vec2 r i method e ++ rest)
  = replay w hover click rest.
Proof. unfold call_script. by destruct (_entitiesScriptEngine r). Qed.

Lemma unknown_is_invalid :
  one_invalid_id w → isInvalidID w (UNKNOWN_ENTITY_ID w) = true.
Proof. intros H. by apply H. Qed.

Lemma mouseMove_replay event r st :
  one_invalid_id w →
  replay w (_currentHoverOverEntityID st) (_currentClickingOnEntityID st)
    (mouseMoveEvent vec2 w event r st).2
  = Some (_currentHoverOverEntityID (mouseMoveEvent vec2 w event r st).1,
          _currentClickingOnEntityID (mouseMoveEvent vec2 w event r st).1).
Proof.
  intros Hone. pose proof (unknown_is_invalid Hone) as Hunknown.
  unfold mouseMoveEvent.
  destruct (_tree r) as [tree|]; [|done].
  destruct (_shuttingDown r); [done|].
  set (ray := computePickRay w (event_x event) (event_y event)).
  set (res := findRayIntersectionWorker vec2 w ray TryLock false r).
  destruct (intersects res).
  - destruct (isInvalidID w (_currentHoverOverEntityID st)) eqn:Hhover;
      destruct (isInvalidID w (_currentClickingOnEntityID st)) eqn:Hclick;
      case_bool_decide as Hsame; simplify_eq; simpl;
      destruct (_entitiesScriptEngine r) eqn:Hengine; simpl;
      unfold call_script; rewrite ?Hengine; simpl;
      rewrite ?Hhover, ?Hclick, ?Hunknown, ?bool_decide_eq_true_2 by done;
      simpl; rewrite ?Hhover, ?Hclick, ?bool_decide_eq_true_2 by done;
      simpl; try done.
    all: by rewrite Hsame.
  - destruct (isInvalidID w (_currentHoverOverEntityID st)) eqn:Hhover;
      destruct (isInvalidID w (_currentClickingOnEntityID st)) eqn:Hclick;
      simpl; unfold call_script;
      destruct (_entitiesScriptEngine r) eqn:Hengine; simpl;
      rewrite ?Hhover, ?Hclick, ?bool_decide_eq_true_2 by done; simpl;
      rewrite ?Hhover, ?Hclick, ?bool_decide_eq_true_2 by done; done.
Qed.

Lemma mouseRelease_replay event r st :
  one_invalid_id w →
  replay w (_currentHoverOverEntityID st) (_currentClickingOnEntityID st)
    (mouseReleaseEvent vec2 w event r st).2
  = Some (_currentHoverOverEntityID (mouseReleaseEvent vec2 w event r st).1,
          _currentClickingOnEntityID (mouseReleaseEvent vec2 w event r st).1).
Proof.
  intros Hone. unfold mouseReleaseEvent.
  destruct (_tree r) as [tree|]; [|done].
  destruct (_shuttingDown r); [done|].
  set (ray := computePickRay w (event_x event) (event_y event)).
  set (res := findRayIntersectionWorker vec2 w ray Lock _ r).
  destruct (intersects res);
    destruct (isInvalidID w (_currentClickingOnEntityID st)) eqn:Hclick;
    simpl; unfold call_script;
    destruct (_entitiesScriptEngine r); simpl;
    rewrite ?Hclick, ?bool_decide_eq_true_2 by done; simpl;
    rewrite ?Hclick, ?bool_decide_eq_true_2 by done; simpl; try done.
  all: apply Hone in Hclick; by rewrite Hclick.
Qed.

Lemma mouseDoublePress_replay event r st :
  replay w (_currentHoverOverEntityID st) (_currentClickingOnEntityID st)
    (mouseDoublePressEvent vec2 w event r st).2
  = Some (_currentHoverOverEntityID (mouseDoublePressEvent vec2 w event r st).1,
          _currentClickingOnEntityID
            (mouseDoublePressEvent vec2 w event r st).1).
Proof.
  unfold mouseDoublePressEvent.
  destruct (bool_decide (_tree r = None) || _shuttingDown r); [done|].
  set (ray := computePickRay w (event_x event) (event_y event)).
  set (res := findRayIntersectionWorker vec2 w ray Lock _ r).
  destruct (intersects res); [|done].
  simpl. unfold call_script. by destruct (_entitiesScriptEngine r).
Qed.

Lemma mousePress_replay event r st st' signals :
  mousePressEvent vec2 w event r st = Returns (st', signals) →
  replay w (_currentHoverOverEntityID st) (_currentClickingOnEntityID st)
    signals
  = Some (_currentHoverOverEntityID st', _currentClickingOnEntityID st').
Proof.
  unfold mousePressEvent.
  destruct (_tree r) as [tree|]; [|by intros [= <- <-]].
  destruct (_shuttingDown r); [by intros [= <- <-]|].
  set (ray := computePickRay w (event_x event) (event_y event)).
  set (res := findRayIntersectionWorker vec2 w ray Lock _ r).
  destruct (intersects res); [|by intros [= <- <-]].
  destruct (findEntityByEntityItemID tree (entityID res)) as [found|];
    [|done].
  intros [= <- <-]. simpl. unfold call_script.
  by destruct (usable_url w (getHref w found)), (_entitiesScriptEngine r).
Qed.

(** X18: over any sequence of mouse presses, double presses, releases and
    moves that returns, the hover and click signals follow the protocol of
    [replay] (an enter only with nothing hovered, an over and a leave only
    for the hovered entity, a hold and a click release only for the clicked
    entity), from the entities tracked before to the entities tracked
    after. *)
Theorem pointer_signals_follow_the_protocol inputs r st st' signals :
  one_invalid_id w →
  handle_mouse_all w inputs r st = Returns (st', signals) →
  replay w (_currentHoverOverEntityID st) (_currentClickingOnEntityID st)
    signals
  = Some (_currentHoverOverEntityID st', _currentClickingOnEntityID st').
Proof.
  intros Hone. revert st st' signals.
  induction inputs as [|input inputs IH]; intros st st' signals; simpl.
  - by intros [= <- <-].
  - destruct (handle_mouse w input r st) as [[st1 first]|] eqn:Hfirst;
      simpl; [|done].
    destruct (handle_mouse_all w inputs r st1) as [[st2 others]|] eqn:Hrest;
      simpl; [|done].
    intros [= <- <-]. rewrite replay_app.
    assert (replay w (_currentHoverOverEntityID st)
              (_currentClickingOnEntityID st) first
            = Some (_currentHoverOverEntityID st1,
                    _currentClickingOnEntityID st1)) as ->.
    { destruct input; simpl in Hfirst.
      - by apply mousePress_replay in Hfirst.
      - pose proof (mouseDoublePress_replay event r st) as Hstep.
        destruct (mouseDoublePressEvent vec2 w event r st). by simplify_eq.
      - pose proof (mouseRelease_replay event r st Hone) as Hstep.
        destruct (mouseReleaseEvent vec2 w event r st). by simplify_eq.
      - pose proof (mouseMove_replay event r st Hone) as Hstep.
        destruct (mouseMoveEvent vec2 w event r st). by simplify_eq. }
    simpl. by apply IH.
Qed.

(** X19: [mouseMoveEvent] on a live renderer tracks the entity under the
    ray, or the unknown id when there is none; it leaves the clicked entity
    alone; it emits [hoverEnterEntity] exactly for a hit entity other than
    the one hovered before, and [hoverLeaveEntity] exactly for a valid
    previous entity that is no longer the one under the ray. *)
Theorem mouseMove_hover_changes event r st tree :
  _tree r = Some tree → _shuttingDown r = false →
  let res :=
    findRayIntersectionWorker vec2 w
      (computePickRay w (event_x event) (event_y event)) TryLock false r in
  let previous := _currentHoverOverEntityID st in
  _currentHoverOverEntityID (mouseMoveEvent vec2 w event r st).1
  = (if intersects res then entityID res
     else if isInvalidID w previous then previous else UNKNOWN_ENTITY_ID w)
  ∧ _currentClickingOnEntityID (mouseMoveEvent vec2 w event r st).1
    = _currentClickingOnEntityID st
  ∧ (∀ i e, HoverEnterEntity i e ∈ (mouseMoveEvent vec2 w event r st).2 →
            intersects res = true ∧ i = entityID res ∧ i ≠ previous)
  ∧ (intersects res = true → entityID res ≠ previous →
     ∃ e, HoverEnterEntity (entityID res) e
          ∈ (mouseMoveEvent vec2 w event r st).2)
  ∧ (∀ i e, HoverLeaveEntity i e ∈ (mouseMoveEvent vec2 w event r st).2 →
            i = previous ∧ isInvalidID w previous = false
            ∧ (intersects res = true → entityID res ≠ previous))
  ∧ (isInvalidID w previous = false →
     (intersects res = true → entityID res ≠ previous) →
     ∃ e, HoverLeaveEntity previous e ∈ (mouseMoveEvent vec2 w event r st).2).
Proof.
  intros Htree Hshut res previous. unfold mouseMoveEvent.
  rewrite Htree, Hshut. fold res. fold previous.
  destruct (intersects res) eqn:Hhit;
    destruct (isInvalidID w previous) eqn:Hhover;
    destruct (isInvalidID w (_currentClickingOnEntityID st)) eqn:Hclick;
    try case_bool_decide; simpl; unfold call_script;
    destruct (_entitiesScriptEngine r); simpl; rewrite ?Hclick; simpl;
    split_and!; try done; intros;
    try (eexists; find_signal);
    signal_cases; try by simplify_eq.
  all: by match goal with H : true = true → _ |- _ => destruct (H eq_refl) end.
Qed.

(** X20: [mouseReleaseEvent] on a live renderer always ends with the unknown
    id as the clicked entity and keeps the hovered one; it emits
    [clickReleaseOnEntity] exactly when a valid entity was clicked, for that
    entity, while the script call of that name goes to the entity id of the
    ray result; [mouseReleaseOnEntity] needs a hit. *)
Theorem mouseRelease_ends_the_click event r st tree :
  _tree r = Some tree → _shuttingDown r = false →
  let res :=
    findRayIntersectionWorker vec2 w
      (computePickRay w (event_x event) (event_y event)) Lock
      (negb (_dontDoPrecisionPicking st)) r in
  let clicked := _currentClickingOnEntityID st in
  _currentClickingOnEntityID (mouseReleaseEvent vec2 w event r st).1
  = UNKNOWN_ENTITY_ID w
  ∧ _currentHoverOverEntityID (mouseReleaseEvent vec2 w event r st).1
    = _currentHoverOverEntityID st
  ∧ (∀ i e, ClickReleaseOnEntity i e ∈ (mouseReleaseEvent vec2 w event r st).2 →
            i = clicked ∧ isInvalidID w clicked = false)
  ∧ (isInvalidID w clicked = false →
     ∃ e, ClickReleaseOnEntity clicked e
          ∈ (mouseReleaseEvent vec2 w event r st).2)
  ∧ (∀ i e, CallPointerScript i "clickReleaseOnEntity" e
              ∈ (mouseReleaseEvent vec2 w event r st).2 →
            i = entityID res ∧ isInvalidID w clicked = false)
  ∧ (∀ i e, MouseReleaseOnEntity i e ∈ (mouseReleaseEvent vec2 w event r st).2 →
            intersects res = true ∧ i = entityID res).
Proof.
  intros Htree Hshut res clicked. unfold mouseReleaseEvent.
  rewrite Htree, Hshut. fold res.
  destruct (intersects res) eqn:Hhit; simpl; fold clicked;
    destruct (isInvalidID w clicked) eqn:Hclick;
    simpl; unfold call_script;
    destruct (_entitiesScriptEngine r); simpl;
    split_and!; try done; intros;
    try (eexists; find_signal);
    signal_cases; by simplify_eq.
Qed.

(** X21: [mousePressEvent] on a live renderer dereferences a null pointer
    exactly when the ray hits and the tree no longer finds the hit id; on a
    miss it emits [mousePressOffEntity] only and keeps its state; on a hit
    that returns, the hit entity becomes the clicked one, the last pointer
    event is valid and is the one sent with [mousePressOnEntity] and
    [clickDownOnEntity]. *)
Theorem mousePress_starts_a_click event r st tree :
  _tree r = Some tree → _shuttingDown r = false →
  let res :=
    findRayIntersectionWorker vec2 w
      (computePickRay w (event_x event) (event_y event)) Lock
      (negb (_dontDoPrecisionPicking st)) r in
  (mousePressEvent vec2 w event r st = Undefined NullDereference
   ↔ intersects res = true
     ∧ findEntityByEntityItemID tree (entityID res) = None)
  ∧ (intersects res = false →
     mousePressEvent vec2 w event r st = Returns (st, [MousePressOffEntity]))
  ∧ (∀ st' signals,
       mousePressEvent vec2 w event r st = Returns (st', signals) →
       intersects res = true →
       _currentClickingOnEntityID st' = entityID res
       ∧ _currentHoverOverEntityID st' = _currentHoverOverEntityID st
       ∧ _lastPointerEventValid st' = true
       ∧ MousePressOnEntity (entityID res) (_lastPointerEvent st') ∈ signals
       ∧ ClickDownOnEntity (entityID res) (_lastPointerEvent st') ∈ signals).
Proof.
  intros Htree Hshut res. unfold mousePressEvent.
  rewrite Htree, Hshut. fold res.
  destruct (intersects res) eqn:Hhit.
  - destruct (findEntityByEntityItemID tree (entityID res)) as [found|].
    + split; [split; [done|by intros [_ ?]]|]. split; [done|].
      intros st' signals [= <- <-] _. simpl. unfold call_script.
      destruct (usable_url w (getHref w found)), (_entitiesScriptEngine r);
        simpl; split_and!; try done; find_signal.
    + split; [done|]. split; [done|]. by intros st' signals.
  - split; [split; [done|by intros [? _]]|]. split; [done|].
    by intros st' signals _ ?.
Qed.

End PointerProperties.

Section CollisionProperties.

Context {Collision : Type} (invert : Collision → Collision).
Context (getSimulatorID : Entity → QUuid) (getDynamic : Entity → bool).
Context (isNull : QUuid → bool).

(** X22: [entityCollisionWithEntity] has an effect only with a tree, before
    shutdown, when the tree finds both entities and this node simulates one
    of the two. *)
Theorem collision_effects_need_local_simulation
    myNodeID idA idB (collision : Collision) r effect :
  effect ∈ entityCollisionWithEntity Collision invert getSimulatorID
             getDynamic isNull myNodeID idA idB collision r →
  ∃ tree entityA entityB,
    _tree r = Some tree ∧ _shuttingDown r = false
    ∧ findEntityByEntityItemID tree idA = Some entityA
    ∧ findEntityByEntityItemID tree idB = Some entityB
    ∧ (myNodeID = getSimulatorID entityA ∨ myNodeID = getSimulatorID entityB).
Proof.
  unfold entityCollisionWithEntity.
  destruct (_tree r) as [tree|]; [|by intros ?%elem_of_nil].
  destruct (_shuttingDown r); [by intros ?%elem_of_nil|].
  destruct (findEntityByEntityItemID tree idA) as [entityA|] eqn:HA;
    [|by intros ?%elem_of_nil].
  destruct (findEntityByEntityItemID tree idB) as [entityB|] eqn:HB;
    [|by intros ?%elem_of_nil].
  intros Hin. exists tree, entityA, entityB. split_and!; try done.
  destruct (decide (myNodeID = getSimulatorID entityA)) as [|HmA]; [by left|].
  destruct (decide (myNodeID = getSimulatorID entityB)) as [|HmB]; [by right|].
  rewrite !(bool_decide_eq_false_2 _ HmA), !(bool_decide_eq_false_2 _ HmB)
    in Hin.
  by apply elem_of_nil in Hin.
Qed.

(** X23: for two distinct ids found in a live tree, the signal for side A
    is emitted by the simulator of A when A is dynamic with a simulator, and
    by the simulator of B when A is not dynamic; likewise for side B; side A
    is sent the collision and side B the inverted one. *)
Theorem collision_side_has_one_responsible_node
    myNodeID idA idB (collision : Collision) r tree entityA entityB :
  _tree r = Some tree → _shuttingDown r = false →
  findEntityByEntityItemID tree idA = Some entityA →
  findEntityByEntityItemID tree idB = Some entityB →
  idA ≠ idB →
  let effects :=
    entityCollisionWithEntity Collision invert getSimulatorID getDynamic
      isNull myNodeID idA idB collision r in
  (getDynamic entityA = true → isNull (getSimulatorID entityA) = false →
   ((∃ c, EmitCollisionWithEntity idA idB c ∈ effects)
    ↔ myNodeID = getSimulatorID entityA))
  ∧ (getDynamic entityA = false →
     ((∃ c, EmitCollisionWithEntity idA idB c ∈ effects)
      ↔ myNodeID = getSimulatorID entityB))
  ∧ (getDynamic entityB = true → isNull (getSimulatorID entityB) = false →
     ((∃ c, EmitCollisionWithEntity idB idA c ∈ effects)
      ↔ myNodeID = getSimulatorID entityB))
  ∧ (getDynamic entityB = false →
     ((∃ c, EmitCollisionWithEntity idB idA c ∈ effects)
      ↔ myNodeID = getSimulatorID entityA))
  ∧ (∀ c, EmitCollisionWithEntity idA idB c ∈ effects → c = collision)
  ∧ (∀ c, EmitCollisionWithEntity idB idA c ∈ effects → c = invert collision).
Proof.
  intros Htree Hshut HA HB Hne effects. subst effects.
  unfold entityCollisionWithEntity. rewrite Htree, Hshut, HA, HB.
  unfold notify_collision.
  destruct (getDynamic entityA), (getDynamic entityB),
    (isNull (getSimulatorID entityA)), (isNull (getSimulatorID entityB)),
    (_entitiesScriptEngine r);
    destruct (decide (myNodeID = getSimulatorID entityA)) as [HmA|HmA];
    destruct (decide (myNodeID = getSimulatorID entityB)) as [HmB|HmB];
    rewrite ?(bool_decide_eq_true_2 _ HmA), ?(bool_decide_eq_true_2 _ HmB),
      ?(bool_decide_eq_false_2 _ HmA), ?(bool_decide_eq_false_2 _ HmB);
    simpl; split_and!; try done; intros; try split; intros;
    repeat match goal with H : ∃ _, _ |- _ => destruct H end;
    signal_cases; simplify_eq; try done; eexists; find_signal.
Qed.

End CollisionProperties.

(** ** Examples for the pointer and collision handlers *)

Lemma sample_pointer_one_invalid_id : one_invalid_id sample_pointer.
Proof. intros i. apply bool_decide_eq_true. Qed.

Lemma pointer_signals_follow_the_protocol_witness :
  ∃ st' signals,
    handle_mouse_all sample_pointer a_mouse_session settled pointer_start
    = Returns (st', signals)
    ∧ replay sample_pointer 0%N 0%N signals
      = Some (_currentHoverOverEntityID st', _currentClickingOnEntityID st').
Proof.
  eexists _, _. split; [reflexivity|].
  apply (pointer_signals_follow_the_protocol sample_pointer a_mouse_session
           settled pointer_start);
    [apply sample_pointer_one_invalid_id | reflexivity].
Defined.

Lemma mouseMove_hover_changes_witness :
  _currentHoverOverEntityID
    (mouseMoveEvent (Z * Z) sample_pointer (mouse_at 3) settled
       pointer_on_two).1
  = 3%N.
Proof.
  apply (mouseMove_hover_changes sample_pointer (mouse_at 3) settled
           pointer_on_two (sample_tree [scripted 2%N true; scripted 3%N true]));
    reflexivity.
Defined.

Lemma mouseRelease_ends_the_click_witness :
  _currentClickingOnEntityID
    (mouseReleaseEvent (Z * Z) sample_pointer (mouse_at 3) settled
       pointer_on_two).1
  = 0%N.
Proof.
  apply (mouseRelease_ends_the_click sample_pointer (mouse_at 3) settled
           pointer_on_two (sample_tree [scripted 2%N true; scripted 3%N true]));
    reflexivity.
Defined.

Lemma mousePress_starts_a_click_witness :
  mousePressEvent (Z * Z) sample_pointer (mouse_at 7) settled pointer_start
  = Returns (pointer_start, [MousePressOffEntity]).
Proof.
  apply (mousePress_starts_a_click sample_pointer (mouse_at 7) settled
           pointer_start (sample_tree [scripted 2%N true; scripted 3%N true]));
    reflexivity.
Defined.

Lemma collision_effects_need_local_simulation_witness :
  ∃ tree entityA entityB,
    _tree settled = Some tree ∧ _shuttingDown settled = false
    ∧ findEntityByEntityItemID tree 2%N = Some entityA
    ∧ findEntityByEntityItemID tree 3%N = Some entityB
    ∧ (7%N = sample_simulator entityA ∨ 7%N = sample_simulator entityB).
Proof.
  apply (collision_effects_need_local_simulation Z.opp sample_simulator
           sample_dynamic sample_isNull 7%N 2%N 3%N 1 settled
           (EmitCollisionWithEntity 2%N 3%N 1)).
  simpl. apply list_elem_of_further, list_elem_of_here.
Defined.

Lemma collision_side_has_one_responsible_node_witness :
  (∃ c, EmitCollisionWithEntity 2%N 3%N c
        ∈ entityCollisionWithEntity Z Z.opp sample_simulator sample_dynamic
            sample_isNull 7%N 2%N 3%N 1 settled)
  ↔ 7%N = sample_simulator (scripted 2%N true).
Proof.
  refine (proj1 (collision_side_has_one_responsible_node Z.opp
                   sample_simulator sample_dynamic sample_isNull 7%N 2%N 3%N 1
                   settled
                   (sample_tree [scripted 2%N true; scripted 3%N true])
                   (scripted 2%N true) (scripted 3%N true) _ _ _ _ _) _ _);
    [reflexivity | reflexivity | reflexivity | reflexivity | discriminate
    | reflexivity | reflexivity].
Defined.

(** ** The entities in the scene *)

Section SceneProperties.

Context (TREE_SCALE : float).
Context (getRenderableInterface shouldPreloadScript addToScene : Entity → bool).
Context (normalizeURL : string → string).
Context (findEntityByID : EntityTree → EntityItemID → option Entity).
Context (keys : gmap EntityItemID Entity → list EntityItemID).
Context (reload_default unloadFirst_default : bool).

(** X24: [checkAndCallPreload] calls through a null script engine exactly
    when the renderer is live, the tree finds the entity, its script is
    empty and there is no engine; when it returns without an engine it did
    nothing; and it loads a script exactly for an entity found in a live
    tree that should preload while an engine exists, under the normalized
    URL and with the [reload] it was given. *)
Theorem checkAndCallPreload_outcome entityID reload unloadFirst r :
  let run :=
    checkAndCallPreload shouldPreloadScript normalizeURL entityID reload
      unloadFirst r in
  (run = Undefined NullDereference
   ↔ ∃ tree entity,
       _tree r = Some tree ∧ _shuttingDown r = false
       ∧ findEntityByEntityItemID tree entityID = Some entity
       ∧ getScript entity = EmptyString ∧ _entitiesScriptEngine r = false)
  ∧ (∀ effects, run = Returns effects →
       (_entitiesScriptEngine r = false → effects = [])
       ∧ ∀ i url rl,
           LoadEntityScript i url rl ∈ effects
           ↔ i = entityID ∧ rl = reload
             ∧ ∃ tree entity,
                 _tree r = Some tree ∧ _shuttingDown r = false
                 ∧ findEntityByEntityItemID tree entityID = Some entity
                 ∧ shouldPreloadScript entity = true
                 ∧ _entitiesScriptEngine r = true
                 ∧ url = normalizeURL (getScript entity)).
Proof.
  intros run. subst run. unfold checkAndCallPreload.
  assert (∀ (P : Prop) (Q : string → Prop), ¬ P → (∀ url, ¬ Q url) →
    (Returns (A := list SceneEffect) [] = Undefined NullDereference ↔ P)
    ∧ (∀ effects, Returns [] = Returns effects →
         (_entitiesScriptEngine r = false → effects = [])
         ∧ ∀ i url rl, LoadEntityScript i url rl ∈ effects
                       ↔ i = entityID ∧ rl = reload ∧ Q url)) as Hnothing.
  { intros P Q HP HQ. split; [done|]. intros effects [= <-].
    split; [done|]. intros i url rl.
    split; [by intros ?%elem_of_nil|by intros (_ & _ & ?%HQ)]. }
  destruct (_tree r) as [tree|] eqn:Htree;
    [|apply (Hnothing _ (λ url, ∃ tree entity, _)); [|intros url];
      by intros (? & ? & ? & _)].
  destruct (_shuttingDown r) eqn:Hshut; simpl;
    [apply (Hnothing _ (λ url, ∃ tree entity, _)); [|intros url];
     by intros (? & ? & _ & ? & _)|].
  destruct (findEntityByEntityItemID tree entityID) as [entity|] eqn:Hfind;
    [|apply (Hnothing _ (λ url, ∃ tree entity, _)); [|intros url];
      intros (? & ? & ? & _ & ? & _); by simplify_eq].
  clear Hnothing.
  destruct (_entitiesScriptEngine r) eqn:Hengine;
    destruct (shouldPreloadScript entity) eqn:Hpre;
    destruct unloadFirst; case_bool_decide as Hempty; simpl.
  all: split;
    [split; [try done; intros _; by exists tree, entity
            |try done; intros (? & ? & ? & _ & ? & ? & ?); by simplify_eq]|].
  all: intros effects Hrun; simplify_eq.
  all: split; [done|]; intros i url rl.
  all: split;
    [intros Hin; signal_cases; simplify_eq;
     split_and!; try done; by exists tree, entity
    |intros (-> & -> & ? & ? & ? & _ & ? & ? & ? & ->); simplify_eq;
     first [find_signal | congruence]].
Qed.

Lemma forceRecheckEntities_keeps vs r :
  _tree (forceRecheckEntities TREE_SCALE vs r) = _tree r
  ∧ _shuttingDown (forceRecheckEntities TREE_SCALE vs r) = _shuttingDown r
  ∧ _entitiesScriptEngine (forceRecheckEntities TREE_SCALE vs r)
    = _entitiesScriptEngine r.
Proof. done. Qed.

Lemma forceRecheckEntities_twice vs r :
  forceRecheckEntities TREE_SCALE vs (forceRecheckEntities TREE_SCALE vs r)
  = forceRecheckEntities TREE_SCALE vs r.
Proof. done. Qed.

(** X25: [deletingEntity] does nothing at all for an id that is not in the
    scene; otherwise it leaves every other entity of the scene in place and
    takes the entity out unless the scene pointer is null; the renderer is
    left as it was or with a forced recheck, and the entity's payload is
    removed from the scene only together with that forced recheck, for a
    renderable entity. *)
Theorem deletingEntity_takes_that_entity vs entityID r s :
  let r' := (deletingEntity TREE_SCALE getRenderableInterface vs entityID r s).1.1 in
  let s' := (deletingEntity TREE_SCALE getRenderableInterface vs entityID r s).1.2 in
  let effects := (deletingEntity TREE_SCALE getRenderableInterface vs entityID r s).2 in
  (_entitiesInScene s !! entityID = None → r' = r ∧ s' = s ∧ effects = [])
  ∧ (∀ k, k ≠ entityID →
          _entitiesInScene s' !! k = _entitiesInScene s !! k)
  ∧ _entitiesInScene s' !! entityID
    = (if getMain3DScene vs then None else _entitiesInScene s !! entityID)
  ∧ _entityIDsLastInScene s' = _entityIDsLastInScene s
  ∧ (r' = r ∨ r' = forceRecheckEntities TREE_SCALE vs r)
  ∧ (∀ k, RemoveFromScene k ∈ effects
          ↔ k = entityID ∧ getMain3DScene vs = true
            ∧ ∃ entity, _entitiesInScene s !! entityID = Some entity
                        ∧ getRenderableInterface entity = true)
  ∧ (∀ k, RemoveFromScene k ∈ effects →
          r' = forceRecheckEntities TREE_SCALE vs r).
Proof.
  intros r' s' effects. subst r' s' effects. unfold deletingEntity.
  destruct (_entitiesInScene s !! entityID) as [entity|] eqn:Hin.
  2:{ split_and!; try done.
      - by destruct (getMain3DScene vs).
      - by left.
      - intros k. split; [by intros ?%elem_of_nil|].
        by intros (_ & _ & ? & ? & _).
      - by intros k ?%elem_of_nil. }
  set (unloaded := if _ && _ && _ then _ else _).
  assert (∀ k, RemoveFromScene k ∉ unloaded) as Hunloaded.
  { intros k. subst unloaded. case_match; intros ?; by signal_cases. }
  destruct (getMain3DScene vs) eqn:Hscene; simpl.
  2:{ split_and!; try done.
      - by left.
      - intros k. split; [|by intros (_ & ? & _)].
        intros [?%Hunloaded|?]%elem_of_app; [done|by signal_cases].
      - intros k [?%Hunloaded|?]%elem_of_app; [done|by signal_cases]. }
  destruct (getRenderableInterface entity) eqn:Hrenderable; simpl.
  - split_and!; try done.
    + intros k Hk. by apply lookup_delete_ne.
    + apply lookup_delete_eq.
    + by right.
    + intros k. split.
      * intros [?%Hunloaded|?]%elem_of_app; [done|].
        signal_cases; simplify_eq. split_and!; try done. by exists entity.
      * intros (-> & _). apply elem_of_app. right. find_signal.
  - split_and!; try done.
    + intros k Hk. by apply lookup_delete_ne.
    + apply lookup_delete_eq.
    + by left.
    + intros k. split.
      * intros [?%Hunloaded|?]%elem_of_app; [done|by signal_cases].
      * intros (_ & _ & e & ? & ?). congruence.
    + intros k [?%Hunloaded|?]%elem_of_app; [done|by signal_cases].
Qed.

Lemma deletingEntity_lookup vs entityID r s k :
  _entitiesInScene
    (deletingEntity TREE_SCALE getRenderableInterface vs entityID r s).1.2 !! k
  = (if bool_decide (k = entityID) && getMain3DScene vs then None
     else _entitiesInScene s !! k).
Proof.
  unfold deletingEntity.
  destruct (_entitiesInScene s !! entityID) as [entity|] eqn:Hin.
  - destruct (getMain3DScene vs); simpl; [|by rewrite andb_false_r].
    rewrite andb_true_r.
    destruct (getRenderableInterface entity); simpl;
      (case_bool_decide as Hk;
       [subst k; apply lookup_delete_eq|by apply lookup_delete_ne]).
  - simpl. case_bool_decide as Hk; [subst k|done].
    by destruct (getMain3DScene vs).
Qed.

Lemma deletingEntity_frame vs entityID r s :
  _entityIDsLastInScene
    (deletingEntity TREE_SCALE getRenderableInterface vs entityID r s).1.2
  = _entityIDsLastInScene s
  ∧ _tree (deletingEntity TREE_SCALE getRenderableInterface vs entityID r s).1.1
    = _tree r
  ∧ _entitiesScriptEngine
      (deletingEntity TREE_SCALE getRenderableInterface vs entityID r s).1.1
    = _entitiesScriptEngine r.
Proof.
  unfold deletingEntity.
  destruct (_entitiesInScene s !! entityID) as [entity|]; [|done].
  by destruct (getMain3DScene vs), (getRenderableInterface entity).
Qed.

Lemma deletingEntity_each_spec vs ids r s :
  _entityIDsLastInScene
    (deletingEntity_each TREE_SCALE getRenderableInterface vs ids r s).1.2
  = _entityIDsLastInScene s
  ∧ _tree
      (deletingEntity_each TREE_SCALE getRenderableInterface vs ids r s).1.1
    = _tree r
  ∧ _entitiesScriptEngine
      (deletingEntity_each TREE_SCALE getRenderableInterface vs ids r s).1.1
    = _entitiesScriptEngine r
  ∧ ∀ k,
      _entitiesInScene
        (deletingEntity_each TREE_SCALE getRenderableInterface vs ids r s).1.2
      !! k
      = (if bool_decide (k ∈ ids) && getMain3DScene vs then None
         else _entitiesInScene s !! k).
Proof.
  revert r s. induction ids as [|entityID ids IH]; intros r s; simpl.
  { by split_and!. }
  pose proof (deletingEntity_frame vs entityID r s) as (Hlast & Htree & Heng).
  pose proof (deletingEntity_lookup vs entityID r s) as Hlookup.
  destruct (deletingEntity _ _ vs entityID r s) as [[r1 s1] first].
  simpl in *. specialize (IH r1 s1).
  destruct (deletingEntity_each _ _ vs ids r1 s1) as [[r2 s2] others].
  simpl in *. destruct IH as (Hlast2 & Htree2 & Heng2 & Hlookup2).
  split_and!; try congruence.
  intros k. rewrite Hlookup2, Hlookup.
  destruct (getMain3DScene vs); rewrite ?andb_true_r, ?andb_false_r; [|done].
  destruct (decide (k = entityID)) as [->|Hne].
  - rewrite (bool_decide_eq_true_2 (entityID ∈ entityID :: ids))
      by apply list_elem_of_here.
    rewrite (bool_decide_eq_true_2 (entityID = entityID)) by done.
    by destruct (bool_decide _).
  - rewrite (bool_decide_eq_false_2 (k = entityID)) by done.
    rewrite (bool_decide_ext (k ∈ entityID :: ids) (k ∈ ids))
      by (rewrite elem_of_cons; tauto).
    by destruct (bool_decide _).
Qed.

Lemma checkAndCallPreload_with_engine entityID reload unloadFirst r :
  _entitiesScriptEngine r = true →
  ∃ effects,
    checkAndCallPreload shouldPreloadScript normalizeURL entityID reload
      unloadFirst r = Returns effects.
Proof.
  intros Hengine. unfold checkAndCallPreload. rewrite Hengine.
  destruct (_tree r) as [tree|]; [|by eexists].
  destruct (_shuttingDown r); simpl; [by eexists|].
  destruct (findEntityByEntityItemID tree entityID) as [entity|];
    [|by eexists].
  destruct (_ || _); simpl; by eexists.
Qed.

Lemma addingEntity_adds vs entityID r s tree entity :
  _tree r = Some tree → _entitiesScriptEngine r = true →
  findEntityByID tree entityID = Some entity →
  getMain3DScene vs = true → getRenderableInterface entity = true →
  addToScene entity = true →
  ∃ effects,
    addingEntity TREE_SCALE getRenderableInterface shouldPreloadScript
      addToScene normalizeURL findEntityByID reload_default
      unloadFirst_default vs entityID r s
    = Returns (forceRecheckEntities TREE_SCALE vs r,
               set_entitiesInScene
                 (<[getEntityItemID entity := entity]> (_entitiesInScene s)) s,
               effects).
Proof.
  intros Htree Hengine Hfind Hscene Hrenderable Hadded. unfold addingEntity.
  destruct (checkAndCallPreload_with_engine entityID reload_default
              unloadFirst_default (forceRecheckEntities TREE_SCALE vs r))
    as [preloaded ->]; [done|].
  simpl. rewrite Htree, Hfind. unfold addEntityToScene.
  rewrite Hscene, Hrenderable, Hadded. simpl. by eexists.
Qed.

(** X26: [addingEntity] calls through the null tree pointer when there is
    no tree.  When it returns, the recheck has been forced, the ids
    remembered from the last scene are kept, and the scene is either as
    before or has gained the entity that the tree finds for the id, under
    that entity's own id, which takes a scene, a renderable entity and a
    successful [addToScene].  With a tree, an engine, a scene and such an
    entity it does return and the scene has gained the entity. *)
Theorem addingEntity_outcome vs entityID r s :
  let run :=
    addingEntity TREE_SCALE getRenderableInterface shouldPreloadScript
      addToScene normalizeURL findEntityByID reload_default
      unloadFirst_default vs entityID r s in
  (_tree r = None → run = Undefined NullDereference)
  ∧ (∀ r' s' effects, run = Returns (r', s', effects) →
       r' = forceRecheckEntities TREE_SCALE vs r
       ∧ _entityIDsLastInScene s' = _entityIDsLastInScene s
       ∧ (s' = s
          ∨ ∃ tree entity,
              _tree r = Some tree
              ∧ findEntityByID tree entityID = Some entity
              ∧ getMain3DScene vs = true
              ∧ getRenderableInterface entity = true
              ∧ addToScene entity = true
              ∧ _entitiesInScene s'
                = <[getEntityItemID entity := entity]> (_entitiesInScene s)))
  ∧ (∀ tree entity,
       _tree r = Some tree → _entitiesScriptEngine r = true →
       findEntityByID tree entityID = Some entity →
       getMain3DScene vs = true → getRenderableInterface entity = true →
       addToScene entity = true →
       ∃ s' effects,
         run = Returns (forceRecheckEntities TREE_SCALE vs r, s', effects)
         ∧ _entitiesInScene s' !! getEntityItemID entity = Some entity).
Proof.
  intros run. subst run. split_and!.
  - intros Htree. unfold addingEntity, checkAndCallPreload. simpl.
    by rewrite Htree.
  - intros r' s' effects. unfold addingEntity.
    destruct (checkAndCallPreload _ _ _ _ _ _) as [preloaded|]; [|done].
    simpl. destruct (_tree r) as [tree|]; [|done].
    destruct (findEntityByID tree entityID) as [entity|] eqn:Hfind.
    2:{ intros [= <- <- <-]. split_and!; try done. by left. }
    unfold addEntityToScene.
    destruct (getMain3DScene vs) eqn:Hscene; simpl.
    2:{ intros [= <- <- <-]. split_and!; try done. by left. }
    destruct (getRenderableInterface entity) eqn:Hrenderable; simpl.
    2:{ intros [= <- <- <-]. split_and!; try done. by left. }
    destruct (addToScene entity) eqn:Hadded; intros [= <- <- <-].
    + split_and!; try done. right. by exists tree, entity.
    + split_and!; try done. by left.
  - intros tree entity Htree Hengine Hfind Hscene Hrenderable Hadded.
    destruct (addingEntity_adds vs entityID r s tree entity)
      as [effects ->]; try done.
    eexists _, effects. split; [done|]. simpl. apply lookup_insert_eq.
Qed.

Lemma addingEntity_each_adds vs ids tree (m : gmap EntityItemID Entity) :
  getMain3DScene vs = true →
  (∀ k, k ∈ ids → ∃ entity,
      m !! k = Some entity
      ∧ findEntityByID tree k = Some entity
      ∧ getEntityItemID entity = k
      ∧ getRenderableInterface entity = true
      ∧ addToScene entity = true) →
  ∀ r s,
    _tree r = Some tree → _entitiesScriptEngine r = true →
    ∃ r' s' effects,
      addingEntity_each TREE_SCALE getRenderableInterface shouldPreloadScript
        addToScene normalizeURL findEntityByID reload_default
        unloadFirst_default vs ids r s
      = Returns (r', s', effects)
      ∧ _entityIDsLastInScene s' = _entityIDsLastInScene s
      ∧ ∀ k, _entitiesInScene s' !! k
             = (if bool_decide (k ∈ ids) then m !! k
                else _entitiesInScene s !! k).
Proof.
  intros Hscene. induction ids as [|entityID ids IH]; intros Hall r s Htree
    Hengine; simpl.
  { eexists _, _, _. by split_and!. }
  destruct (Hall entityID) as (entity & Hm & Hfind & Hid & Hrenderable & Hadded);
    [apply list_elem_of_here|].
  destruct (addingEntity_adds vs entityID r s tree entity)
    as [first ->]; try done.
  simpl.
  destruct (IH (λ k Hk, Hall k (list_elem_of_further _ _ _ Hk))
              (forceRecheckEntities TREE_SCALE vs r)
              (set_entitiesInScene
                 (<[getEntityItemID entity := entity]> (_entitiesInScene s)) s))
    as (r' & s' & others & -> & Hlast & Hlookup); [done..|].
  simpl. eexists _, _, _. split_and!; [done|done|].
  intros k. rewrite Hlookup. simpl. rewrite Hid.
  destruct (decide (k = entityID)) as [->|Hne].
  - rewrite (bool_decide_eq_true_2 (entityID ∈ entityID :: ids))
      by apply list_elem_of_here.
    rewrite lookup_insert_eq, Hm. by destruct (bool_decide _).
  - rewrite (bool_decide_ext (k ∈ entityID :: ids) (k ∈ ids))
      by (rewrite elem_of_cons; tauto).
    by rewrite lookup_insert_ne.
Qed.

(** X27: with rendering switched off, [updateEntityRenderStatus] returns,
    remembers the ids of the scene and, given a scene pointer, leaves no
    entity in [_entitiesInScene]; with a null scene pointer every entity
    stays. *)
Theorem hiding_empties_the_scene vs r s :
  (∀ m k, k ∈ keys m ↔ is_Some (m !! k)) →
  ∃ r' s' effects,
    updateEntityRenderStatus TREE_SCALE getRenderableInterface
      shouldPreloadScript addToScene normalizeURL findEntityByID keys
      reload_default unloadFirst_default false vs r s
    = Returns (r', s', effects)
    ∧ _entityIDsLastInScene s' = keys (_entitiesInScene s)
    ∧ _entitiesInScene s'
      = (if getMain3DScene vs then ∅ else _entitiesInScene s).
Proof.
  intros Hkeys. unfold updateEntityRenderStatus. simpl.
  pose proof (deletingEntity_each_spec vs (keys (_entitiesInScene s)) r
                (set_entityIDsLastInScene (keys (_entitiesInScene s)) s))
    as (Hlast & _ & _ & Hlookup).
  destruct (deletingEntity_each _ _ _ _ _ _) as [[r' s'] effects].
  simpl in *. exists r', s', effects. split_and!; [done|done|].
  apply map_eq. intros k. rewrite Hlookup.
  destruct (getMain3DScene vs); rewrite ?andb_true_r, ?andb_false_r; [|done].
  rewrite lookup_empty. case_bool_decide as Hk; [done|].
  rewrite Hkeys in Hk. by apply eq_None_not_Some.
Qed.

(** X28: switching rendering off and on again brings back the scene: when
    the tree still finds every entity of the scene under its id, each is
    renderable and is accepted by [addToScene], and there are a scene, a
    tree and a script engine, the two calls return, [_entitiesInScene] is
    what it was and no id is left remembered. *)
Theorem hide_then_show_restores_the_scene vs r s tree :
  (∀ m k, k ∈ keys m ↔ is_Some (m !! k)) →
  _tree r = Some tree → _entitiesScriptEngine r = true →
  getMain3DScene vs = true →
  (∀ k entity, _entitiesInScene s !! k = Some entity →
     findEntityByID tree k = Some entity
     ∧ getEntityItemID entity = k
     ∧ getRenderableInterface entity = true
     ∧ addToScene entity = true) →
  ∃ r1 s1 hidden r2 s2 shown,
    updateEntityRenderStatus TREE_SCALE getRenderableInterface
      shouldPreloadScript addToScene normalizeURL findEntityByID keys
      reload_default unloadFirst_default false vs r s
    = Returns (r1, s1, hidden)
    ∧ updateEntityRenderStatus TREE_SCALE getRenderableInterface
        shouldPreloadScript addToScene normalizeURL findEntityByID keys
        reload_default unloadFirst_default true vs r1 s1
      = Returns (r2, s2, shown)
    ∧ _entitiesInScene s1 = ∅
    ∧ _entitiesInScene s2 = _entitiesInScene s
    ∧ _entityIDsLastInScene s2 = [].
Proof.
  intros Hkeys Htree Hengine Hscene Hall.
  unfold updateEntityRenderStatus at 1. simpl.
  pose proof (deletingEntity_each_spec vs (keys (_entitiesInScene s)) r
                (set_entityIDsLastInScene (keys (_entitiesInScene s)) s))
    as (Hlast & Htree1 & Hengine1 & Hlookup).
  destruct (deletingEntity_each _ _ _ _ _ _) as [[r1 s1] hidden].
  simpl in *. rewrite Hscene in Hlookup.
  assert (_entitiesInScene s1 = ∅) as Hempty.
  { apply map_eq. intros k. rewrite Hlookup, andb_true_r, lookup_empty.
    case_bool_decide as Hk; [done|].
    rewrite Hkeys in Hk. by apply eq_None_not_Some. }
  destruct (addingEntity_each_adds vs (keys (_entitiesInScene s)) tree
              (_entitiesInScene s) Hscene) with (r := r1) (s := s1)
    as (r2 & s2 & shown & Hshow & Hlast2 & Hlookup2); [|congruence..|].
  { intros k [entity Hk]%Hkeys. exists entity.
    by destruct (Hall k entity Hk) as (? & ? & ? & ?). }
  exists r1, s1, hidden, r2, (set_entityIDsLastInScene [] s2), shown.
  split_and!; try done.
  - unfold updateEntityRenderStatus. rewrite Hlast, Hshow. done.
  - simpl. apply map_eq. intros k. rewrite Hlookup2, Hempty, lookup_empty.
    case_bool_decide as Hk; [done|].
    rewrite Hkeys in Hk. symmetry. by apply eq_None_not_Some.
Qed.

End SceneProperties.

(** ** [update()] and the click that is held *)

Section UpdateProperties.

Context (ZONE_CHECK_DISTANCE : float) (ZONE_CHECK_INTERVAL : Z).
Context (INVALID_ITEM_ID : ItemID).
Context {vec2 : Type} (w : PointerEnvironment vec2).

Lemma check_keeps_the_engine vs now r didUpdate r' events :
  checkEnterLeaveEntities ZONE_CHECK_DISTANCE ZONE_CHECK_INTERVAL
    INVALID_ITEM_ID vs now r = Returns (didUpdate, r', events) →
  _entitiesScriptEngine r' = _entitiesScriptEngine r.
Proof.
  intros [(_ & -> & _)|(tree & _ & _ & Hrun)]%check_returns; [done|].
  by apply recheck_returns in Hrun as (lz & zone_events & _ & _ & -> & _).
Qed.

(** X29: after a [mousePressEvent] that hit a valid entity, an [update()]
    whose enter/leave check returns sends [holdingClickOnEntity] for that
    entity with the pointer event of the press, after the events of the
    check, when there is a script engine; without one it calls through the
    null engine pointer. *)
Theorem update_after_press_holds_the_click
    vs now event r st st' signals tree didUpdate r' events :
  _tree r = Some tree → _shuttingDown r = false →
  let res :=
    findRayIntersectionWorker vec2 w
      (computePickRay w (event_x event) (event_y event)) Lock
      (negb (_dontDoPrecisionPicking st)) r in
  intersects res = true → isInvalidID w (entityID res) = false →
  mousePressEvent vec2 w event r st = Returns (st', signals) →
  checkEnterLeaveEntities ZONE_CHECK_DISTANCE ZONE_CHECK_INTERVAL
    INVALID_ITEM_ID vs now r = Returns (didUpdate, r', events) →
  update ZONE_CHECK_DISTANCE ZONE_CHECK_INTERVAL INVALID_ITEM_ID vec2 w vs now
    r st'
  = (if _entitiesScriptEngine r then
       Returns
         (r',
          TreeUpdate :: (Checked <$> events)
          ++ [Pointed (HoldingClickOnEntity (entityID res)
                         (_lastPointerEvent st'));
              Pointed (CallPointerScript (entityID res)
                         "holdingClickOnEntity" (_lastPointerEvent st'))]
          ++ [DeleteReleasedModels])
     else Undefined NullDereference).
Proof.
  intros Htree Hshut res Hhit Hvalid Hpress Hcheck.
  pose proof (check_keeps_the_engine _ _ _ _ _ _ Hcheck) as Hengine.
  unfold update. rewrite Htree, Hshut, Hcheck. simpl.
  revert Hpress. unfold mousePressEvent. rewrite Htree, Hshut. fold res.
  rewrite Hhit.
  destruct (findEntityByEntityItemID tree (entityID res)) as [found|];
    [|done].
  intros [= <- <-]. simpl. rewrite Hvalid, Hengine. simpl.
  by destruct (_entitiesScriptEngine r).
Qed.

(** X30: after a [mouseReleaseEvent] on a live renderer, an [update()]
    whose enter/leave check returns also returns, with or without a script
    engine, and sends the events of the check and no pointer signal. *)
Theorem update_after_release_is_silent
    vs now event r st tree didUpdate r' events :
  isInvalidID w (UNKNOWN_ENTITY_ID w) = true →
  _tree r = Some tree → _shuttingDown r = false →
  checkEnterLeaveEntities ZONE_CHECK_DISTANCE ZONE_CHECK_INTERVAL
    INVALID_ITEM_ID vs now r = Returns (didUpdate, r', events) →
  update ZONE_CHECK_DISTANCE ZONE_CHECK_INTERVAL INVALID_ITEM_ID vec2 w vs now
    r (mouseReleaseEvent vec2 w event r st).1
  = Returns (r', TreeUpdate :: (Checked <$> events) ++ [DeleteReleasedModels]).
Proof.
  intros Hunknown Htree Hshut Hcheck.
  unfold update. rewrite Htree, Hshut, Hcheck. simpl.
  unfold mouseReleaseEvent. rewrite Htree, Hshut.
  destruct (intersects _); simpl; rewrite Hunknown; simpl;
    by rewrite ?andb_false_r.
Qed.

End UpdateProperties.

(** ** Examples for the scene handlers and [update()] *)

Lemma sample_keys_spec (m : gmap EntityItemID Entity) k :
  k ∈ sample_keys m ↔ is_Some (m !! k).
Proof.
  unfold sample_keys. rewrite list_elem_of_fmap. split.
  - intros ([k' entity] & -> & Hin%elem_of_map_to_list). by exists entity.
  - intros [entity Hk]. exists (k, entity). split; [done|].
    by apply elem_of_map_to_list.
Qed.

Lemma scene_two_is_found k entity :
  _entitiesInScene scene_two !! k = Some entity →
  findEntityByEntityItemID
    (sample_tree [scripted 2%N true; scripted 3%N true]) k = Some entity
  ∧ getEntityItemID entity = k
  ∧ sample_renderable entity = true
  ∧ sample_addToScene entity = true.
Proof.
  unfold scene_two. simpl.
  intros [[<- <-]|[_ [<- <-]%lookup_singleton_Some]]%lookup_insert_Some;
    by split_and!.
Qed.

Lemma hiding_empties_the_scene_witness :
  ∃ r' s' effects,
    updateEntityRenderStatus a_tree_scale sample_renderable
      sample_should_preload sample_addToScene sample_normalizeURL
      findEntityByEntityItemID sample_keys false false false
      (sample_view origin) settled scene_two
    = Returns (r', s', effects)
    ∧ _entityIDsLastInScene s' = sample_keys (_entitiesInScene scene_two)
    ∧ _entitiesInScene s' = ∅.
Proof.
  apply (hiding_empties_the_scene a_tree_scale sample_renderable
           sample_should_preload sample_addToScene sample_normalizeURL
           findEntityByEntityItemID sample_keys false false
           (sample_view origin) settled scene_two).
  apply sample_keys_spec.
Defined.

Lemma hide_then_show_restores_the_scene_witness :
  ∃ r1 s1 hidden r2 s2 shown,
    updateEntityRenderStatus a_tree_scale sample_renderable
      sample_should_preload sample_addToScene sample_normalizeURL
      findEntityByEntityItemID sample_keys false false false
      (sample_view origin) settled scene_two
    = Returns (r1, s1, hidden)
    ∧ updateEntityRenderStatus a_tree_scale sample_renderable
        sample_should_preload sample_addToScene sample_normalizeURL
        findEntityByEntityItemID sample_keys false false true
        (sample_view origin) r1 s1
      = Returns (r2, s2, shown)
    ∧ _entitiesInScene s1 = ∅
    ∧ _entitiesInScene s2 = _entitiesInScene scene_two
    ∧ _entityIDsLastInScene s2 = [].
Proof.
  apply (hide_then_show_restores_the_scene a_tree_scale sample_renderable
           sample_should_preload sample_addToScene sample_normalizeURL
           findEntityByEntityItemID sample_keys false false
           (sample_view origin) settled scene_two
           (sample_tree [scripted 2%N true; scripted 3%N true]));
    [apply sample_keys_spec | reflexivity | reflexivity | reflexivity
    | apply scene_two_is_found].
Defined.

Lemma update_after_press_holds_the_click_witness :
  ∃ st' signals r' events,
    mousePressEvent (Z * Z) sample_pointer (mouse_at 2) settled pointer_start
    = Returns (st', signals)
    ∧ update a_check_distance a_check_interval an_invalid_item (Z * Z)
        sample_pointer (sample_view origin) 0 settled st'
      = Returns
          (r',
           TreeUpdate :: (Checked <$> events)
           ++ [Pointed (HoldingClickOnEntity 2%N (_lastPointerEvent st'));
               Pointed (CallPointerScript 2%N "holdingClickOnEntity"
                          (_lastPointerEvent st'))]
           ++ [DeleteReleasedModels]).
Proof.
  eexists _, _, _, _. split; [reflexivity|].
  eapply (update_after_press_holds_the_click a_check_distance
            a_check_interval an_invalid_item sample_pointer
            (sample_view origin) 0 (mouse_at 2) settled pointer_start _ _
            (sample_tree [scripted 2%N true; scripted 3%N true]));
    reflexivity.
Defined.

Lemma update_after_release_is_silent_witness :
  ∃ r' events,
    update a_check_distance a_check_interval an_invalid_item (Z * Z)
      sample_pointer (sample_view origin) 0 settled
      (mouseReleaseEvent (Z * Z) sample_pointer (mouse_at 3) settled
         pointer_on_two).1
    = Returns (r', TreeUpdate :: (Checked <$> events)
                   ++ [DeleteReleasedModels]).
Proof.
  eexists _, _.
  eapply (update_after_release_is_silent a_check_distance a_check_interval
            an_invalid_item sample_pointer (sample_view origin) 0 (mouse_at 3)
            settled pointer_on_two
            (sample_tree [scripted 2%N true; scripted 3%N true]));
    reflexivity.
Defined.
